(** * PsyNeuLink control-allocation engine: a shallow embedding

    The development follows these source files:
    - [psyneulink/core/components/mechanisms/modulatory/control/controlmechanism.py]
      (net outcome, simulation ids, default objective mechanism),
    - [psyneulink/library/mechanisms/adaptive/control/controller.py]
      (grid of allocation policies, simulations, [_execute]),
    - [psyneulink/library/subsystems/lvoc/lvoccontrolmechanism.py]
      ([gradient_ascent], [_parse_function_variable], the predictor
      specifications),
    and, of [psyneulink/core/components/functions/selectionfunctions.py],
    [max_vs_next], [max_vs_avg] and [OneHot.function].

    Python floats are idealised as exact rationals [Q], except where
    rounding, overflow or nan decides a test ([LVOC.float]); NumPy arrays
    are lists, 1-d unless said otherwise.  Exceptions are values of [exn]
    and fallible code lives in the [result] monad. *)

From Stdlib Require Import QArith Qabs Qround Permutation.
From stdpp Require Import gmap strings list pretty sorting.


(** ** Exceptions and the error monad *)

Inductive exn :=
| TypeError
| ValueError
| IndexError
| KeyError
| Raised (msg : string).

Inductive result (A : Type) :=
| Ok (a : A)
| Raise (e : exn).
Arguments Ok {A} a.
Arguments Raise {A} e.

#[global] Instance result_ret : MRet result := fun A a => Ok a.
#[global] Instance result_bind : MBind result := fun A B f m =>
  match m with
  | Ok a => f a
  | Raise e => Raise e
  end.
#[global] Instance result_fmap : FMap result := fun A B f m =>
  match m with
  | Ok a => Ok (f a)
  | Raise e => Raise e
  end.

(** [try: m except TypeError: h] *)
Definition except_TypeError {A} (m : result A) (h : result A) : result A :=
  match m with
  | Raise TypeError => h
  | _ => m
  end.

Definition is_Ok {A} (m : result A) : Prop :=
  match m with Ok _ => True | Raise _ => False end.

(** ** Python and NumPy values *)

(** What a numeric parameter can hold: [None], a scalar, or a 1-d array
    (a list of numbers is the array NumPy converts it to). *)
Inductive pyval :=
| PyNone
| PyNum (x : Q)
| PyArr (xs : list Q).

#[global] Instance Q_inhabited : Inhabited Q := populate 0%Q.

Definition Qsum (xs : list Q) : Q := foldr Qplus 0%Q xs.

Fixpoint zip_same {A B C} (f : A -> B -> C) (xs : list A) (ys : list B)
  : result (list C) :=
  match xs, ys with
  | [], [] => Ok []
  | x :: xs', y :: ys' => rest ← zip_same f xs' ys'; Ok (f x y :: rest)
  | _, _ => Raise ValueError
  end.

(** NumPy broadcasting of a binary operation over two 1-d operands. *)
Definition broadcast1 (f : Q -> Q -> Q) (xs ys : list Q) : result (list Q) :=
  match xs, ys with
  | [x], _ => Ok (map (f x) ys)
  | _, [y] => Ok (map (fun x => f x y) xs)
  | _, _ => zip_same f xs ys
  end.

(** Python's binary [-] on these values; [None] has no subtraction. *)
Definition py_sub (a b : pyval) : result pyval :=
  match a, b with
  | PyNum x, PyNum y => Ok (PyNum (x - y)%Q)
  | PyArr xs, PyNum y => Ok (PyArr (map (fun x => x - y)%Q xs))
  | PyNum x, PyArr ys => Ok (PyArr (map (fun y => x - y)%Q ys))
  | PyArr xs, PyArr ys => PyArr <$> broadcast1 Qminus xs ys
  | PyNone, _ | _, PyNone => Raise TypeError
  end.

Definition all_nums (vs : list pyval) : option (list Q) :=
  mapM (fun v => match v with PyNum x => Some x | _ => None end) vs.

Definition all_arrs (vs : list pyval) : option (list (list Q)) :=
  mapM (fun v => match v with PyArr xs => Some xs | _ => None end) vs.

Definition same_lengths {A} (rows : list (list A)) : bool :=
  match rows with
  | [] => true
  | r :: rest => forallb (fun r' => Nat.eqb (length r') (length r)) rest
  end.

(** [np.sum] with [axis=None], as applied to the [costs] of a
    ControlMechanism: [None] (costs not set) or a Python list.  The sum of
    [None] is [None]; a list of numbers, or of arrays of one length, is added
    up; adding [None] to anything is a [TypeError]; ragged input is a
    [ValueError]. *)
Definition np_sum (a : option (list pyval)) : result pyval :=
  match a with
  | None => Ok PyNone
  | Some vs =>
      match all_nums vs with
      | Some xs => Ok (PyNum (Qsum xs))
      | None =>
          match all_arrs vs with
          | Some rows =>
              if same_lengths rows then Ok (PyNum (Qsum (concat rows)))
              else Raise ValueError
          | None =>
              match vs with
              | [PyNone] => Ok PyNone
              | _ => if existsb (fun v => match v with PyNone => true | _ => false end) vs
                     then Raise TypeError else Raise ValueError
              end
          end
      end
  end.

(** An execution context, as far as the getters read it. *)
Record Context := { execution_id : string }.

(** A Parameter ([Param] here, the word being reserved) keeps one value per
    execution context; [_get] of a context in which nothing was set is
    [None]. *)
Definition Param (A : Type) := gmap string A.

Definition _get {A} (p : Param A) (context : Context) : option A :=
  p !! execution_id context.

(** ** controlmechanism.py *)

Module ControlMechanism.

Inductive Operation := SUM | PRODUCT.

(** [LinearCombination(operation=...)]: weights and exponents are left at
    their defaults. *)
Record LinearCombination := { operation : Operation }.

Record ObjectiveMechanism (OutputState : Type) := {
  monitor : list OutputState;
  om_function : LinearCombination;
  om_name : string;
}.
Arguments monitor {OutputState} _.
Arguments om_function {OutputState} _.
Arguments om_name {OutputState} _.

(** What the [objective_mechanism] attribute holds when
    [_instantiate_objective_mechanism] runs ([_instantiate_input_states]
    calls it only if the attribute is truthy). *)
Inductive objective_mechanism_spec (OutputState : Type) :=
| OM_True
| OM_list (states : list OutputState)
| OM_instance (om : ObjectiveMechanism OutputState).
Arguments OM_True {OutputState}.
Arguments OM_list {OutputState} states.
Arguments OM_instance {OutputState} om.

Record ControlSignal := {
  cs_value : Param pyval;
  (** [None] when the state has no [compute_costs] attribute (a GatingSignal) *)
  compute_costs : option (option pyval -> Context -> result pyval);
}.

Record ControlMechanism := {
  name : string;
  variable : Param (list pyval);
  control_signals : list ControlSignal;
  combine_costs : option (list pyval) -> result pyval;
  compute_net_outcome : pyval -> pyval -> result pyval;
  _sim_counts : gmap string nat;
}.

Definition set_sim_counts (c : ControlMechanism) (m : gmap string nat) :=
  {| name := name c; variable := variable c;
     control_signals := control_signals c;
     combine_costs := combine_costs c;
     compute_net_outcome := compute_net_outcome c;
     _sim_counts := m |}.

(** The defaults of the constructor:
    [combine_costs=np.sum],
    [compute_net_outcome=lambda outcome, cost : outcome - cost]. *)
Definition default_combine_costs := np_sum.
Definition default_compute_net_outcome (outcome cost : pyval) : result pyval :=
  py_sub outcome cost.

(** The constructor; an argument that is not passed is [None] here and
    takes its default. *)
Definition __init__ (name : string)
    (control : list ControlSignal)
    (combine_costs : option (option (list pyval) -> result pyval))
    (compute_net_outcome : option (pyval -> pyval -> result pyval))
  : ControlMechanism :=
  {| name := name; variable := ∅; control_signals := control;
     combine_costs := default default_combine_costs combine_costs;
     compute_net_outcome := default default_compute_net_outcome compute_net_outcome;
     _sim_counts := ∅ |}.

(** The mechanism's [variable] is assigned in a context when it executes. *)
Definition set_variable (context : Context) (v : list pyval)
    (c : ControlMechanism) : ControlMechanism :=
  {| name := name c;
     variable := <[execution_id context := v]> (variable c);
     control_signals := control_signals c;
     combine_costs := combine_costs c;
     compute_net_outcome := compute_net_outcome c;
     _sim_counts := _sim_counts c |}.

(** [costs = [c.compute_costs(c.parameters.value._get(context), context=context)
              for c in owning_component.control_signals
              if hasattr(c, 'compute_costs')]] *)
Fixpoint costs_comprehension (css : list ControlSignal) (context : Context)
  : result (list pyval) :=
  match css with
  | [] => Ok []
  | c :: rest =>
      match compute_costs c with
      | Some f =>
          v ← f (_get (cs_value c) context) context;
          vs ← costs_comprehension rest context;
          Ok (v :: vs)
      | None => costs_comprehension rest context
      end
  end.

Definition _control_mechanism_costs_getter (owning_component : ControlMechanism)
    (context : Context) : result (option (list pyval)) :=
  except_TypeError
    (Some <$> costs_comprehension (control_signals owning_component) context)
    (Ok None).

(** [owning_component.parameters.variable._get(context)[0]]: subscripting
    [None] is a [TypeError], subscripting an empty sequence an [IndexError]. *)
Definition _outcome_getter (owning_component : ControlMechanism)
    (context : Context) : result pyval :=
  except_TypeError
    (match _get (variable owning_component) context with
     | None => Raise TypeError
     | Some [] => Raise IndexError
     | Some (v :: _) => Ok v
     end)
    (Ok PyNone).

Definition _net_outcome_getter (owning_component : ControlMechanism)
    (context : Context) : result pyval :=
  except_TypeError
    (let c := owning_component in
     outcome ← _outcome_getter c context;
     costs ← _control_mechanism_costs_getter c context;
     cost ← combine_costs c costs;
     compute_net_outcome c outcome cost)
    (Ok (PyArr [0%Q])).

Section sim_id.
(** The keyword [EID_SIMULATION] is imported from [globals.keywords]. *)
Variable EID_SIMULATION : string.

(** The body runs under [self._sim_count_lock]: the read of the counter
    and its increment are one step. *)
Definition get_next_sim_id (self : ControlMechanism) (context : Context)
  : string * ControlMechanism :=
  let eid := execution_id context in
  let '(sim_num, counts) :=
    match _sim_counts self !! eid with
    | Some n => (n, <[eid := S n]> (_sim_counts self))
    | None => (0, <[eid := 1]> (_sim_counts self))
    end in
  (eid +:+ EID_SIMULATION +:+ "-" +:+ pretty sim_num,
   set_sim_counts self counts).

(** The number the next call hands out for an execution id, and the id
    made of an execution id and a number. *)
Definition next_num (self : ControlMechanism) (eid : string) : nat :=
  default 0 (_sim_counts self !! eid).

Definition sim_id (eid : string) (n : nat) : string :=
  eid +:+ EID_SIMULATION +:+ "-" +:+ pretty n.

(** A sequence of calls, each with its own context. *)
Fixpoint sim_ids (self : ControlMechanism) (contexts : list Context)
  : list string :=
  match contexts with
  | [] => []
  | context :: rest =>
      let '(id, self') := get_next_sim_id self context in
      id :: sim_ids self' rest
  end.
End sim_id.

Section objective.
Context {OutputState : Type} `{EqDecision OutputState}.

(** [for item in monitor_for_control: if item in monitored: continue;
     monitored.extend([item])] *)
Definition add_unmonitored (monitored monitor_for_control : list OutputState)
  : list OutputState :=
  foldl (fun acc item => if decide (item ∈ acc) then acc else acc ++ [item])
        monitored monitor_for_control.

(** [ObjectiveMechanism.add_to_monitor] belongs to objectivemechanism.py;
    all that matters here is that it keeps the mechanism's function. *)
Definition add_to_monitor (om : ObjectiveMechanism OutputState)
    (monitor_specs : list OutputState) : ObjectiveMechanism OutputState :=
  {| monitor := monitor om ++ monitor_specs;
     om_function := om_function om;
     om_name := om_name om |}.

(** [from_system] is what [_get_monitored_output_states_for_system] returns
    ([[]] without a system). *)
Definition _instantiate_objective_mechanism (self_name : string)
    (from_system monitor_for_control : list OutputState)
    (objective_mechanism : objective_mechanism_spec OutputState)
  : ObjectiveMechanism OutputState :=
  let monitor_for_control :=
    match objective_mechanism with
    | OM_list states => monitor_for_control ++ states
    | _ => monitor_for_control
    end in
  let monitored_output_states :=
    add_unmonitored from_system monitor_for_control in
  match objective_mechanism with
  | OM_instance om =>
      match monitored_output_states with
      | [] => om
      | _ => add_to_monitor om monitored_output_states
      end
  | _ =>
      {| monitor := monitored_output_states;
         om_function := {| operation := PRODUCT |};
         om_name := self_name +:+ "_ObjectiveMechanism" |}
  end.





End objective.



End ControlMechanism.

(** ** controlmechanism.py: duplicate ControlSignals *)

Module Duplicates.

(** Objects are told apart by identity ([==] and [in] on Components compare
    identities): a Projection is its identity and that of the State that
    receives it. *)
Record Projection := { proj_id : nat; receiver : nat }.

(** [PROJECTION_TYPE] is the entry of [paramClassDefaults], if there is one. *)
Record ControlSignal := {
  cs_id : nat;
  name : string;
  efferents : list Projection;
  PROJECTION_TYPE : option string;
}.

Definition same_signal (a b : ControlSignal) : bool := Nat.eqb (cs_id a) (cs_id b).

(** [proj in signal.efferents] *)
Definition is_efferent_of (proj : Projection) (signal : ControlSignal) : bool :=
  existsb (fun q => Nat.eqb (proj_id q) (proj_id proj)) (efferents signal).

(** [any(any(new_p.receiver == existing_p.receiver
             for existing_p in existing_ctl_sig.efferents)
         for new_p in control_signal.efferents)] *)
Definition share_a_receiver (control_signal existing_ctl_sig : ControlSignal) : bool :=
  existsb (fun new_p =>
             existsb (fun existing_p =>
                        Nat.eqb (receiver new_p) (receiver existing_p))
                     (efferents existing_ctl_sig))
          (efferents control_signal).

Definition redundancy_warning (self_name : string)
    (control_signal existing_ctl_sig : ControlSignal) (projection_type : string)
  : string :=
  "Specification of " +:+ name control_signal +:+ " for " +:+ self_name +:+
  " has one or more " +:+ projection_type +:+
  "s redundant with ones already on an existing ControlSignal (" +:+
  name existing_ctl_sig +:+ ").".

(** The warnings issued, in order, and how the method ends. *)
Fixpoint _check_for_duplicates (self_name : string) (control_signal : ControlSignal)
    (control_signals : list ControlSignal) : list string * result unit :=
  match control_signals with
  | [] => ([], Ok ())
  | existing_ctl_sig :: rest =>
      if same_signal control_signal existing_ctl_sig
      then _check_for_duplicates self_name control_signal rest
      else
        (** [for proj in control_signal.efferents:] the first round either
            breaks or returns *)
        let returns :=
          match efferents control_signal with
          | proj :: _ => is_efferent_of proj existing_ctl_sig
          | [] => false
          end in
        if returns then ([], Ok ())
        else
          match PROJECTION_TYPE existing_ctl_sig with
          | None => ([], Raise KeyError)
          | Some projection_type =>
              let warned :=
                if share_a_receiver control_signal existing_ctl_sig
                then [redundancy_warning self_name control_signal existing_ctl_sig
                        projection_type]
                else [] in
              let '(warnings, r) :=
                _check_for_duplicates self_name control_signal rest in
              (warned ++ warnings, r)
          end
  end.

End Duplicates.

(** ** NumPy n-dimensional arrays, as far as [get_allocation_policies] uses them

    An array is its shape and the map from index tuples to items; items are
    enumerated in C order (last index fastest). *)

Module np.
Section ndarray.
Context {A : Type} `{Inhabited A}.

Record ndarray := { shape : list nat; item : list nat -> A }.

#[global] Instance ndarray_inhabited : Inhabited ndarray :=
  populate {| shape := [0]; item := fun _ => inhabitant |}.

Definition size (s : list nat) : nat := foldr Nat.mul 1 s.

(** The index tuple of the [m]-th item of an array of shape [s]. *)
Fixpoint unravel (s : list nat) (m : nat) : list nat :=
  match s with
  | [] => []
  | _ :: s' => (m / size s') :: unravel s' (m mod size s')
  end.

Definition swap01 {B} (l : list B) : list B :=
  match l with
  | a :: b :: rest => b :: a :: rest
  | _ => l
  end.

(** [np.meshgrid( *xi )], with the defaults [indexing='xy'], [sparse=False]:
    output [j] varies with [xi[j]] along axis [j], except that with more
    than one input the first and second axes are switched. *)
Definition meshgrid (xi : list (list A)) : list ndarray :=
  let s := swap01 (map length xi) in
  imap (fun j x => {| shape := s;
                      item := fun ix => x !!! (swap01 ix !!! j) |}) xi.

(** [np.array(arrays)] for arrays of one shape: a new first axis. *)
Definition array (arrays : list ndarray) : ndarray :=
  match arrays with
  | [] => {| shape := [0]; item := fun _ => inhabitant |}
  | a :: _ =>
      {| shape := length arrays :: shape a;
         item := fun ix =>
           match ix with
           | [] => inhabitant
           | j :: ix' => item (arrays !!! j) ix'
           end |}
  end.

(** [a.T]: all axes reversed. *)
Definition T (a : ndarray) : ndarray :=
  {| shape := reverse (shape a); item := fun ix => item a (reverse ix) |}.

(** [a.reshape(-1, n)], as the list of its rows: the free dimension is
    [size / n], which has to be exact, and cannot be inferred for [n = 0]. *)
Definition reshape_rows (a : ndarray) (n : nat) : result (list (list A)) :=
  let total := size (shape a) in
  if decide (n = 0) then Raise ValueError
  else if decide (total mod n = 0) then
    Ok (map (fun r => map (fun c => item a (unravel (shape a) (r * n + c)))
                          (seq 0 n))
            (seq 0 (total / n)))
  else Raise ValueError.
End ndarray.
Arguments ndarray A : clear implicits.

(** [bool(a)] for [a] a 1-d array, or [None]. *)
Definition truth (a : option (list Q)) : result bool :=
  match a with
  | None => Ok false
  | Some [] => Ok false
  | Some [x] => Ok (negb (Qeq_bool x 0))
  | Some _ => Raise ValueError
  end.
End np.

(** One list from each of several lists, in the textbook order: the
    Cartesian product the documentation of [control_signal_search_space]
    speaks of. *)
Fixpoint cartesian {A} (xss : list (list A)) : list (list A) :=
  match xss with
  | [] => [[]]
  | xs :: rest => x ← xs; r ← cartesian rest; [x :: r]
  end.

(** All index tuples of an array of shape [s], in C order. *)
Fixpoint all_indices (s : list nat) : list (list nat) :=
  match s with
  | [] => [[]]
  | d :: s' => i ← seq 0 d; ix ← all_indices s'; [i :: ix]
  end.

(** The combination that takes item [ix[c]] of the [c]-th list. *)
Definition pick {A} `{Inhabited A} (xss : list (list A)) (ix : list nat) : list A :=
  zip_with (fun xs i => xs !!! i) xss ix.

(** Which item of each sample list row [r] of the reshaped grid holds, for
    lists of lengths [ns]. *)
Definition row_index (ns : list nat) (r : nat) : list nat :=
  np.swap01 (reverse (np.unravel (reverse (np.swap01 ns)) r)).

(** ** controller.py *)

Module Controller.

(** The phases of [ContextFlags] that the controller names, and the idle one. *)
Inductive ContextFlags := IDLE | PROCESSING | SIMULATION | COMPOSITION | COMMAND_LINE.

Record ControlSignal := { allocation_samples : list Q }.

(** [self.value] is [None], or the very object [instance_defaults.value]
    (after [self.value = self.instance_defaults.value]), or an array of its
    own. *)
Inductive value_ref :=
| value_None
| value_is_defaults
| value_own (v : list (list Q)).

(** [other_simulation_data.append(other_simulation_data)] stores the list
    in itself: each item is this reference. *)
Inductive other_item := the_list_itself.

Definition Outputs := list (list Q).
Definition Inputs := list (string * list Q).
(** [predicted_input]: for each node, one input per trial. *)
Definition PredictedInput := list (string * list (list Q)).
Definition Outcome : Type := list Q * list Outputs * list other_item.

Section controller.
(** What the composition keeps and controller.py never names (the state
    of its nodes), and the two values [before_simulations] hands out. *)
Variables Internals ReinitializeValues NodeValues : Type.

Record World := {
  control_signals : list ControlSignal;
  value : value_ref;
  instance_defaults_value : list (list Q);
  control_signal_search_space : option (list (list Q));
  (** [proj.context.execution_phase], for the efferents of the output states *)
  efferent_phases : list ContextFlags;
  (** [composition.context.execution_phase] *)
  execution_phase : ContextFlags;
  simulation_results : list Outputs;
  output_CIM_output_values : Outputs;
  objective_mechanism_output_values : Outputs;
  internals : Internals;
}.

Definition set_value (r : value_ref) (d : list (list Q)) (w : World) : World :=
  {| control_signals := control_signals w; value := r;
     instance_defaults_value := d;
     control_signal_search_space := control_signal_search_space w;
     efferent_phases := efferent_phases w;
     execution_phase := execution_phase w;
     simulation_results := simulation_results w;
     output_CIM_output_values := output_CIM_output_values w;
     objective_mechanism_output_values := objective_mechanism_output_values w;
     internals := internals w |}.

Definition set_search_space (s : list (list Q)) (w : World) : World :=
  {| control_signals := control_signals w; value := value w;
     instance_defaults_value := instance_defaults_value w;
     control_signal_search_space := Some s;
     efferent_phases := efferent_phases w;
     execution_phase := execution_phase w;
     simulation_results := simulation_results w;
     output_CIM_output_values := output_CIM_output_values w;
     objective_mechanism_output_values := objective_mechanism_output_values w;
     internals := internals w |}.

Definition set_phases (p : ContextFlags) (ps : list ContextFlags) (w : World)
  : World :=
  {| control_signals := control_signals w; value := value w;
     instance_defaults_value := instance_defaults_value w;
     control_signal_search_space := control_signal_search_space w;
     efferent_phases := ps;
     execution_phase := p;
     simulation_results := simulation_results w;
     output_CIM_output_values := output_CIM_output_values w;
     objective_mechanism_output_values := objective_mechanism_output_values w;
     internals := internals w |}.

Definition set_simulation_results (rs : list Outputs) (w : World) : World :=
  {| control_signals := control_signals w; value := value w;
     instance_defaults_value := instance_defaults_value w;
     control_signal_search_space := control_signal_search_space w;
     efferent_phases := efferent_phases w;
     execution_phase := execution_phase w;
     simulation_results := rs;
     output_CIM_output_values := output_CIM_output_values w;
     objective_mechanism_output_values := objective_mechanism_output_values w;
     internals := internals w |}.

(** The value [self.value] denotes, if any. *)
Definition current_value (w : World) : option (list (list Q)) :=
  match value w with
  | value_None => None
  | value_is_defaults => Some (instance_defaults_value w)
  | value_own v => Some v
  end.

(** The code of the repository that controller.py calls and that is not
    among the sources: the composition, the base class of the mechanism,
    and the callbacks.  [runtime_params] and [context] only pass through
    the controller; they are part of these functions. *)
Record Collaborators := {
  _update_output_states : option (list (list Q)) -> World -> result World;
  _get_unique_id : World -> string * World;
  composition_run : Inputs -> ReinitializeValues -> string -> World -> result World;
  before_simulations :
    World -> result (option PredictedInput * nat * ReinitializeValues * NodeValues * World);
  after_simulations : ReinitializeValues -> NodeValues -> World -> result World;
  (** [self.function], by default ControlSignalGridSearch2 *)
  function : list Outcome -> World -> result (list Q * World);
}.

Variable C : Collaborators.

(** [self.value[i] = x]: an index past the end is an [IndexError]. *)
Definition setitem {B} (i : nat) (x : B) (l : list B) : result (list B) :=
  if decide (i < length l) then Ok (<[i := x]> l) else Raise IndexError.

(** One round of the loop of [apply_control_signal_values]. *)
Definition assign_value (i : nat) (x : Q) (w : World) : result World :=
  let w := match value w with
           | value_None => set_value value_is_defaults (instance_defaults_value w) w
           | _ => w
           end in
  match value w with
  | value_own v =>
      v' ← setitem i [x] v; Ok (set_value (value_own v') (instance_defaults_value w) w)
  | _ =>
      d' ← setitem i [x] (instance_defaults_value w); Ok (set_value value_is_defaults d' w)
  end.

Fixpoint assign_values (i : nat) (xs : list Q) (w : World) : result World :=
  match xs with
  | [] => Ok w
  | x :: rest => w' ← assign_value i x w; assign_values (S i) rest w'
  end.

Definition apply_control_signal_values (control_signal_values : list Q)
    (w : World) : result World :=
  w' ← assign_values 0 control_signal_values w;
  _update_output_states C (current_value w') w'.

(** [inputs[node] = predicted_input[node][i]] for every node; iterating
    over [None] is a [TypeError]. *)
Definition trial_inputs (predicted_input : option PredictedInput) (i : nat)
  : result Inputs :=
  match predicted_input with
  | None => Raise TypeError
  | Some d =>
      mapM (M := result)
           (fun '(node, per_trial) =>
              match per_trial !! i with
              | Some x => Ok (node, x)
              | None => Raise IndexError
              end) d
  end.

(** The body of [for i in range(num_trials)], with the two result lists. *)
Definition simulate_trial (reinitialize_values : ReinitializeValues)
    (predicted_input : option PredictedInput)
    (call_after_simulation : option (World -> result World))
    (execution_id : string) (i : nat)
    (st : list Outputs * list other_item * World)
  : result (list Outputs * list other_item * World) :=
  let '(allocation_policy_outcomes, other_simulation_data, w) := st in
  inputs ← trial_inputs predicted_input i;
  let w := set_phases SIMULATION (map (fun _ => PROCESSING) (efferent_phases w)) w in
  w ← composition_run C inputs reinitialize_values execution_id w;
  let w := set_simulation_results
             (simulation_results w ++ [output_CIM_output_values w]) w in
  w ← match call_after_simulation with
      | Some f => f w
      | None => Ok w
      end;
  let monitored_states := objective_mechanism_output_values w in
  let w := set_phases PROCESSING (efferent_phases w) w in
  Ok (allocation_policy_outcomes ++ [monitored_states],
      other_simulation_data ++ [the_list_itself], w).

Fixpoint for_trials (body : nat -> list Outputs * list other_item * World ->
                            result (list Outputs * list other_item * World))
    (trials : list nat) (st : list Outputs * list other_item * World)
  : result (list Outputs * list other_item * World) :=
  match trials with
  | [] => Ok st
  | i :: rest => st' ← body i st; for_trials body rest st'
  end.

Definition run_simulation (allocation_policy : option (list Q))
    (num_trials : nat) (reinitialize_values : ReinitializeValues)
    (predicted_input : option PredictedInput)
    (call_after_simulation : option (World -> result World))
    (w : World) : result (list Outputs * list other_item * World) :=
  b ← np.truth allocation_policy;
  w ← (if b : bool then apply_control_signal_values (default [] allocation_policy) w
       else Ok w);
  let '(execution_id, w) := _get_unique_id C w in
  for_trials
    (simulate_trial reinitialize_values predicted_input call_after_simulation
                    execution_id)
    (seq 0 num_trials) ([], [], w).

(** [for allocation_policy in allocation_policies], with [outcome_list]. *)
Fixpoint for_policies (num_trials : nat) (reinitialize_values : ReinitializeValues)
    (predicted_input : option PredictedInput)
    (call_after_simulation : option (World -> result World))
    (allocation_policies : list (list Q)) (st : list Outcome * World)
  : result (list Outcome * World) :=
  match allocation_policies with
  | [] => Ok st
  | allocation_policy :: rest =>
      let '(outcome_list, w) := st in
      '(allocation_policy_outcomes, simulation_data, w) ←
        run_simulation (Some allocation_policy) num_trials reinitialize_values
                       predicted_input call_after_simulation w;
      for_policies num_trials reinitialize_values predicted_input
        call_after_simulation rest
        (outcome_list ++ [(allocation_policy, allocation_policy_outcomes,
                           simulation_data)], w)
  end.

Definition run_simulations (allocation_policies : list (list Q))
    (call_after_simulation : option (World -> result World)) (w : World)
  : result (list Outcome * World) :=
  '(predicted_input, num_trials, reinitialize_values, node_values, w) ←
    before_simulations C w;
  '(outcome_list, w) ←
    for_policies num_trials reinitialize_values predicted_input
                 call_after_simulation allocation_policies ([], w);
  w ← after_simulations C reinitialize_values node_values w;
  Ok (outcome_list, w).

(** [np.array(np.meshgrid( *control_signal_sample_lists )).T.reshape(-1, num_control_signals)] *)
Definition get_allocation_policies (w : World) : result (list (list Q)) :=
  let control_signal_sample_lists := map allocation_samples (control_signals w) in
  let num_control_signals := length (control_signals w) in
  np.reshape_rows (np.T (np.array (np.meshgrid control_signal_sample_lists)))
                  num_control_signals.

Definition _execute (w : World) : result (list Q * World) :=
  space ← get_allocation_policies w;
  let w := set_search_space space w in
  '(simulation_data, w) ← run_simulations space None w;
  function C simulation_data w.

(** The collaborators leave [simulation_results] alone: only
    [run_simulation] itself appends to it. *)
Definition keeps_simulation_results : Prop :=
  (forall v w w', _update_output_states C v w = Ok w' ->
                  simulation_results w' = simulation_results w) /\
  (forall w, simulation_results (_get_unique_id C w).2 = simulation_results w) /\
  (forall inputs rv eid w w', composition_run C inputs rv eid w = Ok w' ->
                  simulation_results w' = simulation_results w) /\
  (forall w r w', before_simulations C w = Ok (r, w') ->
                  simulation_results w' = simulation_results w) /\
  (forall rv nv w w', after_simulations C rv nv w = Ok w' ->
                  simulation_results w' = simulation_results w).

(** [w'] has the simulation results of [w] and [k] more. *)
Definition grows_by (k : nat) (w w' : World) : Prop :=
  exists new, simulation_results w' = simulation_results w ++ new /\ length new = k.

(** The output values of the composition as some call of [composition.run]
    with [reinitialize_values] left them. *)
Definition output_of_a_run (reinitialize_values : ReinitializeValues)
    (x : Outputs) : Prop :=
  exists inputs execution_id w_in w_out,
    composition_run C inputs reinitialize_values execution_id w_in = Ok w_out /\
    x = output_CIM_output_values w_out.

(** [w'] has the simulation results of [w] and [k] more, each of them the
    output values after a run. *)
Definition grows_by_runs (reinitialize_values : ReinitializeValues) (k : nat)
    (w w' : World) : Prop :=
  exists new,
    simulation_results w' = simulation_results w ++ new /\ length new = k /\
    Forall (output_of_a_run reinitialize_values) new.

(** [w'] has the controller's value and instance defaults of [w]. *)
Definition same_value (w w' : World) : Prop :=
  value w' = value w /\ instance_defaults_value w' = instance_defaults_value w.

(** The collaborators leave the controller's value and its instance
    defaults alone: only [apply_control_signal_values] writes them. *)
Definition keeps_value : Prop :=
  (forall v w w', _update_output_states C v w = Ok w' -> same_value w w') /\
  (forall w, same_value w (_get_unique_id C w).2) /\
  (forall inputs rv eid w w', composition_run C inputs rv eid w = Ok w' ->
                  same_value w w') /\
  (forall rv nv w w', after_simulations C rv nv w = Ok w' -> same_value w w').

(** The controller's value begins with the entries of [policy], one item
    for each. *)
Definition value_begins_with (policy : list Q) (w : World) : Prop :=
  exists v, current_value w = Some v /\
            take (length policy) v = map (fun x => [x]) policy.

(** The net values of the candidates, in the order of the search, as one
    execution of the controller in [w] simulates them. *)
Definition net_values (net_value : Outcome -> Q) (w : World) : result (list Q) :=
  space ← get_allocation_policies w;
  '(simulation_data, _) ← run_simulations space None (set_search_space space w);
  Ok (map net_value simulation_data).

End controller.

Arguments set_value {Internals} r d w.
Arguments set_search_space {Internals} s w.
Arguments set_phases {Internals} p ps w.
Arguments set_simulation_results {Internals} rs w.
Arguments current_value {Internals} w.
Arguments apply_control_signal_values {Internals ReinitializeValues NodeValues} C
  control_signal_values w.
Arguments simulate_trial {Internals ReinitializeValues NodeValues} C
  reinitialize_values predicted_input call_after_simulation execution_id i st.
Arguments for_trials {Internals} body trials st.
Arguments run_simulation {Internals ReinitializeValues NodeValues} C
  allocation_policy num_trials reinitialize_values predicted_input
  call_after_simulation w.
Arguments for_policies {Internals ReinitializeValues NodeValues} C
  num_trials reinitialize_values predicted_input call_after_simulation
  allocation_policies st.
Arguments run_simulations {Internals ReinitializeValues NodeValues} C
  allocation_policies call_after_simulation w.
Arguments get_allocation_policies {Internals} w.
Arguments _execute {Internals ReinitializeValues NodeValues} C w.
Arguments keeps_simulation_results {Internals ReinitializeValues NodeValues} C.
Arguments net_values {Internals ReinitializeValues NodeValues} C net_value w.
Arguments grows_by {Internals} k w w'.
Arguments output_of_a_run {Internals ReinitializeValues NodeValues} C
  reinitialize_values x.
Arguments grows_by_runs {Internals ReinitializeValues NodeValues} C
  reinitialize_values k w w'.
Arguments same_value {Internals} w w'.
Arguments keeps_value {Internals ReinitializeValues NodeValues} C.
Arguments value_begins_with {Internals} policy w.
Arguments _update_output_states {Internals ReinitializeValues NodeValues} c.
Arguments _get_unique_id {Internals ReinitializeValues NodeValues} c.
Arguments composition_run {Internals ReinitializeValues NodeValues} c.
Arguments before_simulations {Internals ReinitializeValues NodeValues} c.
Arguments after_simulations {Internals ReinitializeValues NodeValues} c.
Arguments function {Internals ReinitializeValues NodeValues} c.

Arguments control_signals {Internals} w.
Arguments value {Internals} w.
Arguments instance_defaults_value {Internals} w.
Arguments control_signal_search_space {Internals} w.
Arguments efferent_phases {Internals} w.
Arguments execution_phase {Internals} w.
Arguments simulation_results {Internals} w.
Arguments output_CIM_output_values {Internals} w.
Arguments objective_mechanism_output_values {Internals} w.
Arguments internals {Internals} w.

(** Modelled from the spec: one step of the running maximum of 4.6, "ties
    are broken by first-seen candidate": a later candidate replaces the best
    one only when its net value is strictly larger. *)
Definition running_maximum (net_value : Outcome -> Q) (best c : Outcome) : Outcome :=
  if Qlt_le_dec (net_value best) (net_value c) then c else best.

(** Modelled from the spec: ControlSignalGridSearch2 is imported from
    psyneulink.components.functions.function, which is not among the sources.
    The spec (4.6, GridSearch): for every candidate compute the net value;
    "track running maximum: ties are broken by first-seen candidate"; an
    empty space "is an error (EmptySearchSpace), not a silent default".
    [net_value] stands for the scoring of one candidate's simulated outcomes
    (4.2 and 4.3). *)
Definition ControlSignalGridSearch2 (net_value : Outcome -> Q)
    (simulation_data : list Outcome) : result (list Q) :=
  match simulation_data with
  | [] => Raise (Raised "EmptySearchSpace")
  | c :: rest => Ok (foldl (running_maximum net_value) c rest).1.1
  end.

End Controller.

(** ** lvoccontrolmechanism.py *)

Module LVOC.

(** *** Floating point, where it decides a test

    The numbers of the model are rationals and the arithmetic on them is
    exact.  The loop test of [gradient_ascent] reads two results of
    floating-point arithmetic; these are a [float]: finite, an infinity or
    nan. *)
Inductive float :=
| Finite (q : Q)
| PosInf
| NegInf
| NaN.

(** [x > y] for a float [x] and a finite [y]; it is [False] for nan. *)
Definition float_gt (x : float) (y : Q) : bool :=
  match x with
  | Finite q => if Qlt_le_dec y q then true else false
  | PosInf => true
  | NegInf | NaN => false
  end.

(** The two operations whose results the loop test reads: [x + y], and
    [np.abs(x - y)].  What follows holds for every such pair, that is,
    whatever rounding, overflow or nan the floats of the source produce. *)
Record FloatingPoint := {
  float_add : Q -> Q -> float;
  float_abs_sub : Q -> Q -> float;
}.

(** IEEE 754 binary64, the [float] of Python and NumPy's [float64]: a
    rational is rounded to the nearest number with a significand of 53 bits
    (of two nearest ones to the even one), the exponent being at least
    -1022; a result of [2 ^ 1024] or more is an infinity. *)
Definition floor_log2 (q : Q) : Z :=
  let e := (Z.log2 (Qnum q) - Z.log2 (Zpos (Qden q)))%Z in
  if Qle_bool (2 ^ e) q then e else (e - 1)%Z.

Definition round_half_even (q : Q) : Z :=
  let f := Qfloor q in
  match (q - inject_Z f ?= 1 # 2)%Q with
  | Lt => f
  | Gt => (f + 1)%Z
  | Eq => if Z.even f then f else (f + 1)%Z
  end.

Definition binary64 (q : Q) : float :=
  if Qeq_bool q 0 then Finite 0 else
  let m := Qabs q in
  let e := Z.max (floor_log2 m) (-1022) in
  let ulp := (2 ^ (e - 52))%Q in
  let r := (inject_Z (round_half_even (m / ulp)) * ulp)%Q in
  if Qle_bool (2 ^ 1024) r
  then (if Qle_bool 0 q then PosInf else NegInf)
  else Finite (Qred (if Qle_bool 0 q then r else - r)).

(** The operations on binary64 numbers: IEEE 754 rounds the exact result. *)
Definition binary64_arithmetic : FloatingPoint :=
  {| float_add := fun x y => binary64 (x + y);
     float_abs_sub := fun x y => binary64 (Qabs (x - y)) |}.

(** [slice(start, stop)] *)
Record slice := { start : nat; stop : nat }.

(** [v[s]]: reading a slice clips it to the array.  The result of a read is
    a view: item [i] of it is item [start + i] of [v], also for writing. *)
Definition get_slice (s : slice) (v : list Q) : list Q :=
  take (stop s - start s) (drop (start s) v).

(** [v[s] = xs]: the lengths agree, or [xs] has one item, which is repeated. *)
Definition set_slice (s : slice) (xs : list Q) (v : list Q) : result (list Q) :=
  let n := length (get_slice s v) in
  if decide (length xs = n)
  then Ok (take (start s) v ++ xs ++ drop (start s + n) v)
  else if decide (length xs = 1)
  then Ok (take (start s) v ++ replicate n (xs !!! 0) ++ drop (start s + n) v)
  else Raise ValueError.

(** [view[i] = x] for the view [v[s]] *)
Definition set_view_item (s : slice) (i : nat) (x : Q) (v : list Q)
  : result (list Q) :=
  if decide (i < length (get_slice s v)) then Ok (<[start s + i := x]> v)
  else Raise IndexError.

Definition getitem {B} (l : list B) (i : nat) : result B :=
  match l !! i with
  | Some x => Ok x
  | None => Raise IndexError
  end.

(** [xs.reshape(rows, cols)] *)
Definition reshape (xs : list Q) (rows cols : nat) : result (list (list Q)) :=
  if decide (length xs = rows * cols)
  then Ok (map (fun r => take cols (drop (r * cols) xs)) (seq 0 rows))
  else Raise ValueError.

(** [m * ys] for [m] of shape [(rows, cols)] and [ys] 1-d *)
Definition mul_rows (m : list (list Q)) (cols : nat) (ys : list Q)
  : result (list (list Q)) :=
  if decide (cols = length ys \/ cols = 1 \/ length ys = 1)
  then mapM (fun row => broadcast1 Qmult row ys) m
  else Raise ValueError.

(** The intensity cost function of a ControlSignal and the [derivative]
    method of the Function object it belongs to; both may raise. *)
Record ControlSignal := {
  intensity_cost_function : Q -> result Q;
  derivative : Q -> result Q;
}.

Record LVOCControlMechanism := {
  name : string;
  convergence_criterion : Q;
  max_iterations : Z;
  udpate_rate : Q;
  num_predictors : nat;
  num_control_signals : nat;
  num_costs : nat;
  pred : slice;
  intrxn : slice;
  ctl : slice;
  cst : slice;
}.

(** The branch [context is ContextFlags.INSTANTIATE] of
    [_parse_function_variable]: the sizes, the four slices and the zero
    [prediction_vector]. *)
Definition instantiate (name : string) (convergence_criterion : Q)
    (max_iterations : Z) (udpate_rate : Q)
    (predictor_values : list Q) (control_signals : list ControlSignal)
  : LVOCControlMechanism * list Q :=
  let num_predictors := length predictor_values in
  let num_control_signals := length control_signals in
  let num_costs := num_control_signals in
  let num_interactions := num_predictors * num_control_signals in
  let len_prediction_vector :=
    num_predictors + num_interactions + num_control_signals + num_costs in
  let pred := {| start := 0; stop := num_predictors |} in
  let intrxn := {| start := num_predictors;
                   stop := num_predictors + num_interactions |} in
  let ctl := {| start := stop intrxn; stop := stop intrxn + num_control_signals |} in
  let cst := {| start := stop ctl; stop := len_prediction_vector |} in
  ({| name := name; convergence_criterion := convergence_criterion;
      max_iterations := max_iterations; udpate_rate := udpate_rate;
      num_predictors := num_predictors;
      num_control_signals := num_control_signals;
      num_costs := num_costs;
      pred := pred; intrxn := intrxn; ctl := ctl; cst := cst |},
   replicate len_prediction_vector 0%Q).

(** [np.sum(v * w)] *)
Definition compute_lvoc (v w : list Q) : result Q :=
  Qsum <$> broadcast1 Qmult v w.


(** The intensity cost function of the ControlSignal and its derivative
    return, whatever the value. *)
Definition total (control_signal : ControlSignal) : Prop :=
  forall x, is_Ok (intensity_cost_function control_signal x) /\
            is_Ok (derivative control_signal x).

Record loop_state := {
  prediction_vector : list Q;
  previous_lvoc : Q;
  convergence_metric : float;
  j : nat;
}.

Section gradient_ascent.
Variable fp : FloatingPoint.
(** [EPSILON] is imported from the functions module and
    [np.finfo(np.float128).max] is NumPy's. *)
Variables EPSILON float128_max : Q.
Variable self : LVOCControlMechanism.
Variable control_signals : list ControlSignal.
Variable prediction_weights : list Q.

(** [gradient_constants[i] = control_signal_weights[i]] and then
    [gradient_constants[i] += np.sum(interaction_weights_x_predictors[i])],
    for [i in range(self.num_control_signals)] *)
Definition gradient_constants_of (control_signal_weights : list Q)
    (interaction_weights_x_predictors : list (list Q)) : result (list Q) :=
  mapM (fun i =>
          w ← getitem control_signal_weights i;
          row ← getitem interaction_weights_x_predictors i;
          Ok (w + Qsum row)%Q)
       (seq 0 (num_control_signals self)).

(** One round of [for i, control_signal_value in enumerate(control_signal_values)];
    [control_signal_values] and [costs] are views of [prediction_vector]. *)
Definition update_control_signal (cost_weights : list Q) (i : nat)
    (st : list Q * list Q * list Q) : result (list Q * list Q * list Q) :=
  let '(gradient, cost_gradient, pv) := st in
  control_signal_value ← getitem (get_slice (ctl self) pv) i;
  control_signal ← getitem control_signals i;
  d ← derivative control_signal control_signal_value;
  cost_weight ← getitem cost_weights i;
  cost_gradient ← Controller.setitem i (- (d * cost_weight))%Q cost_gradient;
  g ← getitem gradient i;
  let g := (g + - (d * cost_weight))%Q in
  let gradient := <[i := g]> gradient in
  pv ← set_view_item (ctl self) i (control_signal_value + udpate_rate self * g)%Q pv;
  cost ← intensity_cost_function control_signal control_signal_value;
  pv ← set_view_item (cst self) i (- cost)%Q pv;
  Ok (gradient, cost_gradient, pv).

Fixpoint for_control_signals (cost_weights : list Q) (indices : list nat)
    (st : list Q * list Q * list Q) : result (list Q * list Q * list Q) :=
  match indices with
  | [] => Ok st
  | i :: rest =>
      st' ← update_control_signal cost_weights i st;
      for_control_signals cost_weights rest st'
  end.

(** The body of the [while] loop up to [j += 1]; the second component is
    [current_lvoc]. *)
Definition round (gradient_constants cost_weights : list Q) (st : loop_state)
  : result (loop_state * Q) :=
  let pv := prediction_vector st in
  let gradient := gradient_constants in
  let cost_gradient := replicate (num_costs self) 0%Q in
  '(gradient, cost_gradient, pv) ←
    for_control_signals cost_weights
      (seq 0 (length (get_slice (ctl self) pv))) (gradient, cost_gradient, pv);
  column ← reshape (get_slice (ctl self) pv) (num_control_signals self) 1;
  let interactions :=
    concat (map (fun c => map (fun p => p * default 0 (head c))%Q
                              (get_slice (pred self) pv)) column) in
  pv ← set_slice (intrxn self) interactions pv;
  pv ← set_slice (ctl self) (get_slice (ctl self) pv) pv;
  pv ← set_slice (cst self) (get_slice (cst self) pv) pv;
  current_lvoc ← compute_lvoc pv prediction_weights;
  Ok ({| prediction_vector := pv;
         previous_lvoc := previous_lvoc st;
         convergence_metric := float_abs_sub fp current_lvoc (previous_lvoc st);
         j := S (j st) |}, current_lvoc).

(** [previous_lvoc = current_lvoc] *)
Definition carry (current_lvoc : Q) (st : loop_state) : loop_state :=
  {| prediction_vector := prediction_vector st;
     previous_lvoc := current_lvoc;
     convergence_metric := convergence_metric st;
     j := j st |}.

Definition warning : string :=
  name self +:+ " failed to converge after " +:+
  pretty (max_iterations self) +:+ " iterations".

(** [while convergence_metric > self.convergence_criterion], with the
    [break] after the warning.  [None]: the fuel ran out. *)
Fixpoint while_loop (gradient_constants cost_weights : list Q) (fuel : nat)
    (st : loop_state) : option (result (loop_state * list string)) :=
  if float_gt (convergence_metric st) (convergence_criterion self) then
    match fuel with
    | O => None
    | S fuel' =>
        match round gradient_constants cost_weights st with
        | Raise e => Some (Raise e)
        | Ok (st', current_lvoc) =>
            if decide (Z.of_nat (j st') > max_iterations self)%Z
            then Some (Ok (st', [warning]))
            else while_loop gradient_constants cost_weights fuel'
                            (carry current_lvoc st')
        end
    end
  else Some (Ok (st, [])).

(** What is computed before the loop. *)
Definition setup (prediction_vector : list Q) : result (list Q * list Q) :=
  let predictors := get_slice {| start := 0; stop := num_predictors self |}
                              prediction_vector in
  interaction_weights ←
    reshape (get_slice (intrxn self) prediction_weights)
            (num_control_signals self) (num_predictors self);
  interaction_weights_x_predictors ←
    mul_rows interaction_weights (num_predictors self) predictors;
  let control_signal_weights := get_slice (ctl self) prediction_weights in
  gradient_constants ←
    gradient_constants_of control_signal_weights interaction_weights_x_predictors;
  let cost_weights := get_slice (cst self) prediction_weights in
  Ok (gradient_constants, cost_weights).

Definition initial_state (prediction_vector : list Q) : loop_state :=
  {| prediction_vector := prediction_vector;
     previous_lvoc := float128_max;
     convergence_metric := float_add fp (convergence_criterion self) EPSILON;
     j := 0 |}.

(** Returns [control_signal_values] (the view of the final
    [prediction_vector]), the [prediction_vector] itself, which the caller
    shares, and the warnings issued. *)
Definition gradient_ascent (fuel : nat) (prediction_vector : list Q)
  : option (result (list Q * list Q * list string)) :=
  match setup prediction_vector with
  | Raise e => Some (Raise e)
  | Ok (gradient_constants, cost_weights) =>
      r ← while_loop gradient_constants cost_weights fuel
                     (initial_state prediction_vector);
      Some ('(st, warnings) ← r;
            Ok (get_slice (ctl self) (LVOC.prediction_vector st),
                LVOC.prediction_vector st, warnings))
  end.

(** The state at the head of the loop after [n] rounds that did not
    break, whatever the loop test says. *)
Fixpoint rounds (gradient_constants cost_weights : list Q) (n : nat)
    (st : loop_state) : result loop_state :=
  match n with
  | O => Ok st
  | S n' =>
      '(st', current_lvoc) ← round gradient_constants cost_weights st;
      rounds gradient_constants cost_weights n' (carry current_lvoc st')
  end.
End gradient_ascent.

End LVOC.

(** ** lvoccontrolmechanism.py: the prediction vector and the predictors *)

Module LVOCInputs.
Import LVOC.

(** The context flags the file names. *)
Inductive ContextFlags := INSTANTIATE | INITIALIZING | EXECUTING | COMMAND_LINE.

(** A ControlSignal as [_parse_function_variable] reads it: [c.value], a 1-d
    array, and [c.cost], [None] or a number. *)
Record Signal := {
  functions : ControlSignal;
  value : list Q;
  cost : option Q;
}.

(** [np.array(rows).reshape(-1)]: rows of unequal length make no array. *)
Definition flatten (rows : list (list Q)) : result (list Q) :=
  if same_lengths rows then Ok (concat rows) else Raise ValueError.

(** [np.array(prediction_vector[self.pred] *
              prediction_vector[self.ctl].reshape(self.num_control_signals,1)).reshape(-1)] *)
Definition interaction_terms (self : LVOCControlMechanism) (pv : list Q)
  : result (list Q) :=
  column ← reshape (get_slice (ctl self) pv) (num_control_signals self) 1;
  Ok (concat (map (fun c => map (fun q => q * default 0 (head c))%Q
                                (get_slice (pred self) pv)) column)).

(** Returns the mechanism, [self.predictor_values], [self.prediction_vector]
    and the outcome. *)
Definition _parse_function_variable (self : LVOCControlMechanism)
    (prediction_vector : list Q) (control_signals : list Signal)
    (variable : list (list Q)) (context : ContextFlags)
  : result (LVOCControlMechanism * list Q * list Q * list (list Q)) :=
  v0 ← getitem variable 0;
  let outcome := [v0] in
  predictor_values ← flatten (drop 1 variable);
  match context with
  | INSTANTIATE =>
      let '(self, prediction_vector) :=
        instantiate (name self) (convergence_criterion self) (max_iterations self)
                    (udpate_rate self) predictor_values
                    (map functions control_signals) in
      Ok (self, predictor_values, prediction_vector, outcome)
  | _ =>
      pv ← set_slice (pred self) predictor_values prediction_vector;
      values ← flatten (map value control_signals);
      pv ← set_slice (ctl self) values pv;
      terms ← interaction_terms self pv;
      pv ← set_slice (intrxn self) terms pv;
      pv ← set_slice (cst self)
             (map (fun c => default 0 (cost c) * -1)%Q control_signals) pv;
      Ok (self, predictor_values, pv, outcome)
  end.

(** *** Predictor specifications *)

(** [SHADOW_INPUTS = 'SHADOW_INPUTS'] is defined in the file; [ALL],
    [NAME], ... are keywords of [globals.keywords] and only serve as keys. *)
Definition SHADOW_INPUTS : string := "SHADOW_INPUTS".

(** [needle in hay] for two strings. *)
Fixpoint is_substring (needle hay : string) : bool :=
  String.prefix needle hay ||
  match hay with
  | EmptyString => false
  | String _ hay' => is_substring needle hay'
  end.

(** Iterating over a string yields its characters as strings. *)
Fixpoint characters (s : string) : list string :=
  match s with
  | EmptyString => []
  | String c s' => String c EmptyString :: characters s'
  end.

Section specs.
(** The values the parser only passes on: the variable of an InputState,
    a Projection, a Function. *)
Variables Variable_ Projection Function_ : Type.

Record InputState := {
  is_name : string;
  owner_name : string;
  is_variable : Variable_;
  path_afferents : list Projection;
}.

(** An OutputState of the Composition's input CIM: for each of its
    efferents, the names of the receiver and of the receiver's owner. *)
Record CIMOutputState := {
  cim_name : string;
  efferents : list (string * string);
}.

(** Identity ([is]) of Compositions is identity of [comp_id]. *)
Record Composition := {
  comp_id : nat;
  comp_name : string;
  input_CIM_output_states : list CIMOutputState;
}.

Inductive shadow_item :=
| Item_Mechanism (input_states : list InputState)
| Item_InputState (i : InputState)
| Item_other.

Inductive shadow_spec :=
| ALL
| Shadow_list (items : list shadow_item)
| Shadow_other.

(** A specification dictionary: its [SHADOW_INPUTS] and [FUNCTION] entries. *)
Record spec_dict := {
  shadow_inputs : option shadow_spec;
  function : option Function_;
}.

Inductive projections :=
| of_CIM (c : CIMOutputState)
| afferents (ps : list Projection).

(** The InputState specification dictionaries the parser builds. *)
Record input_state_spec := {
  NAME : string;
  VARIABLE : option Variable_;
  PROJECTIONS : projections;
  FUNCTION : option Function_;
}.

(** One entry of [predictors]: a string, a dict, or another object, for
    which [SHADOW_INPUTS in spec] is whatever its class makes of it. *)
Inductive predictor :=
| Pred_str (s : string)
| Pred_dict (d : spec_dict)
| Pred_other (contains_shadow_inputs : result bool).

(** [predictors] is a string or a list (the decorator takes both). *)
Inductive predictors :=
| Predictors_str (s : string)
| Predictors_list (l : list predictor).

(** What [_parse_predictor_specs] returns: specifications passed on as
    they are, and the dictionaries made for shadowed inputs. *)
Inductive parsed :=
| as_is (spec : predictor)
| shadow (spec : input_state_spec).

Definition AttributeError : exn := Raised "AttributeError".
Definition UnboundLocalError : exn := Raised "UnboundLocalError".
Definition LVOCError : exn := Raised "LVOCError".
(** raised by the [tc.typecheck] decorator *)
Definition InputParameterError : exn := Raised "InputParameterError".

(** [{NAME:'INPUT OF ' + c.efferents[0].receiver.name + ' of ' +
      c.efferents[0].receiver.owner.name, PROJECTIONS:c}] *)
Definition shadow_of_CIM (c : CIMOutputState) : result input_state_spec :=
  match efferents c with
  | [] => Raise IndexError
  | (receiver_name, receiver_owner_name) :: _ =>
      Ok {| NAME := "INPUT OF " +:+ receiver_name +:+ " of " +:+ receiver_owner_name;
            VARIABLE := None; PROJECTIONS := of_CIM c; FUNCTION := None |}
  end.

(** [{NAME:i.name + 'of' + i.owner.name, VARIABLE: i.variable,
      PROJECTIONS: i.path_afferents}] *)
Definition shadow_of_input_state (i : InputState) : input_state_spec :=
  {| NAME := is_name i +:+ "of" +:+ owner_name i;
     VARIABLE := Some (is_variable i);
     PROJECTIONS := afferents (path_afferents i); FUNCTION := None |}.

(** [for item in shadow_spec], with the local variable [input_states]
    ([None] while it is unbound) and [input_state_specs]. *)
Fixpoint shadow_items (items : list shadow_item)
    (input_states : option (list InputState)) (input_state_specs : list input_state_spec)
  : result (list input_state_spec) :=
  match items with
  | [] => Ok input_state_specs
  | item :: rest =>
      let input_states :=
        match item with
        | Item_Mechanism iss => Some iss
        | Item_InputState i => Some [i]
        | Item_other => input_states
        end in
      match input_states with
      | None => Raise UnboundLocalError
      | Some iss =>
          shadow_items rest input_states
            (input_state_specs ++ map shadow_of_input_state iss)
      end
  end.

(** [i.update({FUNCTION:spec[FUNCTION]})] *)
Definition update_function (f : Function_) (i : input_state_spec) : input_state_spec :=
  {| NAME := NAME i; VARIABLE := VARIABLE i; PROJECTIONS := PROJECTIONS i;
     FUNCTION := Some f |}.

Definition _parse_shadow_input_spec (self_composition : option Composition)
    (spec : spec_dict) : result (list input_state_spec) :=
  shadow_spec ← match shadow_inputs spec with
                | Some s => Ok s
                | None => Raise KeyError
                end;
  input_state_specs ←
    match shadow_spec with
    | ALL =>
        match self_composition with
        | None => Raise AttributeError
        | Some composition => mapM shadow_of_CIM (input_CIM_output_states composition)
        end
    | Shadow_list items => shadow_items items None []
    | Shadow_other => Ok []
    end;
  match function spec with
  | Some f => Ok (map (update_function f) input_state_specs)
  | None => Ok input_state_specs
  end.

(** [SHADOW_INPUTS in spec] *)
Definition contains_SHADOW_INPUTS (spec : predictor) : result bool :=
  match spec with
  | Pred_str s => Ok (is_substring SHADOW_INPUTS s)
  | Pred_dict d => Ok (bool_decide (is_Some (shadow_inputs d)))
  | Pred_other r => r
  end.

(** The body of [for spec in predictors]. *)
Definition parse_predictor (self_composition : option Composition)
    (spec : predictor) : result (list parsed) :=
  b ← contains_SHADOW_INPUTS spec;
  if b : bool then
    match spec with
    | Pred_str _ =>
        map shadow <$>
          _parse_shadow_input_spec self_composition
            {| shadow_inputs := Some ALL; function := None |}
    | Pred_dict d => map shadow <$> _parse_shadow_input_spec self_composition d
    | Pred_other _ => Raise InputParameterError
    end
  else Ok [as_is spec].

Fixpoint parse_predictors (self_composition : option Composition)
    (specs : list predictor) (parsed_predictors : list parsed)
  : result (list parsed) :=
  match specs with
  | [] => Ok parsed_predictors
  | spec :: rest =>
      new ← parse_predictor self_composition spec;
      parse_predictors self_composition rest (parsed_predictors ++ new)
  end.

(** The decorator takes a Composition for [composition] ([None] is
    none), and a string or a list for [predictors]. *)
Definition _parse_predictor_specs (self_composition composition : option Composition)
    (predictors_ : predictors) : result (list parsed) :=
  match composition with
  | None => Raise InputParameterError
  | Some c =>
      (** [composition = composition or self.composition]: a Composition is true *)
      parse_predictors self_composition
        match predictors_ with
        | Predictors_str s => map Pred_str (characters s)
        | Predictors_list l => l
        end []
  end.

(** [add_predictors]: the new [self.composition], and the specifications
    handed to [add_states]. *)
Definition add_predictors (self_composition : option Composition)
    (predictors_ : predictors) (composition : option Composition)
  : result (option Composition * list parsed) :=
  self_composition ←
    match self_composition with
    | None => Ok composition
    | Some mine =>
        match composition with
        | Some c =>
            if decide (comp_id c = comp_id mine) then Ok self_composition
            else Raise LVOCError
        (** [composition.name], for the message, of [None] *)
        | None => Raise AttributeError
        end
    end;
  specs ← _parse_predictor_specs self_composition composition predictors_;
  Ok (self_composition, specs).

End specs.

Arguments Item_Mechanism {Variable_ Projection} input_states.
Arguments Item_InputState {Variable_ Projection} i.
Arguments Item_other {Variable_ Projection}.
Arguments ALL {Variable_ Projection}.
Arguments Shadow_list {Variable_ Projection} items.
Arguments Shadow_other {Variable_ Projection}.
Arguments Pred_str {Variable_ Projection Function_} s.
Arguments Pred_dict {Variable_ Projection Function_} d.
Arguments Pred_other {Variable_ Projection Function_} contains_shadow_inputs.
Arguments Predictors_str {Variable_ Projection Function_} s.
Arguments Predictors_list {Variable_ Projection Function_} l.
Arguments as_is {Variable_ Projection Function_} spec.
Arguments shadow {Variable_ Projection Function_} spec.
Arguments of_CIM {Projection} c.
Arguments afferents {Projection} ps.
Arguments shadow_inputs {Variable_ Projection Function_} s.
Arguments function {Variable_ Projection Function_} s.
Arguments shadow_of_CIM {Variable_ Projection Function_} c.
Arguments shadow_of_input_state {Variable_ Projection Function_} i.
Arguments shadow_items {Variable_ Projection Function_} items input_states
  input_state_specs.
Arguments update_function {Variable_ Projection Function_} f i.
Arguments _parse_shadow_input_spec {Variable_ Projection Function_}
  self_composition spec.
Arguments contains_SHADOW_INPUTS {Variable_ Projection Function_} spec.
Arguments parse_predictor {Variable_ Projection Function_} self_composition spec.
Arguments parse_predictors {Variable_ Projection Function_} self_composition
  specs parsed_predictors.
Arguments _parse_predictor_specs {Variable_ Projection Function_}
  self_composition composition predictors_.
Arguments add_predictors {Variable_ Projection Function_} self_composition
  predictors_ composition.
End LVOCInputs.

(** ** selectionfunctions.py *)

Module Selection.

#[global] Instance Qle_dec (x y : Q) : Decision (x <= y)%Q :=
  match Qlt_le_dec y x with
  | left H => right (Qlt_not_le _ _ H)
  | right H => left H
  end.

(** [np.partition(x, kth)]: [kth] has to index [x], unless [x] is empty:
    NumPy checks the bounds of [kth] only for an array that has items, and
    of an empty one it returns an empty copy.  The result is some
    rearrangement of [x] with the item of rank [kth] in its sorted place,
    no larger item before it and no smaller one after it.  The callers take
    [kth = -2] and read the last item, the last but one and the items
    before the last as a collection, which every such rearrangement agrees
    on: the sorted list stands for them all. *)
Definition partition (x : list Q) (kth : Z) : result (list Q) :=
  match x with
  | [] => Ok []
  | _ =>
      if decide (- Z.of_nat (length x) <= kth < Z.of_nat (length x))%Z
      then Ok (merge_sort Qle x)
      else Raise ValueError
  end.

(** [l[-k]] for [k >= 1] *)
Definition getitem_from_end (l : list Q) (k : nat) : result Q :=
  match reverse l !! (k - 1) with
  | Some x => Ok x
  | None => Raise IndexError
  end.

(** [l[:-1]] *)
Definition but_last (l : list Q) : list Q := take (length l - 1) l.

(** [np.mean] of a 1-d array that is not empty (of an empty one NumPy
    makes nan, which [Q] has not; [max_vs_avg] takes no such mean). *)
Definition mean (l : list Q) : Q := Qsum l / inject_Z (Z.of_nat (length l)).

Definition max_vs_next (x : list Q) : result Q :=
  x_part ← partition x (-2);
  max_val ← getitem_from_end x_part 1;
  next ← getitem_from_end x_part 2;
  Ok (max_val - next)%Q.

Definition max_vs_avg (x : list Q) : result Q :=
  x_part ← partition x (-2);
  max_val ← getitem_from_end x_part 1;
  let others := but_last x_part in
  Ok (max_val - mean others)%Q.

(** *** OneHot *)

Inductive Mode :=
| MAX_VAL | MAX_ABS_VAL | MAX_INDICATOR | MAX_ABS_INDICATOR
| MIN_VAL | MIN_ABS_VAL | MIN_INDICATOR | MIN_ABS_INDICATOR
| PROB | PROB_INDICATOR.

(** A NumPy array of at most two dimensions. *)
Inductive array :=
| Scalar (x : Q)
| Arr1 (xs : list Q)
| Arr2 (rows : list (list Q)).

Definition StopIteration : exn := Raised "StopIteration".

Definition items (a : array) : list Q :=
  match a with
  | Scalar x => [x]
  | Arr1 xs => xs
  | Arr2 rows => concat rows
  end.

Definition map_array (f : Q -> Q) (a : array) : array :=
  match a with
  | Scalar x => Scalar (f x)
  | Arr1 xs => Arr1 (map f xs)
  | Arr2 rows => Arr2 (map (map f) rows)
  end.

Definition Qmax (x y : Q) : Q := if Qlt_le_dec x y then y else x.
Definition Qmin (x y : Q) : Q := if Qlt_le_dec y x then y else x.

(** [np.max(a)] and [np.min(a)]: of an empty array a [ValueError]. *)
Definition np_max (a : array) : result Q :=
  match items a with
  | [] => Raise ValueError
  | x :: xs => Ok (foldl Qmax x xs)
  end.

Definition np_min (a : array) : result Q :=
  match items a with
  | [] => Raise ValueError
  | x :: xs => Ok (foldl Qmin x xs)
  end.

(** [np.where(a == value, chosen, 0)] *)
Definition where_equal (a : array) (value chosen : Q) : array :=
  map_array (fun x => if Qeq_bool x value then chosen else 0%Q) a.

(** [a[i]] for [i = 0, 1] *)
Definition row (a : array) (i : nat) : result array :=
  match a with
  | Scalar _ => Raise IndexError
  | Arr1 xs => match xs !! i with Some x => Ok (Scalar x) | None => Raise IndexError end
  | Arr2 rows => match rows !! i with Some r => Ok (Arr1 r) | None => Raise IndexError end
  end.

(** [np.cumsum] of what [row] gives: always 1-d. *)
Fixpoint running_sum (acc : Q) (l : list Q) : list Q :=
  match l with
  | [] => []
  | x :: l' => (acc + x)%Q :: running_sum (acc + x)%Q l'
  end.

Definition cumsum (a : array) : list Q := running_sum 0 (items a).

(** [a * b] for [b] 1-d and [a] a scalar or 1-d *)
Definition times (a : array) (b : list Q) : result array :=
  match a with
  | Scalar x => Ok (Arr1 (map (Qmult x) b))
  | Arr1 xs => Arr1 <$> broadcast1 Qmult xs b
  | Arr2 _ => Raise ValueError
  end.

(** [function], from the value [_check_args] returns to the value handed
    to [convert_output_type]; [random_value] is what [np.random.uniform()]
    draws. *)
Definition function (mode : Mode) (random_value : Q) (variable : array)
  : result array :=
  match mode with
  | MAX_VAL =>
      max_value ← np_max variable; Ok (where_equal variable max_value max_value)
  | MAX_ABS_VAL =>
      max_value ← np_max (map_array Qabs variable);
      Ok (where_equal variable max_value max_value)
  | MAX_INDICATOR =>
      max_value ← np_max variable; Ok (where_equal variable max_value 1)
  | MAX_ABS_INDICATOR =>
      max_value ← np_max (map_array Qabs variable);
      Ok (where_equal variable max_value 1)
  | MIN_VAL =>
      min_value ← np_min variable; Ok (where_equal variable min_value min_value)
  | MIN_ABS_VAL =>
      min_value ← np_min (map_array Qabs variable);
      Ok (where_equal variable min_value min_value)
  | MIN_INDICATOR =>
      min_value ← np_min variable; Ok (where_equal variable min_value 1)
  | MIN_ABS_INDICATOR =>
      min_value ← np_min (map_array Qabs variable);
      Ok (where_equal variable min_value 1)
  | PROB | PROB_INDICATOR =>
      v ← row variable 0;
      prob_dist ← row variable 1;
      if forallb (fun p => Qeq_bool p 0) (items prob_dist) then Ok v
      else
        let cum_sum := cumsum prob_dist in
        (** [next(element for element in cum_sum if element > random_value)] *)
        match List.find (fun element => negb (Qle_bool element random_value))
                        cum_sum with
        | None => Raise StopIteration
        | Some chosen_item =>
            let chosen_in_cum_sum :=
              map (fun c => if Qeq_bool c chosen_item then 1 else 0)%Q cum_sum in
            match mode with
            | PROB => times v chosen_in_cum_sum
            | _ => times (map_array (fun _ => 1%Q) v) chosen_in_cum_sum
            end
        end
  end.

End Selection.

(** * Concrete instances *)

Module Examples.

Definition ctx : Context := {| execution_id := "trial" |}.
Definition ctx' : Context := {| execution_id := "other" |}.

(** A ControlSignal whose cost is 3 whatever its value. *)
Definition cs_cost3 : ControlMechanism.ControlSignal :=
  {| ControlMechanism.cs_value := ∅;
     ControlMechanism.compute_costs := Some (fun _ _ => Ok (PyNum 3)) |}.

(** A mechanism made with the defaults, before any execution. *)
Definition fresh_mechanism : ControlMechanism.ControlMechanism :=
  ControlMechanism.__init__ "ctl" [cs_cost3] None None.

(** The same after an execution that set its variable to [[10]]. *)
Definition executed_mechanism : ControlMechanism.ControlMechanism :=
  ControlMechanism.set_variable ctx [PyArr [10%Q]] fresh_mechanism.

(** Two ControlSignals with three and two samples; nothing else matters
    for the grid. *)
Definition two_signals : Controller.World unit :=
  {| Controller.control_signals :=
       [ {| Controller.allocation_samples := [0; 1 # 2; 1]%Q |};
         {| Controller.allocation_samples := [2; 3]%Q |} ];
     Controller.value := Controller.value_None;
     Controller.instance_defaults_value := [[0%Q]; [0%Q]];
     Controller.control_signal_search_space := None;
     Controller.efferent_phases := [];
     Controller.execution_phase := Controller.IDLE;
     Controller.simulation_results := [];
     Controller.output_CIM_output_values := [];
     Controller.objective_mechanism_output_values := [];
     Controller.internals := tt |}.

(** An agent representation with one node that responds to the allocation
    in force and puts its value out; with a [limit], the composition raises
    when the allocation exceeds it.  [before_simulations] plans one trial and
    snapshots the node values, [after_simulations] restores them, and the
    search is the grid search on the first monitored value. *)
Definition allocation (w : Controller.World (list Q)) : Q :=
  match Controller.current_value w with
  | Some ([a] :: _) => a
  | _ => 0%Q
  end.

Definition set_node (a : Q) (w : Controller.World (list Q))
  : Controller.World (list Q) :=
  {| Controller.control_signals := Controller.control_signals w;
     Controller.value := Controller.value w;
     Controller.instance_defaults_value := Controller.instance_defaults_value w;
     Controller.control_signal_search_space :=
       Controller.control_signal_search_space w;
     Controller.efferent_phases := Controller.efferent_phases w;
     Controller.execution_phase := Controller.execution_phase w;
     Controller.simulation_results := Controller.simulation_results w;
     Controller.output_CIM_output_values := [[a]];
     Controller.objective_mechanism_output_values := [[a]];
     Controller.internals := [a] |}.

Definition node_values (w : Controller.World (list Q))
  : list Q * Controller.Outputs * Controller.Outputs :=
  (Controller.internals w, Controller.output_CIM_output_values w,
   Controller.objective_mechanism_output_values w).

Definition restore_nodes (nv : list Q * Controller.Outputs * Controller.Outputs)
    (w : Controller.World (list Q)) : Controller.World (list Q) :=
  {| Controller.control_signals := Controller.control_signals w;
     Controller.value := Controller.value w;
     Controller.instance_defaults_value := Controller.instance_defaults_value w;
     Controller.control_signal_search_space :=
       Controller.control_signal_search_space w;
     Controller.efferent_phases := Controller.efferent_phases w;
     Controller.execution_phase := Controller.execution_phase w;
     Controller.simulation_results := Controller.simulation_results w;
     Controller.output_CIM_output_values := nv.1.2;
     Controller.objective_mechanism_output_values := nv.2;
     Controller.internals := nv.1.1 |}.

Definition first_outcome (d : Controller.Outcome) : Q :=
  match d with
  | (_, ((x :: _) :: _) :: _, _) => x
  | _ => 0%Q
  end.

Definition agent (limit : option Q) (respond : Q -> Q)
  : Controller.Collaborators (list Q) unit
      (list Q * Controller.Outputs * Controller.Outputs) :=
  {| Controller._update_output_states := fun _ w => Ok w;
     Controller._get_unique_id := fun w =>
       ("sim-" +:+ pretty (length (Controller.simulation_results w)), w);
     Controller.composition_run := fun _ _ _ w =>
       let a := allocation w in
       match limit with
       | Some l => if Qlt_le_dec l a then Raise (Raised "agent failure")
                   else Ok (set_node (respond a) w)
       | None => Ok (set_node (respond a) w)
       end;
     Controller.before_simulations := fun w =>
       Ok (Some [("origin", [[1%Q]])], 1, tt, node_values w, w);
     Controller.after_simulations := fun _ node_values w =>
       Ok (restore_nodes node_values w);
     Controller.function := fun simulation_data w =>
       p ← Controller.ControlSignalGridSearch2 first_outcome simulation_data;
       Ok (p, w) |}.

(** A response that saturates at one half. *)
Definition saturate (a : Q) : Q := if Qlt_le_dec (1 # 2) a then (1 # 2)%Q else a.

(** A controller with one ControlSignal, before its first execution. *)
Definition one_signal (samples : list Q) : Controller.World (list Q) :=
  {| Controller.control_signals := [ {| Controller.allocation_samples := samples |} ];
     Controller.value := Controller.value_None;
     Controller.instance_defaults_value := [[0%Q]];
     Controller.control_signal_search_space := None;
     Controller.efferent_phases := [Controller.IDLE];
     Controller.execution_phase := Controller.IDLE;
     Controller.simulation_results := [];
     Controller.output_CIM_output_values := [[0%Q]];
     Controller.objective_mechanism_output_values := [[0%Q]];
     Controller.internals := [0%Q] |}.

(** A ControlSignal with the intensity cost [x * x], one whose intensity is
    free, and a mechanism with one predictor and one ControlSignal. *)
Definition quadratic_cost : LVOC.ControlSignal :=
  {| LVOC.intensity_cost_function := fun x => Ok (x * x)%Q;
     LVOC.derivative := fun x => Ok (2 * x)%Q |}.

Definition free_intensity : LVOC.ControlSignal :=
  {| LVOC.intensity_cost_function := fun _ => Ok 0%Q;
     LVOC.derivative := fun _ => Ok 0%Q |}.

Definition lvoc (cs : LVOC.ControlSignal) : LVOC.LVOCControlMechanism :=
  (LVOC.instantiate "lvoc" (1 # 100) 5 (1 # 10) [2%Q] [cs]).1.

(** The same with a convergence criterion of 4. *)
Definition lvoc_coarse (cs : LVOC.ControlSignal) : LVOC.LVOCControlMechanism :=
  (LVOC.instantiate "lvoc" 4 5 (1 # 10) [2%Q] [cs]).1.

(** [EPSILON] is [2 ^ -52], the machine epsilon of binary64; for
    [np.finfo(np.float128).max] a large number stands in, far from every
    value of the LVOC in these instances. *)
Definition epsilon : Q := 1 # 4503599627370496.
Definition huge : Q := 1000000000000 # 1.
Definition weights : list Q := [3; 1; 1; 1]%Q.
Definition predictions : list Q := [2; 0; 1 # 2; 0]%Q.

End Examples.

(** Instances for the mechanisms of [Duplicates], [LVOCInputs] and for
    controllers given by their sample lists. *)
Module MoreExamples.

(** A controller with one ControlSignal per list of samples, before its
    first execution. *)
Definition signals (sample_lists : list (list Q)) : Controller.World (list Q) :=
  {| Controller.control_signals :=
       map (fun s => {| Controller.allocation_samples := s |}) sample_lists;
     Controller.value := Controller.value_None;
     Controller.instance_defaults_value := map (fun _ => [0%Q]) sample_lists;
     Controller.control_signal_search_space := None;
     Controller.efferent_phases := map (fun _ => Controller.IDLE) sample_lists;
     Controller.execution_phase := Controller.IDLE;
     Controller.simulation_results := [];
     Controller.output_CIM_output_values := [[0%Q]];
     Controller.objective_mechanism_output_values := [[0%Q]];
     Controller.internals := [0%Q] |}.

(** A ControlSignal at value one half whose cost is one quarter. *)
Definition half_signal : LVOCInputs.Signal :=
  {| LVOCInputs.functions := Examples.quadratic_cost;
     LVOCInputs.value := [1 # 2]%Q;
     LVOCInputs.cost := Some (1 # 4)%Q |}.

(** A composition with one output state of its input CIM. *)
Definition composition (n : nat) : LVOCInputs.Composition :=
  {| LVOCInputs.comp_id := n;
     LVOCInputs.comp_name := "comp";
     LVOCInputs.input_CIM_output_states :=
       [ {| LVOCInputs.cim_name := "cim-0";
            LVOCInputs.efferents := [("input", "origin")] |} ] |}.

(** An InputState of the mechanism at the origin of that composition. *)
Definition input_state (n : string) : LVOCInputs.InputState unit unit :=
  {| LVOCInputs.is_name := n;
     LVOCInputs.owner_name := "origin";
     LVOCInputs.is_variable := tt;
     LVOCInputs.path_afferents := [tt] |}.

(** Projections and ControlSignals by their identities. *)
Definition projection (i r : nat) : Duplicates.Projection :=
  {| Duplicates.proj_id := i; Duplicates.receiver := r |}.

Definition signal (i : nat) (n : string) (ps : list Duplicates.Projection)
  : Duplicates.ControlSignal :=
  {| Duplicates.cs_id := i;
     Duplicates.name := n;
     Duplicates.efferents := ps;
     Duplicates.PROJECTION_TYPE := Some "ControlProjection" |}.

End MoreExamples.

(** * Properties *)

(** ** The error monad *)

Lemma except_TypeError_raised {A} (m h : result A) :
  m = Raise TypeError -> except_TypeError m h = h.
Proof. by intros ->. Qed.

Lemma except_TypeError_Ok {A} (m h : result A) a :
  m = Ok a -> except_TypeError m h = Ok a.
Proof. by intros ->. Qed.

Lemma bind_Ok {A B} (m : result A) (f : A -> result B) a :
  m = Ok a -> (m ≫= f) = f a.
Proof. by intros ->. Qed.

Lemma bind_Raise {A B} (m : result A) (f : A -> result B) e :
  m = Raise e -> (m ≫= f) = Raise e.
Proof. by intros ->. Qed.

(** ** controlmechanism.py: the net outcome *)

Module ControlMechanismProps.
Import ControlMechanism.

Lemma py_sub_None_r a : py_sub a PyNone = Raise TypeError.
Proof. by destruct a. Qed.

Lemma py_sub_None_l b : py_sub PyNone b = Raise TypeError.
Proof. by destruct b. Qed.

Lemma outcome_unset c context :
  _get (variable c) context = None -> _outcome_getter c context = Ok PyNone.
Proof. unfold _outcome_getter. by intros ->. Qed.

Lemma outcome_getter_total c context :
  _outcome_getter c context = Raise IndexError \/
  exists o, _outcome_getter c context = Ok o.
Proof.
  unfold _outcome_getter.
  destruct (_get (variable c) context) as [[|v vs]|]; simpl; eauto.
Qed.

(** C8.  A mechanism built without [compute_net_outcome] subtracts the cost
    from the outcome; one built with a function [f] holds [f]; and whatever
    function the mechanism holds is the one [net_outcome] applies to the
    outcome and the combined costs. *)
Theorem net_outcome_default_and_replaceable
    (c : ControlMechanism) (context : Context) (o cost : pyval)
    (costs : option (list pyval)) :
  _outcome_getter c context = Ok o ->
  _control_mechanism_costs_getter c context = Ok costs ->
  combine_costs c costs = Ok cost ->
  (forall name control cc (x y : Q),
      compute_net_outcome (__init__ name control cc None) (PyNum x) (PyNum y)
      = Ok (PyNum (x - y))) /\
  (forall name control cc f,
      compute_net_outcome (__init__ name control cc (Some f)) = f) /\
  _net_outcome_getter c context
  = except_TypeError (compute_net_outcome c o cost) (Ok (PyArr [0%Q])).
Proof.
  intros Ho Hc Hcc. split; [done|]. split; [done|].
  unfold _net_outcome_getter. by rewrite Ho, Hc; simpl; rewrite Hcc.
Qed.

Lemma net_outcome_default_and_replaceable_witness :
  ControlMechanism._net_outcome_getter Examples.executed_mechanism Examples.ctx
  = Ok (PyArr [(10 - (3 + 0))%Q]).
Proof.
  exact (proj2 (proj2 (net_outcome_default_and_replaceable
                         Examples.executed_mechanism Examples.ctx
                         (PyArr [10%Q]) (PyNum (3 + 0)%Q) (Some [PyNum 3%Q])
                         eq_refl eq_refl eq_refl))).
Defined.

(** C10.  With the default functions, when the outcome has not been set in
    the context (it reads as [None]), or the costs are [None] there,
    combining them is a [TypeError] and [net_outcome] is [[0]]. *)
Theorem net_outcome_unset_is_zero
    (c : ControlMechanism) (context : Context) (o : pyval)
    (costs : option (list pyval)) :
  combine_costs c = np_sum ->
  compute_net_outcome c = default_compute_net_outcome ->
  _outcome_getter c context = Ok o ->
  _control_mechanism_costs_getter c context = Ok costs ->
  np_sum costs <> Raise ValueError ->
  o = PyNone \/ costs = None ->
  _net_outcome_getter c context = Ok (PyArr [0%Q]).
Proof.
  intros Hcc Hcn Ho Hcosts Hsum Hunset.
  unfold _net_outcome_getter. rewrite Ho, Hcosts, Hcc, Hcn. simpl.
  destruct Hunset as [-> | ->].
  - destruct (np_sum costs) as [v|e] eqn:E; simpl.
    + done.
    + destruct e; try done; unfold np_sum in E; repeat case_match; simplify_eq.
  - simpl. unfold default_compute_net_outcome. by rewrite py_sub_None_r.
Qed.

Lemma net_outcome_unset_is_zero_witness :
  ControlMechanism._net_outcome_getter Examples.fresh_mechanism Examples.ctx
  = Ok (PyArr [0%Q]).
Proof.
  apply (net_outcome_unset_is_zero Examples.fresh_mechanism Examples.ctx
           PyNone (Some [PyNum 3%Q])); try reflexivity.
  - discriminate.
  - by left.
Defined.

End ControlMechanismProps.

(** ** controlmechanism.py: simulation ids *)

Module SimIdProps.
Import ControlMechanism.

Section sim_id.
Variable EID_SIMULATION : string.

Lemma sim_id_inj eid n m :
  sim_id EID_SIMULATION eid n = sim_id EID_SIMULATION eid m -> n = m.
Proof.
  unfold sim_id. intros E.
  do 3 apply String.app_inj in E. by apply (inj pretty) in E.
Qed.

Lemma get_next_sim_id_spec self context :
  let eid := execution_id context in
  let '(id, self') := get_next_sim_id EID_SIMULATION self context in
  id = sim_id EID_SIMULATION eid (next_num self eid) /\
  next_num self' eid = S (next_num self eid) /\
  forall e, e <> eid -> next_num self' e = next_num self e.
Proof.
  unfold get_next_sim_id, next_num, sim_id. simpl.
  destruct (_sim_counts self !! execution_id context) as [n|] eqn:E; simpl.
  - rewrite lookup_insert_eq. split_and!; [done..|].
    intros e He. by rewrite lookup_insert_ne.
  - rewrite lookup_insert_eq. split_and!; [done..|].
    intros e He. by rewrite lookup_insert_ne.
Qed.

(** Every id handed out later for [eid] carries a number that is at least
    the current counter. *)
Lemma sim_ids_later contexts : forall self i context id,
  contexts !! i = Some context ->
  sim_ids EID_SIMULATION self contexts !! i = Some id ->
  exists n, next_num self (execution_id context) <= n /\
            id = sim_id EID_SIMULATION (execution_id context) n.
Proof.
  induction contexts as [|c0 rest IH]; intros self i context id Hc Hid.
  { done. }
  simpl in Hid.
  pose proof (get_next_sim_id_spec self c0) as Hspec. simpl in Hspec.
  destruct (get_next_sim_id EID_SIMULATION self c0) as [id0 self'].
  destruct Hspec as (Hid0 & Hnext & Hother).
  destruct i as [|i]; simpl in *.
  - simplify_eq. eauto.
  - destruct (IH self' i context id Hc Hid) as (n & Hn & ->).
    exists n. split; [|done].
    destruct (decide (execution_id context = execution_id c0)) as [E|E].
    + rewrite E in *. lia.
    + rewrite Hother in Hn by done. done.
Qed.

Lemma sim_ids_distinct_lt contexts : forall self i k ci cj id_i id_j,
  contexts !! i = Some ci ->
  contexts !! (i + S k) = Some cj ->
  execution_id ci = execution_id cj ->
  sim_ids EID_SIMULATION self contexts !! i = Some id_i ->
  sim_ids EID_SIMULATION self contexts !! (i + S k) = Some id_j ->
  id_i <> id_j.
Proof.
  induction contexts as [|c0 rest IH]; intros self i k ci cj id_i id_j Hi Hj He Hidi Hidj.
  { done. }
  simpl in Hidi, Hidj.
  pose proof (get_next_sim_id_spec self c0) as Hspec. simpl in Hspec.
  destruct (get_next_sim_id EID_SIMULATION self c0) as [id0 self'].
  destruct Hspec as (Hid0 & Hnext & Hother).
  destruct i as [|i]; simpl in *.
  - simplify_eq.
    destruct (sim_ids_later rest self' k cj id_j Hj Hidj) as (n & Hn & ->).
    rewrite <- He in *. intros E%sim_id_inj. lia.
  - eapply (IH self' i k); eauto.
Qed.
End sim_id.

(** C9.  In any sequence of calls of [get_next_sim_id], two calls for the
    same execution id return different simulation ids. *)
Theorem sim_ids_distinct (EID_SIMULATION : string) (self : ControlMechanism)
    (contexts : list Context) (i j : nat) (ci cj : Context) (id_i id_j : string) :
  i <> j ->
  contexts !! i = Some ci ->
  contexts !! j = Some cj ->
  execution_id ci = execution_id cj ->
  sim_ids EID_SIMULATION self contexts !! i = Some id_i ->
  sim_ids EID_SIMULATION self contexts !! j = Some id_j ->
  id_i <> id_j.
Proof.
  intros Hij Hi Hj He Hidi Hidj.
  destruct (decide (i < j)) as [Hlt|Hge].
  - assert (exists k, j = i + S k) as [k ->] by (exists (j - i - 1); lia).
    exact (sim_ids_distinct_lt EID_SIMULATION contexts self i k ci cj id_i id_j
             Hi Hj He Hidi Hidj).
  - assert (exists k, i = j + S k) as [k ->] by (exists (i - j - 1); lia).
    intros E. symmetry in E. revert E.
    exact (sim_ids_distinct_lt EID_SIMULATION contexts self j k cj ci id_j id_i
             Hj Hi (eq_sym He) Hidj Hidi).
Qed.

Lemma sim_ids_distinct_witness :
  ControlMechanism.sim_ids "-sim" Examples.fresh_mechanism
    [Examples.ctx; Examples.ctx'; Examples.ctx]
  = ["trial-sim-0"; "other-sim-0"; "trial-sim-1"] /\
  "trial-sim-0" <> "trial-sim-1".
Proof.
  split; [reflexivity|].
  apply (sim_ids_distinct "-sim" Examples.fresh_mechanism
           [Examples.ctx; Examples.ctx'; Examples.ctx] 0 2
           Examples.ctx Examples.ctx); try reflexivity.
  lia.
Defined.

End SimIdProps.

(** ** controlmechanism.py: the default objective mechanism *)

Module ObjectiveProps.
Import ControlMechanism.








End ObjectiveProps.

(** ** controller.py: the grid of allocation policies *)

Module GridProps.
Import np.

Section product.
Context {A : Type} `{Inhabited A}.

Lemma bind_by_index {B} (xs : list A) (f : A -> list B) :
  xs ≫= f = seq 0 (length xs) ≫= (fun i => f (xs !!! i)).
Proof.
  induction xs as [|x xs IH]; [done|].
  csimpl. f_equal. rewrite IH, <- fmap_S_seq, list_fmap_bind. done.
Qed.

Lemma cartesian_pick (xss : list (list A)) :
  cartesian xss = map (pick xss) (all_indices (map length xss)).
Proof.
  induction xss as [|xs rest IH]; [done|].
  csimpl. rewrite bind_by_index.
  generalize (seq 0 (length xs)). intros l.
  induction l as [|i l IHl]; [done|].
  csimpl. rewrite map_app, <- IHl. f_equal.
  rewrite IH. generalize (all_indices (map length rest)). intros ixs.
  induction ixs as [|ix ixs IHixs]; [done|].
  csimpl. by rewrite <- IHixs.
Qed.

Lemma elem_of_all_indices s : forall ix,
  ix ∈ all_indices s <-> Forall2 lt ix s.
Proof.
  induction s as [|d s IH]; intros ix; csimpl.
  - rewrite list_elem_of_singleton. split; [by intros ->|by inversion 1].
  - rewrite list_elem_of_bind. split.
    + intros (i & Hix & Hi). apply list_elem_of_bind in Hix as (ix' & Hix & Hix').
      apply list_elem_of_singleton in Hix as ->.
      apply elem_of_seq in Hi. constructor; [lia|]. by apply IH.
    + inversion 1 as [|i ? ix' ? Hi Hix']; subst.
      exists i. split; [|apply elem_of_seq; lia].
      apply list_elem_of_bind. exists ix'. split; [by apply list_elem_of_singleton|].
      by apply IH.
Qed.

Lemma NoDup_all_indices s : NoDup (all_indices s).
Proof.
  induction s as [|d s IH]; csimpl.
  - apply NoDup_singleton.
  - apply NoDup_bind; [| |apply NoDup_seq].
    + intros i1 i2 ix _ _ H1 H2.
      apply list_elem_of_bind in H1 as (ix1 & H1 & _).
      apply list_elem_of_bind in H2 as (ix2 & H2 & _).
      apply list_elem_of_singleton in H1, H2. congruence.
    + intros i _. apply NoDup_bind; [| |done].
      * intros ix1 ix2 ix _ _ H1 H2.
        apply list_elem_of_singleton in H1, H2. congruence.
      * intros ix _. apply NoDup_singleton.
Qed.

Lemma length_all_indices s : length (all_indices s) = size s.
Proof.
  induction s as [|d s IH]; [done|]. csimpl.
  rewrite <- IH. generalize 0. induction d as [|d IHd]; intros start; [done|].
  csimpl. rewrite length_app, IHd. f_equal.
  generalize (all_indices s). intros l. induction l; csimpl; auto.
Qed.

Lemma size_app s t : size (s ++ t) = size s * size t.
Proof. induction s as [|d s IH]; simpl; [lia|]. rewrite IH. lia. Qed.

Lemma size_reverse s : size (reverse s) = size s.
Proof.
  induction s as [|d s IH]; [done|].
  rewrite reverse_cons, size_app, IH. simpl. lia.
Qed.

Lemma size_swap01 s : size (swap01 s) = size s.
Proof. destruct s as [|a [|b s]]; simpl; lia. Qed.

Lemma swap01_involutive {B} (l : list B) : swap01 (swap01 l) = l.
Proof. by destruct l as [|a [|b l]]. Qed.

Lemma Forall2_swap01 {B C} (R : B -> C -> Prop) l k :
  Forall2 R l k -> Forall2 R (swap01 l) (swap01 k).
Proof.
  intros Hlk. destruct Hlk as [|a b l k Hab [|a' b' l' k' Hab' Hlk]]; simpl;
    repeat constructor; done.
Qed.

Lemma unravel_lt s : forall m, m < size s -> Forall2 lt (unravel s m) s.
Proof.
  induction s as [|d s IH]; intros m Hm; simpl in *; [constructor|].
  assert (size s <> 0) by (intros E; rewrite E in Hm; lia).
  constructor.
  - apply Nat.Div0.div_lt_upper_bound. lia.
  - apply IH. by apply Nat.mod_upper_bound.
Qed.

Lemma unravel_inj s : forall m m',
  m < size s -> m' < size s -> unravel s m = unravel s m' -> m = m'.
Proof.
  induction s as [|d s IH]; intros m m' Hm Hm' E; simpl in *; [lia|].
  assert (size s <> 0) by (intros E'; rewrite E' in Hm; lia).
  injection E as Ediv Erest.
  apply IH in Erest; try by apply Nat.mod_upper_bound.
  rewrite (Nat.div_mod_eq m (size s)), (Nat.div_mod_eq m' (size s)). congruence.
Qed.

Lemma unravel_snoc t k : forall r c,
  r < size t -> c < k ->
  unravel (t ++ [k]) (r * k + c) = unravel t r ++ [c].
Proof.
  induction t as [|d t IH]; intros r c Hr Hc.
  - cbn [size foldr] in Hr. assert (r = 0) as -> by lia.
    cbn [app unravel size foldr Nat.mul Nat.add]. by rewrite Nat.div_1_r.
  - cbn [size foldr] in Hr. fold (size t) in Hr.
    assert (size t <> 0) by (intros E'; rewrite E' in Hr; lia).
    change ((d :: t) ++ [k]) with (d :: (t ++ [k])).
    cbn [unravel]. rewrite size_app.
    replace (size [k]) with k by (simpl; lia).
    assert ((r * k + c) / (size t * k) = r / size t) as ->.
    { rewrite (Nat.mul_comm (size t) k), <- Nat.Div0.div_div.
      f_equal. rewrite Nat.div_add_l by lia.
      rewrite (Nat.div_small c k) by lia. lia. }
    assert ((r * k + c) mod (size t * k) = (r mod size t) * k + c) as ->.
    { rewrite (Nat.mul_comm (size t) k).
      rewrite Nat.Div0.mod_mul_r.
      rewrite (Nat.add_comm (r * k) c), Nat.Div0.mod_add.
      rewrite (Nat.add_comm c (r * k)), Nat.div_add_l by lia.
      rewrite (Nat.mod_small c k), (Nat.div_small c k) by lia.
      rewrite Nat.add_0_r. lia. }
    cbn [app]. f_equal. apply IH; [|done]. by apply Nat.mod_upper_bound.
Qed.

Lemma meshgrid_item (xss : list (list A)) j ix :
  j < length xss ->
  item (meshgrid xss !!! j) ix = (xss !!! j) !!! (swap01 ix !!! j).
Proof.
  intros Hj. destruct (lookup_lt_is_Some_2 xss j Hj) as [x Hx].
  unfold meshgrid.
  erewrite (list_lookup_total_correct (imap _ xss) j); last first.
  { rewrite list_lookup_imap, Hx. done. }
  simpl. by rewrite (list_lookup_total_correct xss j x).
Qed.

Lemma pick_by_index (xss : list (list A)) ix :
  length ix = length xss ->
  pick xss ix = map (fun c => (xss !!! c) !!! (ix !!! c)) (seq 0 (length xss)).
Proof.
  intros Hlen. apply list_eq. intros c. unfold pick.
  rewrite lookup_zip_with, list_lookup_fmap.
  destruct (decide (c < length xss)) as [Hc|Hc].
  - rewrite lookup_seq_lt by done. simpl.
    destruct (lookup_lt_is_Some_2 xss c Hc) as [x Hx].
    destruct (lookup_lt_is_Some_2 ix c ltac:(lia)) as [i Hi].
    rewrite Hx, Hi. simpl.
    by rewrite (list_lookup_total_correct _ _ _ Hx), (list_lookup_total_correct _ _ _ Hi).
  - rewrite lookup_seq_ge by lia. rewrite (lookup_ge_None_2 xss c) by lia. done.
Qed.

Lemma length_unravel s m : length (unravel s m) = length s.
Proof. revert m. induction s; intros m; simpl; auto. Qed.

Lemma length_swap01 {B} (l : list B) : length (swap01 l) = length l.
Proof. by destruct l as [|a [|b l]]. Qed.

Lemma length_row_index ns r : length (row_index ns r) = length ns.
Proof.
  unfold row_index.
  by rewrite length_swap01, length_reverse, length_unravel, length_reverse, length_swap01.
Qed.

Lemma grid_rows (xss : list (list A)) :
  xss <> [] ->
  reshape_rows (T (array (meshgrid xss))) (length xss)
  = Ok (map (fun r => pick xss (row_index (map length xss) r))
                     (seq 0 (size (map length xss)))).
Proof.
  intros Hne. unfold reshape_rows.
  set (k := length xss). set (ns := map length xss). set (s := swap01 ns).
  assert (k <> 0) as Hk by (subst k; destruct xss; simpl; [done|lia]).
  assert (shape (T (array (meshgrid xss))) = reverse s ++ [k]) as Hshape.
  { destruct xss as [|x0 rest]; [done|]. simpl.
    rewrite reverse_cons. f_equal. f_equal. unfold k. simpl.
    by rewrite length_imap. }
  rewrite Hshape, size_app, size_reverse.
  replace (size [k]) with k by (simpl; lia).
  replace (size s) with (size ns) by (subst s; by rewrite size_swap01).
  rewrite decide_False by done.
  rewrite decide_True by apply Nat.Div0.mod_mul.
  rewrite Nat.div_mul by done. f_equal.
  apply map_ext_in. intros r Hr%list_elem_of_In%elem_of_seq.
  rewrite pick_by_index by (rewrite length_row_index; subst ns; by rewrite length_map).
  fold k. apply map_ext_in. intros c Hc%list_elem_of_In%elem_of_seq.
  rewrite unravel_snoc; [|rewrite size_reverse; subst s; rewrite size_swap01; lia|lia].
  unfold T at 1. cbn [item]. rewrite reverse_app. cbn [reverse app].
  change (reverse [c]) with [c]. cbn [app].
  destruct (meshgrid xss) as [|o0 os] eqn:Emesh.
  { destruct xss; [done|]. done. }
  cbn [array item]. rewrite <- Emesh.
  rewrite meshgrid_item by (fold k; lia).
  done.
Qed.

Lemma row_index_permutation ns :
  map (row_index ns) (seq 0 (size ns)) ≡ₚ all_indices ns.
Proof.
  assert (size (reverse (swap01 ns)) = size ns) as Hsize
    by (by rewrite size_reverse, size_swap01).
  apply submseteq_length_Permutation.
  - apply NoDup_submseteq.
    + apply (NoDup_fmap_2_strong (row_index ns)); [|apply NoDup_seq].
      intros r r' Hr%elem_of_seq Hr'%elem_of_seq E. unfold row_index in E.
      apply (f_equal swap01) in E. rewrite !swap01_involutive in E.
      apply (inj reverse) in E.
      apply unravel_inj in E; [done|lia..].
    + intros ix (r & -> & Hr%elem_of_seq)%list_elem_of_fmap.
      apply elem_of_all_indices. unfold row_index.
      rewrite <- (swap01_involutive ns) at 2. apply Forall2_swap01.
      rewrite <- (reverse_involutive (swap01 ns)) at 2. apply Forall2_reverse.
      apply unravel_lt. lia.
  - by rewrite length_all_indices, length_map, length_seq.
Qed.

Lemma elem_of_cartesian (xss : list (list A)) : forall p,
  p ∈ cartesian xss <-> Forall2 (fun x xs => x ∈ xs) p xss.
Proof.
  induction xss as [|xs rest IH]; intros p; csimpl.
  - rewrite list_elem_of_singleton. split; [by intros ->|by inversion 1].
  - rewrite list_elem_of_bind. split.
    + intros (x & Hp & Hx). apply list_elem_of_bind in Hp as (r & Hp & Hr).
      apply list_elem_of_singleton in Hp as ->. constructor; [done|by apply IH].
    + inversion 1 as [|x ? r ? Hx Hr]; subst. exists x. split; [|done].
      apply list_elem_of_bind. exists r. split; [by apply list_elem_of_singleton|].
      by apply IH.
Qed.

Lemma NoDup_cartesian (xss : list (list A)) :
  Forall NoDup xss -> NoDup (cartesian xss).
Proof.
  induction 1 as [|xs rest Hxs Hrest IH]; csimpl.
  - apply NoDup_singleton.
  - apply NoDup_bind; [| |done].
    + intros x1 x2 p _ _ H1 H2.
      apply list_elem_of_bind in H1 as (r1 & H1 & _).
      apply list_elem_of_bind in H2 as (r2 & H2 & _).
      apply list_elem_of_singleton in H1, H2. congruence.
    + intros x _. apply NoDup_bind; [| |done].
      * intros r1 r2 p _ _ H1 H2.
        apply list_elem_of_singleton in H1, H2. congruence.
      * intros r _. apply NoDup_singleton.
Qed.

Lemma length_cartesian (xss : list (list A)) :
  length (cartesian xss) = size (map length xss).
Proof. by rewrite cartesian_pick, length_map, length_all_indices. Qed.

(** The grid is the Cartesian product, each combination once. *)
Lemma grid_cartesian (xss : list (list A)) :
  xss <> [] ->
  exists rows,
    reshape_rows (T (array (meshgrid xss))) (length xss) = Ok rows /\
    rows ≡ₚ cartesian xss.
Proof.
  intros Hne. eexists. split; [by apply grid_rows|].
  rewrite cartesian_pick.
  rewrite <- (row_index_permutation (map length xss)).
  by rewrite <- list_fmap_compose.
Qed.

End product.

(** C3.  For at least one ControlSignal, [get_allocation_policies] returns
    the Cartesian product of the sample lists: a rearrangement of the list
    of all combinations, so that every combination of one sample per
    ControlSignal appears once for each way of choosing it, and the number
    of policies is the product of the numbers of samples. *)
Theorem allocation_policies_are_the_product {Internals}
    (w : Controller.World Internals) :
  Controller.control_signals w <> [] ->
  let samples := map Controller.allocation_samples (Controller.control_signals w) in
  exists policies,
    Controller.get_allocation_policies w = Ok policies /\
    policies ≡ₚ cartesian samples /\
    length policies = foldr Nat.mul 1 (map length samples) /\
    (forall p, p ∈ policies <-> Forall2 (fun x xs => x ∈ xs) p samples) /\
    (Forall NoDup samples -> NoDup policies).
Proof.
  intros Hne samples.
  destruct (grid_cartesian samples) as (rows & Hrows & Hperm).
  { subst samples. by destruct (Controller.control_signals w). }
  exists rows. split.
  { unfold Controller.get_allocation_policies. subst samples.
    by rewrite length_map in Hrows. }
  split; [done|]. split; [|split].
  - rewrite Hperm. apply length_cartesian.
  - intros p. rewrite Hperm. apply elem_of_cartesian.
  - intros Hnd. rewrite Hperm. by apply NoDup_cartesian.
Qed.

Lemma allocation_policies_are_the_product_witness :
  Controller.get_allocation_policies Examples.two_signals
  = Ok [[0; 2]; [0; 3]; [1 # 2; 2]; [1 # 2; 3]; [1; 2]; [1; 3]]%Q /\
  exists policies,
    Controller.get_allocation_policies Examples.two_signals = Ok policies /\
    policies ≡ₚ cartesian [[0; 1 # 2; 1]; [2; 3]]%Q /\
    length policies = 6 /\
    (forall p, p ∈ policies <->
               Forall2 (fun x xs => x ∈ xs) p [[0; 1 # 2; 1]; [2; 3]]%Q) /\
    (Forall NoDup [[0; 1 # 2; 1]; [2; 3]]%Q -> NoDup policies).
Proof.
  split; [reflexivity|].
  apply (allocation_policies_are_the_product Examples.two_signals).
  discriminate.
Defined.

End GridProps.

(** ** controller.py: simulations and the search *)

Module ControllerProps.
Import Controller.

Section simulations.
Context {Internals ReinitializeValues NodeValues : Type}.
Variable C : Collaborators Internals ReinitializeValues NodeValues.

Lemma for_trials_app (body : nat -> _ -> result (list Outputs * list other_item * World Internals))
    l1 l2 st :
  for_trials body (l1 ++ l2) st = for_trials body l1 st ≫= for_trials body l2.
Proof.
  revert st. induction l1 as [|i l1 IH]; intros st; [done|].
  simpl. destruct (body i st) as [st'|e]; simpl; [apply IH|done].
Qed.

Lemma for_policies_app n rv pi cas l1 l2 st :
  for_policies C n rv pi cas (l1 ++ l2) st
  = for_policies C n rv pi cas l1 st ≫= for_policies C n rv pi cas l2.
Proof.
  revert st. induction l1 as [|p l1 IH]; intros [acc w]; [done|].
  simpl. destruct (run_simulation C (Some p) n rv pi cas w) as [[[o d] w']|e];
    simpl; [apply IH|done].
Qed.

(** An exception of [composition.run] in trial [i] leaves [run_simulation]
    as it is. *)
Lemma failing_trial_aborts_simulation p n rv pi cas w b w3 eid w4 i o d w5 inputs e :
  np.truth (Some p) = Ok b ->
  (if b then apply_control_signal_values C p w else Ok w) = Ok w3 ->
  _get_unique_id C w3 = (eid, w4) ->
  i < n ->
  for_trials (simulate_trial C rv pi cas eid) (seq 0 i) ([], [], w4) = Ok (o, d, w5) ->
  trial_inputs pi i = Ok inputs ->
  composition_run C inputs rv eid
    (set_phases SIMULATION (map (fun _ => PROCESSING) (efferent_phases w5)) w5)
  = Raise e ->
  run_simulation C (Some p) n rv pi cas w = Raise e.
Proof.
  intros Hb Happly Hid Hi Htrials Hinputs Hrun.
  unfold run_simulation. rewrite Hb. simpl. rewrite Happly. simpl. rewrite Hid.
  replace n with (i + S (n - S i)) by lia.
  rewrite seq_app, for_trials_app, Htrials. simpl.
  unfold simulate_trial at 1. rewrite Hinputs. simpl. by rewrite Hrun.
Qed.

Lemma failing_simulation_aborts_search w space pre p post pi n rv nv w1 acc w2 e :
  get_allocation_policies w = Ok space ->
  space = pre ++ p :: post ->
  before_simulations C (set_search_space space w) = Ok (pi, n, rv, nv, w1) ->
  for_policies C n rv pi None pre ([], w1) = Ok (acc, w2) ->
  run_simulation C (Some p) n rv pi None w2 = Raise e ->
  run_simulations C space None (set_search_space space w) = Raise e /\
  _execute C w = Raise e.
Proof.
  intros Hspace -> Hbefore Hpre Hfail.
  assert (run_simulations C (pre ++ p :: post) None
            (set_search_space (pre ++ p :: post) w) = Raise e) as Hsims.
  { unfold run_simulations. rewrite Hbefore. simpl.
    rewrite for_policies_app, Hpre. simpl. by rewrite Hfail. }
  split; [done|]. unfold _execute. rewrite Hspace. simpl. by rewrite Hsims.
Qed.

(** *** What the simulations leave behind *)

Lemma grows_by_refl (w : World Internals) : grows_by 0 w w.
Proof. exists []. by rewrite app_nil_r. Qed.

Lemma grows_by_trans k1 k2 (w1 w2 w3 : World Internals) :
  grows_by k1 w1 w2 -> grows_by k2 w2 w3 -> grows_by (k1 + k2) w1 w3.
Proof.
  intros (n1 & E1 & L1) (n2 & E2 & L2). exists (n1 ++ n2).
  rewrite E2, E1, <- app_assoc, length_app. split; [done|lia].
Qed.

Lemma grows_by_same (w w' : World Internals) :
  simulation_results w' = simulation_results w -> grows_by 0 w w'.
Proof. intros E. exists []. by rewrite app_nil_r. Qed.

Hypothesis Hkeeps : keeps_simulation_results C.

Lemma assign_value_results i x w w' :
  assign_value Internals i x w = Ok w' ->
  simulation_results w' = simulation_results w.
Proof.
  unfold assign_value. intros E.
  destruct (value w) eqn:Ev; simpl in E; rewrite ?Ev in E; simpl in E.
  all: match type of E with
       | context [setitem ?i ?x ?l] => destruct (setitem i x l); simpl in E
       end; by simplify_eq.
Qed.

Lemma assign_values_results xs : forall i w w',
  assign_values Internals i xs w = Ok w' ->
  simulation_results w' = simulation_results w.
Proof.
  induction xs as [|x xs IH]; intros i w w' E; simpl in E; [by simplify_eq|].
  destruct (assign_value Internals i x w) as [w1|] eqn:E1; simpl in E; [|done].
  rewrite (IH _ _ _ E). by apply assign_value_results in E1.
Qed.

Lemma apply_control_signal_values_results p w w' :
  apply_control_signal_values C p w = Ok w' ->
  simulation_results w' = simulation_results w.
Proof.
  unfold apply_control_signal_values. intros E.
  destruct (assign_values Internals 0 p w) as [w1|] eqn:E1; simpl in E; [|done].
  destruct Hkeeps as (Hupd & _). rewrite (Hupd _ _ _ E).
  by apply assign_values_results in E1.
Qed.

Lemma simulate_trial_results rv pi eid i o d w o' d' w' :
  simulate_trial C rv pi None eid i (o, d, w) = Ok (o', d', w') ->
  grows_by 1 w w'.
Proof.
  unfold simulate_trial. intros E.
  destruct (trial_inputs pi i) as [inputs|]; simpl in E; [|done].
  destruct (composition_run C inputs rv eid _) as [w1|] eqn:E1; simpl in E; [|done].
  simplify_eq. destruct Hkeeps as (_ & _ & Hrun & _).
  apply Hrun in E1. simpl in *. eexists. split; [by rewrite E1|done].
Qed.

Lemma for_trials_results rv pi eid trials : forall o d w o' d' w',
  for_trials (simulate_trial C rv pi None eid) trials (o, d, w) = Ok (o', d', w') ->
  grows_by (length trials) w w'.
Proof.
  induction trials as [|i trials IH]; intros o d w o' d' w' E;
    cbn [for_trials] in E.
  - simplify_eq. apply grows_by_refl.
  - destruct (simulate_trial C rv pi None eid i (o, d, w)) as [[[o1 d1] w1]|] eqn:E1;
      [|done]. cbn [mbind result_bind] in E.
    apply simulate_trial_results in E1. apply IH in E.
    apply (grows_by_trans 1 _ _ _ _ E1 E).
Qed.

Lemma run_simulation_results p n rv pi w o d w' :
  run_simulation C (Some p) n rv pi None w = Ok (o, d, w') ->
  grows_by n w w'.
Proof.
  unfold run_simulation. intros E.
  destruct (np.truth (Some p)) as [b|]; simpl in E; [|done].
  destruct (if b then apply_control_signal_values C p w else Ok w)
    as [w1|] eqn:E1; [|done]. cbn [mbind result_bind] in E.
  destruct (_get_unique_id C w1) as [eid w2] eqn:E2.
  apply for_trials_results in E. rewrite length_seq in E.
  apply (grows_by_trans 0 n w w2 w'); [|done].
  apply grows_by_same. destruct Hkeeps as (_ & Hid & _).
  specialize (Hid w1). rewrite E2 in Hid. simpl in Hid. rewrite Hid.
  destruct b; [by apply apply_control_signal_values_results in E1|by simplify_eq].
Qed.

Lemma for_policies_results n rv pi policies : forall acc w data w',
  for_policies C n rv pi None policies (acc, w) = Ok (data, w') ->
  grows_by (n * length policies) w w' /\
  map (fun d : Outcome => d.1.1) data = map (fun d : Outcome => d.1.1) acc ++ policies.
Proof.
  induction policies as [|p policies IH]; intros acc w data w' E;
    cbn [for_policies] in E.
  - simplify_eq. rewrite Nat.mul_0_r, app_nil_r. split; [apply grows_by_refl|done].
  - destruct (run_simulation C (Some p) n rv pi None w) as [[[o d] w1]|] eqn:E1;
      [|done]. cbn [mbind result_bind] in E.
    apply run_simulation_results in E1. apply IH in E as [E Hmap]. split.
    + simpl. replace (n * S (length policies)) with (n + n * length policies) by lia.
      by apply (grows_by_trans _ _ _ _ _ E1 E).
    + rewrite Hmap, map_app. simpl. by rewrite <- app_assoc.
Qed.

Lemma run_simulations_results policies w data w' pi n rv nv w1 :
  before_simulations C w = Ok (pi, n, rv, nv, w1) ->
  run_simulations C policies None w = Ok (data, w') ->
  grows_by (n * length policies) w w' /\
  map (fun d : Outcome => d.1.1) data = policies /\
  exists w_last, after_simulations C rv nv w_last = Ok w'.
Proof.
  intros Hbefore. unfold run_simulations. rewrite Hbefore. simpl. intros E.
  destruct (for_policies C n rv pi None policies ([], w1)) as [[data1 w2]|] eqn:E1;
    simpl in E; [|done].
  destruct (after_simulations C rv nv w2) as [w3|] eqn:E2; simpl in E; [|done].
  simplify_eq. apply for_policies_results in E1 as [E1 Hmap].
  destruct Hkeeps as (_ & _ & _ & Hb & Ha).
  apply Hb in Hbefore. apply Ha in E2 as E3.
  split; [|split; [done|by exists w2]].
  destruct E1 as (new & E1 & Hlen). exists new. split; [|done].
  by rewrite E3, E1, Hbefore.
Qed.

(** *** What the entries are *)

Lemma grows_by_runs_refl rv (w : World Internals) : grows_by_runs C rv 0 w w.
Proof. exists []. by rewrite app_nil_r. Qed.

Lemma grows_by_runs_trans rv k1 k2 (w1 w2 w3 : World Internals) :
  grows_by_runs C rv k1 w1 w2 -> grows_by_runs C rv k2 w2 w3 ->
  grows_by_runs C rv (k1 + k2) w1 w3.
Proof.
  intros (n1 & E1 & L1 & F1) (n2 & E2 & L2 & F2). exists (n1 ++ n2).
  rewrite E2, E1, <- app_assoc, length_app.
  split; [done|]. split; [lia|]. by apply Forall_app.
Qed.

Lemma grows_by_runs_same rv (w w' : World Internals) :
  simulation_results w' = simulation_results w -> grows_by_runs C rv 0 w w'.
Proof. intros E. exists []. by rewrite app_nil_r. Qed.

Lemma simulate_trial_appends rv pi eid i o d w o' d' w' :
  simulate_trial C rv pi None eid i (o, d, w) = Ok (o', d', w') ->
  grows_by_runs C rv 1 w w'.
Proof.
  unfold simulate_trial. intros E.
  destruct (trial_inputs pi i) as [inputs|]; simpl in E; [|done].
  destruct (composition_run C inputs rv eid _) as [w1|] eqn:E1; simpl in E; [|done].
  simplify_eq. destruct Hkeeps as (_ & _ & Hrun & _).
  pose proof (Hrun _ _ _ _ _ E1) as Hsame. simpl in *.
  exists [output_CIM_output_values w1]. split; [by rewrite Hsame|].
  split; [done|]. constructor; [|done]. by eexists _, _, _, _.
Qed.

Lemma for_trials_appends rv pi eid trials : forall o d w o' d' w',
  for_trials (simulate_trial C rv pi None eid) trials (o, d, w) = Ok (o', d', w') ->
  grows_by_runs C rv (length trials) w w'.
Proof.
  induction trials as [|i trials IH]; intros o d w o' d' w' E;
    cbn [for_trials] in E.
  - simplify_eq. apply grows_by_runs_refl.
  - destruct (simulate_trial C rv pi None eid i (o, d, w)) as [[[o1 d1] w1]|] eqn:E1;
      [|done]. cbn [mbind result_bind] in E.
    apply simulate_trial_appends in E1. apply IH in E.
    apply (grows_by_runs_trans rv 1 _ _ _ _ E1 E).
Qed.

Lemma run_simulation_appends p n rv pi w o d w' :
  run_simulation C (Some p) n rv pi None w = Ok (o, d, w') ->
  grows_by_runs C rv n w w'.
Proof.
  unfold run_simulation. intros E.
  destruct (np.truth (Some p)) as [b|]; simpl in E; [|done].
  destruct (if b then apply_control_signal_values C p w else Ok w)
    as [w1|] eqn:E1; [|done]. cbn [mbind result_bind] in E.
  destruct (_get_unique_id C w1) as [eid w2] eqn:E2.
  apply for_trials_appends in E. rewrite length_seq in E.
  apply (grows_by_runs_trans rv 0 n w w2 w'); [|done].
  apply grows_by_runs_same. destruct Hkeeps as (_ & Hid & _).
  specialize (Hid w1). rewrite E2 in Hid. simpl in Hid. rewrite Hid.
  destruct b; [by apply apply_control_signal_values_results in E1|by simplify_eq].
Qed.

Lemma for_policies_appends n rv pi policies : forall acc w data w',
  for_policies C n rv pi None policies (acc, w) = Ok (data, w') ->
  grows_by_runs C rv (n * length policies) w w'.
Proof.
  induction policies as [|p policies IH]; intros acc w data w' E;
    cbn [for_policies] in E.
  - simplify_eq. rewrite Nat.mul_0_r. apply grows_by_runs_refl.
  - destruct (run_simulation C (Some p) n rv pi None w) as [[[o d] w1]|] eqn:E1;
      [|done]. cbn [mbind result_bind] in E.
    apply run_simulation_appends in E1. apply IH in E.
    simpl. replace (n * S (length policies)) with (n + n * length policies) by lia.
    by apply (grows_by_runs_trans _ _ _ _ _ _ E1 E).
Qed.

Lemma run_simulations_appends policies w data w' pi n rv nv w1 :
  before_simulations C w = Ok (pi, n, rv, nv, w1) ->
  run_simulations C policies None w = Ok (data, w') ->
  grows_by_runs C rv (n * length policies) w w'.
Proof.
  intros Hbefore. unfold run_simulations. rewrite Hbefore. simpl. intros E.
  destruct (for_policies C n rv pi None policies ([], w1)) as [[data1 w2]|] eqn:E1;
    simpl in E; [|done].
  destruct (after_simulations C rv nv w2) as [w3|] eqn:E2; simpl in E; [|done].
  simplify_eq. apply for_policies_appends in E1.
  destruct Hkeeps as (_ & _ & _ & Hb & Ha).
  apply Hb in Hbefore. apply Ha in E2 as E3.
  destruct E1 as (new & E1 & Hlen & Hall). exists new.
  split; [by rewrite E3, E1, Hbefore|done].
Qed.

End simulations.

(** *** What becomes of the controller's value *)

Section controller_value.
Context {Internals ReinitializeValues NodeValues : Type}.
Variable C : Collaborators Internals ReinitializeValues NodeValues.

(** The array [self.value] stands for once it has been assigned to. *)
#[local] Abbreviation effective w :=
  (match value w with
   | value_own v => v
   | _ => instance_defaults_value w
   end).

Lemma same_value_refl (w : World Internals) : same_value w w.
Proof. done. Qed.

Lemma same_value_trans (w1 w2 w3 : World Internals) :
  same_value w1 w2 -> same_value w2 w3 -> same_value w1 w3.
Proof. intros [H1 H2] [H3 H4]. split; congruence. Qed.

Lemma same_value_begins p (w w' : World Internals) :
  same_value w w' -> value_begins_with p w -> value_begins_with p w'.
Proof.
  intros [Hv Hd] (v & Hcur & Htake). exists v. split; [|done].
  unfold current_value in *. by rewrite Hv, Hd.
Qed.

Lemma assign_value_effective i x (w w' : World Internals) :
  assign_value Internals i x w = Ok w' ->
  value w' <> value_None /\ i < length (effective w) /\
  effective w' = <[i := [x]]> (effective w).
Proof.
  unfold assign_value, setitem. intros E.
  destruct (value w) eqn:Ev; simpl in E; rewrite ?Ev in E; simpl in E;
    case_decide; simpl in E; [|done| |done| |done]; by simplify_eq.
Qed.

Lemma assign_values_effective xs : forall i (w w' : World Internals),
  assign_values Internals i xs w = Ok w' ->
  (xs <> [] -> value w' <> value_None) /\
  length (effective w') = length (effective w) /\
  (forall t, t < i -> effective w' !! t = effective w !! t) /\
  (forall j x, xs !! j = Some x -> effective w' !! (i + j) = Some [x]).
Proof.
  induction xs as [|x xs IH]; intros i w w' E; cbn [assign_values] in E.
  { simplify_eq. by repeat split. }
  destruct (assign_value Internals i x w) as [w1|] eqn:E1; [|done].
  cbn [mbind result_bind] in E.
  apply assign_value_effective in E1 as (Hv1 & Hi & Heff1).
  destruct (IH _ _ _ E) as (Hv & Hlen & Hlow & Hin).
  assert (value w' <> value_None) as Hv'.
  { destruct xs as [|y ys]; [|by apply Hv].
    cbn [assign_values] in E. by simplify_eq. }
  split; [done|]. split; [by rewrite Hlen, Heff1, length_insert|].
  split.
  - intros t Ht. rewrite Hlow by lia. rewrite Heff1.
    by rewrite list_lookup_insert_ne by lia.
  - intros [|j] y Hy; simpl in Hy.
    + simplify_eq. rewrite Nat.add_0_r, Hlow by lia. rewrite Heff1.
      by rewrite list_lookup_insert_eq.
    + replace (i + S j) with (S i + j) by lia. by apply Hin.
Qed.

Hypothesis Hvalue : keeps_value C.

Lemma apply_control_signal_values_begins p (w w' : World Internals) :
  p <> [] ->
  apply_control_signal_values C p w = Ok w' ->
  value_begins_with p w'.
Proof.
  intros Hp. unfold apply_control_signal_values. intros E.
  destruct (assign_values Internals 0 p w) as [w1|] eqn:E1; [|done].
  cbn [mbind result_bind] in E.
  destruct Hvalue as (Hupd & _). apply Hupd in E.
  apply (same_value_begins p w1 w' E).
  apply assign_values_effective in E1 as (Hv & Hlen & _ & Hin).
  specialize (Hv Hp). exists (effective w1). split.
  { unfold current_value. by destruct (value w1). }
  apply list_eq. intros j. rewrite list_lookup_fmap.
  destruct (p !! j) as [x|] eqn:Hj.
  - rewrite lookup_take_lt by (by apply lookup_lt_Some in Hj).
    exact (Hin j x Hj).
  - apply lookup_ge_None in Hj. by rewrite lookup_take_ge by lia.
Qed.

Lemma simulate_trial_value rv pi eid i o d (w : World Internals) o' d' w' :
  simulate_trial C rv pi None eid i (o, d, w) = Ok (o', d', w') ->
  same_value w w'.
Proof.
  unfold simulate_trial. intros E.
  destruct (trial_inputs pi i) as [inputs|]; simpl in E; [|done].
  destruct (composition_run C inputs rv eid _) as [w1|] eqn:E1; simpl in E; [|done].
  simplify_eq. destruct Hvalue as (_ & _ & Hrun & _).
  by apply Hrun in E1.
Qed.

Lemma for_trials_value rv pi eid trials : forall o d (w : World Internals) o' d' w',
  for_trials (simulate_trial C rv pi None eid) trials (o, d, w) = Ok (o', d', w') ->
  same_value w w'.
Proof.
  induction trials as [|i trials IH]; intros o d w o' d' w' E;
    cbn [for_trials] in E; [by simplify_eq|].
  destruct (simulate_trial C rv pi None eid i (o, d, w)) as [[[o1 d1] w1]|] eqn:E1;
    [|done]. cbn [mbind result_bind] in E.
  apply simulate_trial_value in E1. apply IH in E.
  by apply (same_value_trans _ w1).
Qed.

(** A candidate that is applied is the controller's value after its
    simulation; one that is not leaves the value as it is. *)
Lemma run_simulation_value p n rv pi (w : World Internals) o d w' b :
  np.truth (Some p) = Ok b ->
  run_simulation C (Some p) n rv pi None w = Ok (o, d, w') ->
  if b then value_begins_with p w' else same_value w w'.
Proof.
  intros Hb. unfold run_simulation. rewrite Hb. intros E. simpl in E.
  destruct (if b then apply_control_signal_values C p w else Ok w)
    as [w1|] eqn:E1; [|done]. cbn [mbind result_bind] in E.
  destruct (_get_unique_id C w1) as [eid w2] eqn:E2.
  apply for_trials_value in E.
  assert (same_value w1 w2) as H12.
  { destruct Hvalue as (_ & Hid & _). specialize (Hid w1).
    rewrite E2 in Hid. exact Hid. }
  pose proof (same_value_trans _ _ _ H12 E) as H1.
  destruct b.
  - apply (same_value_begins p w1 w' H1).
    apply (apply_control_signal_values_begins p w w1); [|done].
    intros ->. by simpl in Hb.
  - by simplify_eq.
Qed.

Lemma for_policies_value n rv pi policies : forall acc (w : World Internals) data w',
  Forall (fun q => np.truth (Some q) = Ok false) policies ->
  for_policies C n rv pi None policies (acc, w) = Ok (data, w') ->
  same_value w w'.
Proof.
  induction policies as [|q policies IH]; intros acc w data w' Hall E;
    cbn [for_policies] in E; [by simplify_eq|].
  inversion Hall as [|? ? Hq Hrest]; subst.
  destruct (run_simulation C (Some q) n rv pi None w) as [[[o d] w1]|] eqn:E1;
    [|done]. cbn [mbind result_bind] in E.
  apply (run_simulation_value q n rv pi w o d w1 false Hq) in E1.
  apply IH in E; [|done]. by apply (same_value_trans _ w1).
Qed.

Lemma run_simulations_value pre p post (w : World Internals) data w' :
  np.truth (Some p) = Ok true ->
  Forall (fun q => np.truth (Some q) = Ok false) post ->
  run_simulations C (pre ++ p :: post) None w = Ok (data, w') ->
  value_begins_with p w'.
Proof.
  intros Hp Hpost. unfold run_simulations. intros E.
  destruct (before_simulations C w) as [[[[[pi n] rv] nv] w1]|]; [|done].
  cbn [mbind result_bind] in E.
  rewrite for_policies_app in E.
  destruct (for_policies C n rv pi None pre ([], w1)) as [[acc w2]|]; [|done].
  cbn [mbind result_bind for_policies] in E.
  destruct (run_simulation C (Some p) n rv pi None w2) as [[[o d] w3]|] eqn:E3;
    [|done]. cbn [mbind result_bind] in E.
  apply (run_simulation_value p n rv pi w2 o d w3 true Hp) in E3.
  destruct (for_policies C n rv pi None post _) as [[data4 w4]|] eqn:E4; [|done].
  cbn [mbind result_bind] in E.
  apply for_policies_value in E4; [|done].
  destruct (after_simulations C rv nv w4) as [w5|] eqn:E5; [|done].
  cbn [mbind result_bind] in E. simplify_eq.
  destruct Hvalue as (_ & _ & _ & Hafter). apply Hafter in E5.
  apply (same_value_begins p w4 w' E5). by apply (same_value_begins p w3 w4 E4).
Qed.

End controller_value.

(** C1 (amended).  When [composition.run] raises in a trial of the
    simulation of a candidate, the exception leaves [run_simulation],
    [run_simulations] and [_execute]: the search ends there, without a
    result. *)
Theorem simulation_failure_aborts_search
    {Internals ReinitializeValues NodeValues : Type}
    (C : Collaborators Internals ReinitializeValues NodeValues)
    (w : World Internals) (space pre post : list (list Q)) (p : list Q)
    (pi : option PredictedInput) (n : nat) (rv : ReinitializeValues)
    (nv : NodeValues) (w1 w2 w3 w4 w5 : World Internals)
    (acc : list Outcome) (b : bool) (eid : string) (i : nat)
    (o : list Outputs) (d : list other_item) (inputs : Inputs) (e : exn) :
  get_allocation_policies w = Ok space ->
  space = pre ++ p :: post ->
  before_simulations C (set_search_space space w) = Ok (pi, n, rv, nv, w1) ->
  for_policies C n rv pi None pre ([], w1) = Ok (acc, w2) ->
  np.truth (Some p) = Ok b ->
  (if b then apply_control_signal_values C p w2 else Ok w2) = Ok w3 ->
  _get_unique_id C w3 = (eid, w4) ->
  i < n ->
  for_trials (simulate_trial C rv pi None eid) (seq 0 i) ([], [], w4)
  = Ok (o, d, w5) ->
  trial_inputs pi i = Ok inputs ->
  composition_run C inputs rv eid
    (set_phases SIMULATION (map (fun _ => PROCESSING) (efferent_phases w5)) w5)
  = Raise e ->
  run_simulation C (Some p) n rv pi None w2 = Raise e /\
  run_simulations C space None (set_search_space space w) = Raise e /\
  _execute C w = Raise e.
Proof.
  intros Hspace Hsplit Hbefore Hpre Hb Happly Hid Hi Htrials Hinputs Hrun.
  assert (run_simulation C (Some p) n rv pi None w2 = Raise e) as Hsim
    by (eapply failing_trial_aborts_simulation; eauto).
  split; [done|]. eapply failing_simulation_aborts_search; eauto.
Qed.

Lemma simulation_failure_aborts_search_witness :
  _execute (Examples.agent (Some (9 # 10)%Q) id)
           (Examples.one_signal [1 # 2; 1]%Q)
  = Raise (Raised "agent failure").
Proof.
  set (C := Examples.agent (Some (9 # 10)%Q) id).
  set (w := Examples.one_signal [1 # 2; 1]%Q).
  set (w1 := set_search_space [[1 # 2]; [1]]%Q w).
  destruct (run_simulation C (Some [1 # 2]%Q) 1 tt
              (Some [("origin", [[1%Q]])]) None w1)
    as [[[o1 d1] w2]|] eqn:E1; [|by vm_compute in E1].
  destruct (apply_control_signal_values C [1%Q] w2) as [w3|] eqn:E3;
    [|by vm_compute in E1; simplify_eq; vm_compute in E3].
  refine (proj2 (proj2
    (simulation_failure_aborts_search C w [[1 # 2]; [1]]%Q [[1 # 2]%Q] [] [1%Q]
       (Some [("origin", [[1%Q]])]) 1 tt (Examples.node_values w1)
       w1 w2 w3 w3 w3 [([1 # 2]%Q, o1, d1)] true
       ("sim-" +:+ pretty (length (simulation_results w3))) 0 [] []
       [("origin", [1%Q])] (Raised "agent failure")
       eq_refl eq_refl eq_refl _ eq_refl E3 eq_refl _ eq_refl eq_refl _))).
  - cbn [for_policies]. by rewrite E1.
  - lia.
  - vm_compute in E1. simplify_eq. vm_compute in E3. by simplify_eq.
Defined.

(** C1, as claimed, fails: with an agent that raises above 0.9 and the
    samples 0.5 and 1, the candidate 0.5 is simulated, the candidate 1
    raises, and the search returns no policy at all. *)
Lemma failing_candidate_ends_search :
  is_Ok (run_simulation (Examples.agent (Some (9 # 10)%Q) id) (Some [1 # 2]%Q)
           1 tt (Some [("origin", [[1%Q]])]) None
           (Examples.one_signal [1 # 2; 1]%Q)) /\
  run_simulations (Examples.agent (Some (9 # 10)%Q) id) [[1 # 2]; [1]]%Q None
    (Examples.one_signal [1 # 2; 1]%Q) = Raise (Raised "agent failure") /\
  ~ exists best w',
      _execute (Examples.agent (Some (9 # 10)%Q) id)
               (Examples.one_signal [1 # 2; 1]%Q) = Ok (best, w').
Proof.
  split; [by vm_compute|]. split; [by vm_compute|].
  intros (best & w' & E). by vm_compute in E.
Qed.

(** C2 (amended).  [run_simulations] ends with
    [after_simulations(reinitialize_values, node_values)] on what
    [before_simulations] captured, and returns one outcome per candidate in
    the order given; it is not free of effects.  If the composition's own
    methods leave [simulation_results] alone, that list has gained one entry
    for every trial of every candidate, each the output values of the
    composition after a run.  And if they leave the controller's value
    alone, that value begins, after the call, with the last candidate that
    was applied (a candidate of zero is not). *)
Theorem simulations_leave_results_behind
    {Internals ReinitializeValues NodeValues : Type}
    (C : Collaborators Internals ReinitializeValues NodeValues)
    (policies : list (list Q)) (w w' w1 : World Internals)
    (data : list Outcome) (pi : option PredictedInput) (n : nat)
    (rv : ReinitializeValues) (nv : NodeValues) :
  keeps_simulation_results C ->
  before_simulations C w = Ok (pi, n, rv, nv, w1) ->
  run_simulations C policies None w = Ok (data, w') ->
  (exists new,
     simulation_results w' = simulation_results w ++ new /\
     length new = n * length policies /\
     Forall (output_of_a_run C rv) new) /\
  map (fun d : Outcome => d.1.1) data = policies /\
  (exists w_last, after_simulations C rv nv w_last = Ok w') /\
  (keeps_value C ->
   forall pre p post,
     policies = pre ++ p :: post ->
     np.truth (Some p) = Ok true ->
     Forall (fun q => np.truth (Some q) = Ok false) post ->
     exists v, current_value w' = Some v /\
               take (length p) v = map (fun x => [x]) p).
Proof.
  intros Hkeeps Hbefore Hrun.
  split; [by eapply run_simulations_appends|].
  destruct (run_simulations_results C Hkeeps _ _ _ _ _ _ _ _ _ Hbefore Hrun)
    as (_ & Hmap & Hafter).
  split; [done|]. split; [done|].
  intros Hvalue pre p post -> Hp Hpost.
  by eapply run_simulations_value.
Qed.

Lemma agent_keeps_simulation_results limit respond :
  keeps_simulation_results (Examples.agent limit respond).
Proof.
  repeat split; simpl.
  - by intros v w w' [= <-].
  - intros inputs rv eid w w' E. destruct limit as [l|].
    + destruct (Qlt_le_dec l (Examples.allocation w)); by simplify_eq.
    + by simplify_eq.
  - by intros w r w' [= <- <-].
  - by intros rv nv w w' [= <-].
Qed.

Lemma agent_keeps_value limit respond :
  keeps_value (Examples.agent limit respond).
Proof.
  split; [by intros v w w' [= <-]|]. split; [done|].
  split; [|by intros rv nv w w' [= <-]].
  intros inputs rv eid w w' E. simpl in E. destruct limit as [l|].
  - destruct (Qlt_le_dec l (Examples.allocation w)); by simplify_eq.
  - by simplify_eq.
Qed.

Lemma simulations_leave_results_behind_witness :
  (exists new,
     simulation_results
       (set_simulation_results [[[1 # 2]]; [[1]]]%Q
          (set_phases PROCESSING [PROCESSING]
             (set_value value_is_defaults [[1%Q]]
                (Examples.one_signal [1 # 2; 1]%Q))))
     = simulation_results (Examples.one_signal [1 # 2; 1]%Q) ++ new /\
     length new = 1 * 2 /\
     Forall (output_of_a_run (Examples.agent None id) tt) new) /\
  exists v,
    current_value
      (set_simulation_results [[[1 # 2]]; [[1]]]%Q
         (set_phases PROCESSING [PROCESSING]
            (set_value value_is_defaults [[1%Q]]
               (Examples.one_signal [1 # 2; 1]%Q)))) = Some v /\
    take 1 v = [[1%Q]].
Proof.
  assert (run_simulations (Examples.agent None id) [[1 # 2]; [1]]%Q None
            (Examples.one_signal [1 # 2; 1]%Q)
          = Ok ([([1 # 2], [[[1 # 2]]], [the_list_itself]);
                 ([1], [[[1]]], [the_list_itself])]%Q,
                set_simulation_results [[[1 # 2]]; [[1]]]%Q
                  (set_phases PROCESSING [PROCESSING]
                     (set_value value_is_defaults [[1%Q]]
                        (Examples.one_signal [1 # 2; 1]%Q))))) as Hrun
    by (vm_compute; reflexivity).
  destruct (simulations_leave_results_behind (Examples.agent None id)
       [[1 # 2]; [1]]%Q (Examples.one_signal [1 # 2; 1]%Q) _ _ _
       _ 1 tt _ (agent_keeps_simulation_results None id) eq_refl Hrun)
    as (Hnew & _ & _ & Hv).
  split; [exact Hnew|].
  apply (Hv (agent_keeps_value None id) [[1 # 2]%Q] [1%Q] []);
    [reflexivity|reflexivity|constructor].
Defined.

(** C2, as claimed, fails: after simulating the one candidate 1 with an
    agent whose node values and outputs [after_simulations] restores, the
    node values and the monitored outputs are as before, but
    [simulation_results], the controller's value (here the array of
    [instance_defaults], which it aliases) and the execution phase are
    not. *)
Lemma simulations_mutate_real_state :
  exists data w',
    run_simulations (Examples.agent None id) [[1%Q]] None
                    (Examples.one_signal [1%Q]) = Ok (data, w') /\
    internals w' = internals (Examples.one_signal [1%Q]) /\
    objective_mechanism_output_values w'
    = objective_mechanism_output_values (Examples.one_signal [1%Q]) /\
    simulation_results (Examples.one_signal [1%Q]) = [] /\
    simulation_results w' = [[[1%Q]]] /\
    current_value (Examples.one_signal [1%Q]) = None /\
    current_value w' = Some [[1%Q]] /\
    instance_defaults_value (Examples.one_signal [1%Q]) = [[0%Q]] /\
    instance_defaults_value w' = [[1%Q]] /\
    execution_phase (Examples.one_signal [1%Q]) = IDLE /\
    execution_phase w' = PROCESSING /\
    w' <> Examples.one_signal [1%Q].
Proof.
  eexists _, _. split; [by vm_compute|]. by repeat split.
Qed.

(** *** The grid search *)

Lemma running_maximum_first_seen (net_value : Outcome -> Q) rest : forall c,
  exists i,
    (c :: rest) !! i = Some (foldl (running_maximum net_value) c rest) /\
    forall j d, (c :: rest) !! j = Some d ->
      (net_value d <= net_value (foldl (running_maximum net_value) c rest))%Q /\
      (j < i ->
       (net_value d < net_value (foldl (running_maximum net_value) c rest))%Q).
Proof.
  induction rest as [|x rest IH] using rev_ind; intros c.
  - exists 0. split; [done|]. intros [|j] d Hd; simplify_eq/=.
    split; [apply Qle_refl|lia].
  - rewrite foldl_app. simpl.
    destruct (IH c) as (i & Hi & Hmax).
    set (best := foldl (running_maximum net_value) c rest) in *.
    assert (i < length (c :: rest)) as Hlt by (by apply lookup_lt_Some in Hi).
    unfold running_maximum.
    destruct (Qlt_le_dec (net_value best) (net_value x)) as [Hx|Hx].
    + exists (length (c :: rest)). split.
      { change (c :: rest ++ [x]) with ((c :: rest) ++ [x]).
        by rewrite lookup_app_r, Nat.sub_diag by lia. }
      intros j d Hd. change (c :: rest ++ [x]) with ((c :: rest) ++ [x]) in Hd.
      apply lookup_app_Some in Hd as [Hd|[Hj Hd]].
      * destruct (Hmax j d Hd) as [Hle _].
        split; [|intros _]; [apply Qlt_le_weak|]; by eapply Qle_lt_trans.
      * apply list_lookup_singleton_Some in Hd as [_ <-].
        split; [apply Qle_refl|lia].
    + exists i. split.
      { change (c :: rest ++ [x]) with ((c :: rest) ++ [x]).
        by rewrite lookup_app_l. }
      intros j d Hd. change (c :: rest ++ [x]) with ((c :: rest) ++ [x]) in Hd.
      apply lookup_app_Some in Hd as [Hd|[Hj Hd]]; [by apply Hmax|].
      apply list_lookup_singleton_Some in Hd as [_ <-].
      split; [done|lia].
Qed.

Lemma for_policies_order {Internals ReinitializeValues NodeValues : Type}
    (C : Collaborators Internals ReinitializeValues NodeValues)
    n rv pi cas policies : forall acc w data w',
  for_policies C n rv pi cas policies (acc, w) = Ok (data, w') ->
  map (fun d : Outcome => d.1.1) data = map (fun d : Outcome => d.1.1) acc ++ policies.
Proof.
  induction policies as [|p policies IH]; intros acc w data w' E;
    cbn [for_policies] in E.
  - simplify_eq. by rewrite app_nil_r.
  - destruct (run_simulation C (Some p) n rv pi cas w) as [[[o d] w1]|] eqn:E1;
      [|done]. cbn [mbind result_bind] in E.
    apply IH in E. rewrite E, map_app. simpl. by rewrite <- app_assoc.
Qed.

Lemma run_simulations_order {Internals ReinitializeValues NodeValues : Type}
    (C : Collaborators Internals ReinitializeValues NodeValues)
    policies cas w data w' :
  run_simulations C policies cas w = Ok (data, w') ->
  map (fun d : Outcome => d.1.1) data = policies.
Proof.
  unfold run_simulations. intros E.
  destruct (before_simulations C w) as [[[[[pi n] rv] nv] w1]|]; [|done].
  cbn [mbind result_bind] in E.
  destruct (for_policies C n rv pi cas policies ([], w1)) as [[data1 w2]|] eqn:E1;
    [|done]. cbn [mbind result_bind] in E.
  destruct (after_simulations C rv nv w2) as [w3|]; [|done].
  cbn [mbind result_bind] in E. simplify_eq.
  by apply for_policies_order in E1.
Qed.

(** What [_execute] returns with the grid search: the first candidate, in
    the order of [get_allocation_policies], whose net value no other
    exceeds. *)
Lemma execute_first_maximum {Internals ReinitializeValues NodeValues : Type}
    (C : Collaborators Internals ReinitializeValues NodeValues)
    (net_value : Outcome -> Q) (w w' : World Internals) (p : list Q) :
  (forall data w0, function C data w0
     = (p ← ControlSignalGridSearch2 net_value data; Ok (p, w0))) ->
  _execute C w = Ok (p, w') ->
  exists space values i vi,
    get_allocation_policies w = Ok space /\
    net_values C net_value w = Ok values /\
    length values = length space /\
    space !! i = Some p /\
    values !! i = Some vi /\
    forall j v, values !! j = Some v -> (v <= vi)%Q /\ (j < i -> (v < vi)%Q).
Proof.
  intros Hf. unfold _execute, net_values.
  destruct (get_allocation_policies w) as [space|]; [|done].
  cbn [mbind result_bind].
  destruct (run_simulations C space None (set_search_space space w))
    as [[data w1]|] eqn:Esims; [|done].
  cbn [mbind result_bind]. rewrite Hf.
  apply run_simulations_order in Esims as Horder.
  unfold ControlSignalGridSearch2. destruct data as [|c rest]; [done|].
  cbn [mbind result_bind]. intros [= <- <-].
  destruct (running_maximum_first_seen net_value rest c) as (i & Hi & Hmax).
  set (best := foldl (running_maximum net_value) c rest) in *.
  exists space, (map net_value (c :: rest)), i, (net_value best).
  split; [done|]. split; [done|]. split; [by rewrite <- Horder, !length_map|].
  split; [by rewrite <- Horder, list_lookup_fmap, Hi|].
  split; [by rewrite list_lookup_fmap, Hi|].
  intros j v Hv. rewrite list_lookup_fmap in Hv.
  destruct ((c :: rest) !! j) as [d|] eqn:Hd; [|done]. simplify_eq/=.
  by apply Hmax.
Qed.

(** C6.  With the grid search as the spec has it, two executions of the
    controller for the same ControlSignals in which the agent
    representation yields the same net values return the same policy: the
    first candidate, in the order of [get_allocation_policies], whose net
    value is maximal. *)
Theorem grid_search_deterministic_first_seen
    {Internals ReinitializeValues NodeValues : Type}
    (C : Collaborators Internals ReinitializeValues NodeValues)
    (net_value : Outcome -> Q) (w1 w2 w1' w2' : World Internals)
    (p1 p2 : list Q) :
  (forall data w0, function C data w0
     = (p ← ControlSignalGridSearch2 net_value data; Ok (p, w0))) ->
  control_signals w1 = control_signals w2 ->
  net_values C net_value w1 = net_values C net_value w2 ->
  _execute C w1 = Ok (p1, w1') ->
  _execute C w2 = Ok (p2, w2') ->
  p1 = p2 /\
  exists space values i vi,
    get_allocation_policies w1 = Ok space /\
    net_values C net_value w1 = Ok values /\
    length values = length space /\
    space !! i = Some p1 /\
    values !! i = Some vi /\
    forall j v, values !! j = Some v -> (v <= vi)%Q /\ (j < i -> (v < vi)%Q).
Proof.
  intros Hf Hcs Hnv E1 E2.
  pose proof (execute_first_maximum C net_value w1 w1' p1 Hf E1) as H1.
  split; [|done].
  destruct H1 as (space & values & i & vi & Hs & Hv & _ & Hp & Hvi & Hmax).
  destruct (execute_first_maximum C net_value w2 w2' p2 Hf E2)
    as (space' & values' & i' & vi' & Hs' & Hv' & _ & Hp' & Hvi' & Hmax').
  assert (space' = space) as ->.
  { unfold get_allocation_policies in Hs, Hs'. rewrite Hcs in Hs. congruence. }
  assert (values' = values) as -> by congruence.
  assert (i = i') as ->; [|congruence].
  destruct (Hmax i' vi' Hvi') as [Hle Hlt].
  destruct (Hmax' i vi Hvi) as [Hle' Hlt'].
  destruct (Nat.lt_trichotomy i i') as [Hii|[Hii|Hii]]; [|done|].
  - exfalso. apply Hlt' in Hii. by apply Qlt_not_le in Hii.
  - exfalso. apply Hlt in Hii. by apply Qlt_not_le in Hii.
Qed.

(** C6, as claimed, fails on the code.  [run_simulation] applies the
    candidate only [if allocation_policy:], and the candidate that allocates
    zero is false; it is simulated under the allocation the controller was
    left with.  With the samples 0 and 1 and an agent whose outcome is the
    allocation in force, a first execution finds the net values 0 and 1 and
    returns 1; the second, in the state the first has left, finds 1 and 1
    and returns the first of the two, 0.  With the samples 0, 1 and 2 and
    an outcome that is minus the allocation no tie is involved: the
    executions return 0 and then 1. *)
Theorem zero_candidate_breaks_determinism :
  (exists w' w'',
      _execute (Examples.agent None id) (Examples.one_signal [0; 1]%Q)
      = Ok ([1%Q], w') /\
      _execute (Examples.agent None id) w' = Ok ([0%Q], w'') /\
      control_signals w' = control_signals (Examples.one_signal [0; 1]%Q) /\
      net_values (Examples.agent None id) Examples.first_outcome
        (Examples.one_signal [0; 1]%Q) = Ok [0; 1]%Q /\
      net_values (Examples.agent None id) Examples.first_outcome w'
      = Ok [1; 1]%Q) /\
  (exists w' w'',
      _execute (Examples.agent None Qopp) (Examples.one_signal [0; 1; 2]%Q)
      = Ok ([0%Q], w') /\
      _execute (Examples.agent None Qopp) w' = Ok ([1%Q], w'') /\
      control_signals w' = control_signals (Examples.one_signal [0; 1; 2]%Q)) /\
  np.truth (Some [0%Q]) = Ok false.
Proof.
  split; [|split; [|reflexivity]].
  - eexists _, _. split; [vm_compute; reflexivity|].
    split; [vm_compute; reflexivity|]. split; [reflexivity|].
    split; vm_compute; reflexivity.
  - eexists _, _. split; [vm_compute; reflexivity|].
    split; [vm_compute; reflexivity|]. reflexivity.
Qed.

End ControllerProps.

(** ** lvoccontrolmechanism.py: gradient ascent *)

Module LVOCProps.
Import LVOC.

(** *** Slices and views *)

Lemma lookup_get_slice s (v : list Q) i :
  i < stop s - start s -> get_slice s v !! i = v !! (start s + i).
Proof. intros Hi. unfold get_slice. by rewrite lookup_take_lt, lookup_drop. Qed.

Lemma lookup_get_slice_Some s (v : list Q) i x :
  get_slice s v !! i = Some x -> v !! (start s + i) = Some x /\ i < stop s - start s.
Proof.
  unfold get_slice. intros H.
  apply lookup_take_Some in H as [H Hi]. by rewrite lookup_drop in H.
Qed.

Lemma length_get_slice s (v : list Q) :
  length (get_slice s v) = (stop s - start s) `min` (length v - start s).
Proof. unfold get_slice. by rewrite length_take, length_drop. Qed.

Lemma take_clip n (l : list Q) : take n l = take (n `min` length l) l.
Proof.
  destruct (decide (n <= length l)) as [Hle|Hle].
  - by rewrite Nat.min_l.
  - rewrite Nat.min_r by lia. by rewrite !take_ge by lia.
Qed.

Lemma set_slice_self s v : set_slice s (get_slice s v) v = Ok v.
Proof.
  unfold set_slice. rewrite decide_True by done. f_equal.
  rewrite length_get_slice. unfold get_slice.
  rewrite (take_clip (stop s - start s)), length_drop.
  by rewrite <- drop_drop, !take_drop.
Qed.

Lemma set_slice_length s xs v v' :
  set_slice s xs v = Ok v' -> length v' = length v.
Proof.
  unfold set_slice. rewrite length_get_slice.
  repeat case_decide; intros E; simplify_eq;
    rewrite !length_app, ?length_replicate, length_take, length_drop; lia.
Qed.

Lemma set_slice_lookup_after s xs v v' t :
  set_slice s xs v = Ok v' ->
  start s <= length v ->
  start s + length (get_slice s v) <= t ->
  v' !! t = v !! t.
Proof.
  unfold set_slice. intros E Hs Ht. revert Ht.
  set (n := length (get_slice s v)) in *. intros Ht.
  assert (forall ys : list Q, length ys = n ->
            (take (start s) v ++ ys ++ drop (start s + n) v) !! t = v !! t) as H.
  { intros ys Hys.
    rewrite lookup_app_r by (rewrite length_take; lia).
    rewrite lookup_app_r by (rewrite length_take; lia).
    rewrite lookup_drop, length_take. f_equal. lia. }
  repeat case_decide; simplify_eq; apply H; [done|by rewrite length_replicate].
Qed.

Lemma set_slice_lookup_before s xs v v' t :
  set_slice s xs v = Ok v' -> t < start s -> v' !! t = v !! t.
Proof.
  unfold set_slice. intros E Ht.
  destruct (decide (t < length v)) as [Hl|Hl].
  - repeat case_decide; simplify_eq;
      rewrite lookup_app_l by (rewrite length_take; lia);
      by rewrite lookup_take_lt.
  - apply set_slice_length in E as Hlen.
    by rewrite !lookup_ge_None_2 by lia.
Qed.

Lemma getitem_Ok {B} (l : list B) i x : getitem l i = Ok x <-> l !! i = Some x.
Proof. unfold getitem. destruct (l !! i); split; intros; by simplify_eq. Qed.

Lemma mapM_Ok_lookup {A B} (f : A -> result B) l : forall r i x,
  mapM f l = Ok r -> l !! i = Some x ->
  exists y, f x = Ok y /\ r !! i = Some y.
Proof.
  induction l as [|a l IH]; intros r i x E Hx; [done|].
  cbn [mapM] in E.
  destruct (f a) as [b|] eqn:Ea; [|done]. cbn [mbind result_bind] in E.
  destruct (mapM f l) as [r'|] eqn:El; [|done]. cbn [mbind result_bind] in E.
  unfold mret, result_ret in E. simplify_eq.
  destruct i as [|i]; simplify_eq/=; eauto.
Qed.

Lemma broadcast1_same_length f xs ys :
  length xs = length ys -> broadcast1 f xs ys = Ok (zip_with f xs ys).
Proof.
  intros Hlen. unfold broadcast1.
  assert (zip_same f xs ys = Ok (zip_with f xs ys)) as Hzip.
  { revert ys Hlen. induction xs as [|x xs IH]; intros [|y ys] Hlen;
      simplify_eq/=; [done|]. by rewrite IH. }
  destruct xs as [|x [|x' xs]], ys as [|y [|y' ys]]; simplify_eq/=; done.
Qed.

(** Case analysis on the first computation of a sequence that succeeded. *)
Ltac bind_Ok E H :=
  match type of E with
  | (?m ≫= _) = Ok _ =>
      let a := fresh "a" in
      destruct m as [a|] eqn:H; cbn [mbind result_bind] in E; [|done]
  end.

Section well_formed.
Variable fp : FloatingPoint.
Variable self : LVOCControlMechanism.
Variable control_signals : list ControlSignal.
Variable prediction_weights : list Q.
Variables p k : nat.

Hypothesis Hp : num_predictors self = p.
Hypothesis Hk : num_control_signals self = k.
Hypothesis Hcosts : num_costs self = k.
Hypothesis Hintrxn : intrxn self = {| start := p; stop := p + p * k |}.
Hypothesis Hctl : ctl self = {| start := p + p * k; stop := p + p * k + k |}.
Hypothesis Hcst : cst self = {| start := p + p * k + k; stop := p + p * k + k + k |}.

#[local] Abbreviation len := (p + p * k + k + k).
#[local] Abbreviation c0 := (p + p * k).

(** One round of the inner loop writes item [i] of the two views. *)
Lemma update_control_signal_spec cost_weights i g cg pv g' cg' pv' :
  length pv = len ->
  update_control_signal self control_signals cost_weights i (g, cg, pv)
  = Ok (g', cg', pv') ->
  exists x cs d cw gi cost,
    i < k /\
    pv !! (c0 + i) = Some x /\ control_signals !! i = Some cs /\
    derivative cs x = Ok d /\ cost_weights !! i = Some cw /\
    g !! i = Some gi /\
    g' = <[i := (gi + - (d * cw))%Q]> g /\
    pv' = <[c0 + k + i := (- cost)%Q]>
            (<[c0 + i := (x + udpate_rate self * (gi + - (d * cw)))%Q]> pv).
Proof.
  intros Hlen. unfold update_control_signal. intros E.
  destruct (getitem (get_slice (ctl self) pv) i) as [x|] eqn:Ex; [|done].
  cbn [mbind result_bind] in E.
  destruct (getitem control_signals i) as [cs|] eqn:Ecs; [|done].
  cbn [mbind result_bind] in E.
  destruct (derivative cs x) as [d|] eqn:Ed; [|done].
  cbn [mbind result_bind] in E.
  destruct (getitem cost_weights i) as [cw|] eqn:Ecw; [|done].
  cbn [mbind result_bind] in E.
  destruct (Controller.setitem i (- (d * cw))%Q cg) as [cg1|] eqn:Ecg; [|done].
  cbn [mbind result_bind] in E.
  destruct (getitem g i) as [gi|] eqn:Eg; [|done].
  cbn [mbind result_bind] in E.
  apply getitem_Ok in Ex, Ecs, Ecw, Eg.
  apply lookup_get_slice_Some in Ex as [Ex Hi].
  rewrite Hctl in Ex, Hi. simpl in Ex, Hi.
  unfold set_view_item in E. rewrite length_get_slice, Hctl in E. simpl in E.
  rewrite decide_True in E by lia. cbn [mbind result_bind] in E.
  destruct (intensity_cost_function cs x) as [cost|] eqn:Ecost; [|done].
  cbn [mbind result_bind] in E.
  rewrite length_get_slice, Hcst, length_insert in E. simpl in E.
  rewrite decide_True in E by lia. cbn [mbind result_bind] in E.
  simplify_eq. exists x, cs, d, cw, gi, cost.
  split; [lia|]. by repeat split.
Qed.

Lemma for_control_signals_spec cost_weights n : forall m g cg pv g' cg' pv',
  m + n <= k ->
  length pv = len ->
  for_control_signals self control_signals cost_weights (seq m n) (g, cg, pv)
  = Ok (g', cg', pv') ->
  length pv' = len /\
  (forall t, t < c0 -> pv' !! t = pv !! t) /\
  (forall i, i < m -> pv' !! (c0 + i) = pv !! (c0 + i)) /\
  (forall i, m + n <= i -> i < k -> pv' !! (c0 + i) = pv !! (c0 + i)) /\
  (forall i x cs d cw gi,
      m <= i < m + n ->
      pv !! (c0 + i) = Some x -> control_signals !! i = Some cs ->
      derivative cs x = Ok d -> cost_weights !! i = Some cw ->
      g !! i = Some gi ->
      pv' !! (c0 + i) = Some (x + udpate_rate self * (gi + - (d * cw)))%Q).
Proof.
  induction n as [|n IH]; intros m g cg pv g' cg' pv' Hmn Hlen E.
  { cbn [seq for_control_signals] in E. simplify_eq.
    repeat split; try done. intros; lia. }
  cbn [seq for_control_signals] in E.
  destruct (update_control_signal self control_signals cost_weights m (g, cg, pv))
    as [[[g1 cg1] pv1]|] eqn:Estep; [|done].
  cbn [mbind result_bind] in E.
  apply update_control_signal_spec in Estep
    as (x & cs & d & cw & gi & cost & Hm & Hx & Hcs & Hd & Hcw & Hg & -> & ->);
    [|done].
  apply IH in E as (Hlen' & Hlow & Hbefore & Hafter & Hin);
    [|lia|by rewrite !length_insert].
  split; [done|]. split; [|split; [|split]].
  - intros t Ht. rewrite Hlow by done.
    by rewrite !list_lookup_insert_ne by lia.
  - intros i Hi. rewrite Hbefore by lia.
    by rewrite !list_lookup_insert_ne by lia.
  - intros i Hi Hik. rewrite Hafter by lia.
    by rewrite !list_lookup_insert_ne by lia.
  - intros i x' cs' d' cw' gi' Hi Hx' Hcs' Hd' Hcw' Hg'.
    destruct (decide (i = m)) as [->|Hne].
    + assert (x' = x) as -> by congruence.
      assert (cs' = cs) as -> by congruence.
      assert (d' = d) as -> by congruence.
      assert (cw' = cw) as -> by congruence.
      assert (gi' = gi) as -> by congruence.
      rewrite Hbefore by lia.
      rewrite list_lookup_insert_ne by lia.
      apply lookup_lt_Some in Hx.
      by rewrite list_lookup_insert_eq by lia.
    + apply (Hin i x' cs' d' cw' gi' ltac:(lia)); try done.
      * by rewrite !list_lookup_insert_ne by lia.
      * by rewrite list_lookup_insert_ne by lia.
Qed.

(** A round of the loop keeps the length of [prediction_vector], leaves the
    predictors in place, and moves every control signal value along its
    gradient. *)
Lemma round_spec gradient_constants cost_weights st st' cur :
  length (prediction_vector st) = len ->
  round fp self control_signals prediction_weights gradient_constants cost_weights st
  = Ok (st', cur) ->
  length (prediction_vector st') = len /\
  (forall t, t < p -> prediction_vector st' !! t = prediction_vector st !! t) /\
  (forall i x cs d cw gi,
      i < k ->
      prediction_vector st !! (c0 + i) = Some x -> control_signals !! i = Some cs ->
      derivative cs x = Ok d -> cost_weights !! i = Some cw ->
      gradient_constants !! i = Some gi ->
      prediction_vector st' !! (c0 + i)
      = Some (x + udpate_rate self * (gi + - (d * cw)))%Q).
Proof.
  intros Hlen. unfold round. intros E.
  rewrite length_get_slice, Hlen in E.
  replace ((stop (ctl self) - start (ctl self)) `min` (len - start (ctl self)))
    with k in E by (rewrite Hctl; simpl; lia).
  bind_Ok E Eloop. destruct a as [[g1 cg1] pv1].
  apply for_control_signals_spec in Eloop as (Hlen1 & Hlow & _ & _ & Hin);
    [|lia|done].
  bind_Ok E Ecolumn. bind_Ok E E2. rename a0 into pv2.
  rewrite set_slice_self in E. cbn [mbind result_bind] in E.
  rewrite set_slice_self in E. cbn [mbind result_bind] in E.
  bind_Ok E Elvoc. injection E as <- <-. cbn [prediction_vector].
  split; [by rewrite (set_slice_length _ _ _ _ E2)|]. split.
  - intros t Ht.
    rewrite (set_slice_lookup_before _ _ _ _ t E2) by (rewrite Hintrxn; simpl; lia).
    apply Hlow. lia.
  - intros i x cs d cw gi Hi Hx Hcs Hd Hcw Hg.
    rewrite (set_slice_lookup_after _ _ _ _ (c0 + i) E2).
    + apply (Hin i x cs d cw gi); try done. lia.
    + rewrite Hintrxn. simpl. lia.
    + rewrite length_get_slice, Hintrxn, Hlen1. simpl. lia.
Qed.

Lemma rounds_spec gradient_constants cost_weights n : forall st st_n,
  length (prediction_vector st) = len ->
  rounds fp self control_signals prediction_weights gradient_constants cost_weights n st
  = Ok st_n ->
  length (prediction_vector st_n) = len /\
  (forall t, t < p -> prediction_vector st_n !! t = prediction_vector st !! t).
Proof.
  induction n as [|n IH]; intros st st_n Hlen E; cbn [rounds] in E.
  { by simplify_eq. }
  destruct (round _ _ _ _ _ _ st) as [[st1 cur]|] eqn:E1; [|done].
  cbn [mbind result_bind] in E.
  apply round_spec in E1 as (Hlen1 & Hpred & _); [|done].
  apply IH in E as (Hlen_n & Hpred_n); [|done].
  split; [done|]. intros t Ht. rewrite Hpred_n by done. by apply Hpred.
Qed.

(** What [setup] computes: the constant part of every gradient. *)
Lemma setup_spec pv gradient_constants cost_weights :
  length prediction_weights = len ->
  setup self prediction_weights pv = Ok (gradient_constants, cost_weights) ->
  cost_weights = get_slice (cst self) prediction_weights /\
  forall i wc rows wi,
    i < k ->
    get_slice (ctl self) prediction_weights !! i = Some wc ->
    reshape (get_slice (intrxn self) prediction_weights) k p = Ok rows ->
    rows !! i = Some wi ->
    length (take p pv) = p ->
    gradient_constants !! i = Some (wc + Qsum (zip_with Qmult wi (take p pv)))%Q.
Proof.
  intros Hlenw. unfold setup. rewrite Hp, Hk. intros E.
  bind_Ok E Erows. rename a into rows.
  bind_Ok E Emul. rename a into iwxp.
  bind_Ok E Egc. rename a into gc. injection E as <- <-. split; [done|].
  intros i wc rows' wi Hi Hwc [= <-] Hwi Hpred.
  unfold gradient_constants_of in Egc. rewrite Hk in Egc.
  destruct (mapM_Ok_lookup _ _ _ i i Egc) as (y & Hy & ->).
  { by apply lookup_seq_lt. }
  f_equal.
  rewrite (proj2 (getitem_Ok _ _ _) Hwc) in Hy. cbn [mbind result_bind] in Hy.
  bind_Ok Hy Erow. rename a into row. injection Hy as <-. do 2 f_equal.
  apply getitem_Ok in Erow.
  unfold mul_rows in Emul. case_decide; [|done].
  destruct (mapM_Ok_lookup _ _ _ i wi Emul Hwi) as (row' & Hrow' & Hrow'').
  assert (row' = row) as -> by congruence.
  unfold get_slice in Hrow', Hpred |- *. cbn [start stop] in *.
  rewrite Nat.sub_0_r, drop_0 in *.
  rewrite broadcast1_same_length in Hrow'; [by injection Hrow' as <-|].
  unfold reshape in Erows. case_decide as Hlen_int; [|done].
  injection Erows as <-.
  apply list_lookup_fmap_Some in Hwi as (r & -> & Hr).
  apply lookup_seq in Hr as [-> Hr]. cbn [Nat.add].
  rewrite Hpred, length_take, length_drop, Hlen_int. nia.
Qed.

End well_formed.
Section loop.
Variable fp : FloatingPoint.
Variable self : LVOCControlMechanism.
Variable control_signals : list ControlSignal.
Variable prediction_weights : list Q.
Variables gradient_constants cost_weights : list Q.

#[local] Abbreviation round_ := (round fp self control_signals prediction_weights
                      gradient_constants cost_weights).
#[local] Abbreviation rounds_ := (rounds fp self control_signals prediction_weights
                       gradient_constants cost_weights).
#[local] Abbreviation while_loop_ := (while_loop fp self control_signals prediction_weights
                           gradient_constants cost_weights).

Lemma round_j st st' cur : round_ st = Ok (st', cur) -> j st' = S (j st).
Proof.
  unfold round. intros E.
  repeat (match type of E with
          | (?m ≫= _) = _ => destruct m as [?|?]; [|done]; cbn [mbind result_bind] in E
          | (let '(_, _) := ?x in _) = _ => destruct x
          end).
  by simplify_eq.
Qed.


End loop.


(** *** A mechanism that is laid out returns *)


Section returns.
Variable fp : FloatingPoint.
Variable self : LVOCControlMechanism.
Variable control_signals : list ControlSignal.
Variable prediction_weights : list Q.
Variables p k : nat.

Hypothesis Hp : num_predictors self = p.
Hypothesis Hk : num_control_signals self = k.
Hypothesis Hcosts : num_costs self = k.
Hypothesis Hpred : pred self = {| start := 0; stop := p |}.
Hypothesis Hintrxn : intrxn self = {| start := p; stop := p + p * k |}.
Hypothesis Hctl : ctl self = {| start := p + p * k; stop := p + p * k + k |}.
Hypothesis Hcst : cst self = {| start := p + p * k + k; stop := p + p * k + k + k |}.
Hypothesis Hsignals : length control_signals = k.
Hypothesis Htotal : Forall total control_signals.
Hypothesis Hweights : length prediction_weights = p + p * k + k + k.

#[local] Abbreviation len := (p + p * k + k + k).







End returns.


(** The rounding of binary64 at some numbers: 0.1 and 1/3 are not
    binary64 numbers; [1 + 2^-52] is one; [2 + 2^-52] and [4 + 2^-52] lie
    between two and are rounded down; what is halfway between the largest
    number and [2^1024] is an infinity. *)
Example binary64_values :
  binary64 (1 # 10) = Finite (3602879701896397 # 36028797018963968) /\
  binary64 (1 # 3) = Finite (6004799503160661 # 18014398509481984) /\
  binary64 (1 + Examples.epsilon) = Finite (4503599627370497 # 4503599627370496) /\
  binary64 (2 + Examples.epsilon) = Finite 2 /\
  binary64 (4 + Examples.epsilon) = Finite 4 /\
  binary64 (2 ^ 1024 - 2 ^ 970) = PosInf /\
  binary64 (- 3) = Finite (- 3).
Proof. repeat split; by vm_compute. Qed.



(** The run of that instance: six rounds, none of which converges; the
    value 2.3 reached last is returned, with the warning. *)
Example gradient_ascent_gives_up :
  exists v pv,
    gradient_ascent binary64_arithmetic Examples.epsilon Examples.huge
      (Examples.lvoc Examples.free_intensity) [Examples.free_intensity]
      Examples.weights 6 Examples.predictions
    = Some (Ok ([v], pv, ["lvoc failed to converge after 5 iterations"])) /\
    (v == 23 # 10)%Q /\
    gradient_ascent binary64_arithmetic Examples.epsilon Examples.huge
      (Examples.lvoc Examples.free_intensity) [Examples.free_intensity]
      Examples.weights 5 Examples.predictions = None.
Proof. eexists _, _. split; [by vm_compute|]. by split. Qed.


(** C5.  In every round of [gradient_ascent], each control signal value
    moves by [udpate_rate] times its gradient: the weight of the control
    signal, plus the sum of its interaction weights times the predictors,
    minus the derivative of its intensity cost at the current value times
    its cost weight. *)
Theorem gradient_step (fp : FloatingPoint) (EPSILON float128_max : Q)
    (name : string) (convergence_criterion : Q) (max_iterations : Z)
    (udpate_rate : Q) (predictor_values : list Q)
    (control_signals : list ControlSignal)
    (prediction_weights prediction_vector gc cw : list Q)
    (n : nat) (st st' : loop_state) (cur : Q)
    (i : nat) (cs : ControlSignal) (x d wc wcost : Q)
    (rows : list (list Q)) (wi : list Q) :
  let self := (instantiate name convergence_criterion max_iterations udpate_rate
                 predictor_values control_signals).1 in
  let p := length predictor_values in
  let k := length control_signals in
  length prediction_vector = p + p * k + k + k ->
  length prediction_weights = p + p * k + k + k ->
  setup self prediction_weights prediction_vector = Ok (gc, cw) ->
  rounds fp self control_signals prediction_weights gc cw n
    (initial_state fp EPSILON float128_max self prediction_vector) = Ok st ->
  round fp self control_signals prediction_weights gc cw st = Ok (st', cur) ->
  control_signals !! i = Some cs ->
  get_slice (ctl self) (LVOC.prediction_vector st) !! i = Some x ->
  derivative cs x = Ok d ->
  get_slice (ctl self) prediction_weights !! i = Some wc ->
  reshape (get_slice (intrxn self) prediction_weights) k p = Ok rows ->
  rows !! i = Some wi ->
  get_slice (cst self) prediction_weights !! i = Some wcost ->
  get_slice (ctl self) (LVOC.prediction_vector st') !! i
  = Some (x + udpate_rate *
              (wc + Qsum (zip_with Qmult wi
                            (get_slice (pred self) (LVOC.prediction_vector st)))
               - d * wcost))%Q.
Proof.
  intros self p k Hlen Hlenw Hsetup Hrounds Hround Hcs Hx Hd Hwc Hrows Hwi Hwcost.
  assert (i < k) as Hi by (by apply lookup_lt_Some in Hcs).
  destruct (rounds_spec fp self control_signals prediction_weights p k
              eq_refl eq_refl eq_refl eq_refl eq_refl eq_refl
              gc cw n (initial_state fp EPSILON float128_max self prediction_vector)
              st Hlen Hrounds) as [Hlen_st Hpred].
  destruct (round_spec fp self control_signals prediction_weights p k
              eq_refl eq_refl eq_refl eq_refl eq_refl eq_refl
              gc cw _ _ _ Hlen_st Hround)
    as (Hlen_st' & _ & Hstep).
  destruct (setup_spec self prediction_weights p k eq_refl eq_refl eq_refl
              prediction_vector gc cw Hlenw Hsetup) as [-> Hgc].
  rewrite lookup_get_slice by (simpl; lia).
  apply lookup_get_slice_Some in Hx as [Hx _].
  assert (get_slice (pred self) (LVOC.prediction_vector st) = take p prediction_vector)
    as ->.
  { unfold get_slice. simpl. rewrite Nat.sub_0_r, drop_0. fold p.
    apply list_eq. intros t. destruct (decide (t < p)) as [Ht|Ht].
    - rewrite !lookup_take_lt by done. by apply Hpred.
    - by rewrite !lookup_take_ge by lia. }
  apply (Hstep i x cs d wcost); try done.
  apply (Hgc i wc rows wi); try done.
  rewrite length_take. simpl in Hlen. lia.
Qed.

Lemma gradient_step_witness :
  exists st' cur,
    round binary64_arithmetic (Examples.lvoc Examples.quadratic_cost) [Examples.quadratic_cost]
      Examples.weights [(1 + Qsum [1 * 2])%Q] [1%Q]
      (initial_state binary64_arithmetic Examples.epsilon Examples.huge
         (Examples.lvoc Examples.quadratic_cost) Examples.predictions)
    = Ok (st', cur) /\
    get_slice (ctl (Examples.lvoc Examples.quadratic_cost))
      (LVOC.prediction_vector st') !! 0
    = Some ((1 # 2) + (1 # 10) *
              (1 + Qsum (zip_with Qmult [1] [2]) - (2 * (1 # 2)) * 1))%Q.
Proof.
  eexists _, _. split; [reflexivity|].
  eapply (gradient_step binary64_arithmetic Examples.epsilon Examples.huge
           "lvoc" (1 # 100) 5 (1 # 10)
           [2%Q] [Examples.quadratic_cost] Examples.weights Examples.predictions
           [(1 + Qsum [1 * 2])%Q] [1%Q] 0
           (initial_state binary64_arithmetic Examples.epsilon Examples.huge
              (Examples.lvoc Examples.quadratic_cost) Examples.predictions)
           _ _ 0 Examples.quadratic_cost (1 # 2) (2 * (1 # 2)) 1 1 [[1%Q]] [1%Q]);
    reflexivity.
Defined.

End LVOCProps.

(** ** controller.py: the order of the grid *)

Module GridOrder.
Import np.
Import GridProps.

Section order.
Context {A : Type} `{Inhabited A}.

Lemma bind_cons_singleton {B} (i : B) (l : list (list B)) :
  (ix ← l; [i :: ix]) = map (cons i) l.
Proof. induction l as [|x l IH]; [done|]. csimpl. by rewrite IH. Qed.

Lemma seq_blocks {B} (f : nat -> B) n d :
  map f (seq 0 (d * n)) = i ← seq 0 d; map (fun m => f (i * n + m)) (seq 0 n).
Proof.
  induction d as [|d IH]; [done|].
  replace (S d * n) with (d * n + n) by lia.
  rewrite seq_app, map_app, IH, seq_S, bind_app. f_equal.
  csimpl. rewrite app_nil_r.
  replace (seq (d * n) n) with ((Nat.add (d * n)) <$> seq 0 n)
    by (rewrite fmap_add_seq; f_equal; lia).
  by rewrite map_map.
Qed.

Lemma unravel_all_indices s :
  map (unravel s) (seq 0 (size s)) = all_indices s.
Proof.
  induction s as [|d s IH]; [done|].
  cbn [size foldr]. fold (size s). rewrite seq_blocks.
  cbn [all_indices]. apply list_bind_ext; [|done]. intros i.
  rewrite bind_cons_singleton, <- IH, map_map.
  apply map_ext_in. intros m Hm%list_elem_of_In%elem_of_seq.
  cbn [unravel]. f_equal.
  - rewrite Nat.div_add_l by lia. rewrite Nat.div_small by lia. lia.
  - f_equal. rewrite Nat.add_comm, Nat.Div0.mod_add. apply Nat.mod_small. lia.
Qed.

Lemma swap01_zip_with {B C D} (f : B -> C -> D) l k :
  length l = length k ->
  swap01 (zip_with f l k) = zip_with f (swap01 l) (swap01 k).
Proof. destruct l as [|a [|b l]], k as [|c [|d k]]; simpl; by try done. Qed.

Lemma reverse_zip_with {B C D} (f : B -> C -> D) l : forall k,
  length l = length k ->
  reverse (zip_with f l k) = zip_with f (reverse l) (reverse k).
Proof.
  induction l as [|a l IH]; intros [|c k] Hlen; simpl in *; try done.
  rewrite !reverse_cons, IH by lia.
  rewrite zip_with_app by (rewrite !length_reverse; lia). done.
Qed.

Lemma map_swap01 {B C} (f : B -> C) l : map f (swap01 l) = swap01 (map f l).
Proof. by destruct l as [|a [|b l]]. Qed.

Lemma pick_swap_reverse (xss : list (list A)) ix :
  length ix = length xss ->
  pick xss (swap01 (reverse ix))
  = swap01 (reverse (pick (reverse (swap01 xss)) ix)).
Proof.
  intros Hlen. unfold pick.
  rewrite reverse_zip_with by (by rewrite length_reverse, length_swap01).
  rewrite reverse_involutive.
  rewrite swap01_zip_with by (by rewrite length_swap01, length_reverse).
  by rewrite swap01_involutive.
Qed.

(** The rows of the grid are the Cartesian product of the sample lists
    taken in the order last, ..., third, first, second, each combination
    put back in the order of the lists. *)
Lemma grid_order (xss : list (list A)) :
  xss <> [] ->
  reshape_rows (T (array (meshgrid xss))) (length xss)
  = Ok (map (fun t => swap01 (reverse t)) (cartesian (reverse (swap01 xss)))).
Proof.
  intros Hne. rewrite grid_rows by done. f_equal.
  rewrite cartesian_pick, map_map.
  assert (map length (reverse (swap01 xss)) = reverse (swap01 (map length xss)))
    as -> by (rewrite <- map_swap01; apply (fmap_reverse length)).
  set (s := reverse (swap01 (map length xss))).
  assert (size (map length xss) = size s) as ->
    by (subst s; by rewrite size_reverse, size_swap01).
  rewrite <- unravel_all_indices, map_map.
  apply map_ext. intros r. unfold row_index. fold s.
  rewrite pick_swap_reverse; [done|].
  subst s. by rewrite length_unravel, length_reverse, length_swap01, length_map.
Qed.

Lemma length_cartesian_row (xss : list (list A)) : forall t,
  t ∈ cartesian xss -> length t = length xss.
Proof.
  induction xss as [|xs rest IH]; intros t Ht; csimpl in Ht.
  - by apply list_elem_of_singleton in Ht as ->.
  - apply list_elem_of_bind in Ht as (x & Ht & _).
    apply list_elem_of_bind in Ht as (r & Ht & Hr).
    apply list_elem_of_singleton in Ht as ->. simpl. f_equal. by apply IH.
Qed.

Lemma cartesian_nonempty (xss : list (list A)) :
  Forall (fun xs => xs <> []) xss -> cartesian xss <> [].
Proof.
  induction 1 as [|xs rest Hxs _ IH]; [done|].
  csimpl. destruct xs as [|x xs]; [done|]. csimpl.
  destruct (cartesian rest) as [|r rs]; [done|]. done.
Qed.
End order.

Import Controller.

Lemma cartesian_one {A} (ys : list A) : cartesian [ys] = y ← ys; [[y]].
Proof. by csimpl. Qed.

Lemma bind_bind_singleton {A B} (f : A -> B) (g : B -> list B) (ys : list A) :
  (r ← (y ← ys; [f y]); g r) = y ← ys; g (f y).
Proof.
  induction ys as [|y ys IH]; [done|]. csimpl in *.
  rewrite ?app_nil_r. by rewrite IH.
Qed.

Lemma cartesian_two {A} (xs ys : list A) :
  cartesian [xs; ys] = x ← xs; y ← ys; [[x; y]].
Proof.
  change (cartesian [xs; ys]) with (x ← xs; r ← cartesian [ys]; [x :: r]).
  apply list_bind_ext; [|done]. intros x.
  rewrite cartesian_one.
  by rewrite (bind_bind_singleton (fun y => [y]) (fun r => [x :: r])).
Qed.

Lemma bind_bind {A B C} (k : A -> list B) (g : B -> list C) (ys : list A) :
  (r ← (y ← ys; k y); g r) = y ← ys; r ← k y; g r.
Proof.
  induction ys as [|y ys IH]; [done|]. csimpl in *. by rewrite bind_app, IH.
Qed.

Lemma map_bind {A B C} (g : B -> C) (f : A -> list B) (l : list A) :
  map g (l ≫= f) = x ← l; map g (f x).
Proof.
  induction l as [|x l IH]; [done|]. csimpl. by rewrite map_app, IH.
Qed.

Lemma cartesian_three {A} (xs ys zs : list A) :
  cartesian [xs; ys; zs] = x ← xs; y ← ys; z ← zs; [[x; y; z]].
Proof.
  change (cartesian [xs; ys; zs]) with (x ← xs; r ← cartesian [ys; zs]; [x :: r]).
  apply list_bind_ext; [|done]. intros x. rewrite cartesian_two.
  rewrite bind_bind. apply list_bind_ext; [|done]. intros y.
  by rewrite (bind_bind_singleton (fun z => [y; z]) (fun r => [x :: r])).
Qed.

Lemma allocation_policies_order {Internals} (w : World Internals) :
  control_signals w <> [] ->
  get_allocation_policies w
  = Ok (map (fun t => swap01 (reverse t))
            (cartesian (reverse (swap01 (map allocation_samples
                                             (control_signals w)))))).
Proof.
  intros Hne. unfold get_allocation_policies.
  rewrite <- (length_map allocation_samples). apply grid_order.
  by destruct (control_signals w).
Qed.

(** X1.  With at least one ControlSignal, [get_allocation_policies] lists
    the Cartesian product of the sample lists taken in the order last, ...,
    third, first, second (the first of these varies slowest), each
    combination put back in the order of the ControlSignals; every policy
    has one entry per ControlSignal. *)
Theorem allocation_policies_enumeration {Internals} (w : World Internals) :
  control_signals w <> [] ->
  get_allocation_policies w
  = Ok (map (fun t => swap01 (reverse t))
            (cartesian (reverse (swap01 (map allocation_samples
                                             (control_signals w)))))) /\
  forall space, get_allocation_policies w = Ok space ->
    Forall (fun p => length p = length (control_signals w)) space.
Proof.
  intros Hne. split; [by apply allocation_policies_order|].
  intros space. rewrite allocation_policies_order by done. intros [= <-].
  apply Forall_forall. intros p (t & -> & Ht)%list_elem_of_fmap.
  apply length_cartesian_row in Ht.
  by rewrite length_swap01, length_reverse, Ht, length_reverse, length_swap01,
    length_map.
Qed.

Lemma allocation_policies_enumeration_witness :
  get_allocation_policies Examples.two_signals
  = Ok [[0; 2]; [0; 3]; [1 # 2; 2]; [1 # 2; 3]; [1; 2]; [1; 3]]%Q.
Proof. by apply (allocation_policies_enumeration Examples.two_signals). Defined.

(** X2.  With two ControlSignals the policies come in lexicographic order,
    the first signal varying slowest; with three, the third signal varies
    slowest, then the first, and the second fastest. *)
Theorem allocation_policies_small_grids {Internals} (w : World Internals)
    (c1 c2 c3 : ControlSignal) :
  (control_signals w = [c1; c2] ->
   get_allocation_policies w
   = Ok (x ← allocation_samples c1; y ← allocation_samples c2; [[x; y]])) /\
  (control_signals w = [c1; c2; c3] ->
   get_allocation_policies w
   = Ok (z ← allocation_samples c3; x ← allocation_samples c1;
         y ← allocation_samples c2; [[x; y; z]])).
Proof.
  split; intros E; unfold get_allocation_policies; rewrite E;
    cbn [map length].
  - rewrite (grid_order [allocation_samples c1; allocation_samples c2]) by done.
    cbn [swap01 reverse rev_append]. rewrite cartesian_two.
    f_equal. rewrite map_bind. apply list_bind_ext; [|done]. intros x.
    rewrite map_bind. apply list_bind_ext; [|done]. by intros y.
  - rewrite (grid_order [allocation_samples c1; allocation_samples c2;
                         allocation_samples c3]) by done.
    cbn [swap01 reverse rev_append]. rewrite cartesian_three.
    f_equal. rewrite map_bind. apply list_bind_ext; [|done]. intros z.
    rewrite map_bind. apply list_bind_ext; [|done]. intros x.
    rewrite map_bind. apply list_bind_ext; [|done]. by intros y.
Qed.

Lemma allocation_policies_small_grids_witness :
  get_allocation_policies (MoreExamples.signals [[1; 2]; [4; 5]; [6; 7]]%Q)
  = Ok [[1; 4; 6]; [1; 5; 6]; [2; 4; 6]; [2; 5; 6];
        [1; 4; 7]; [1; 5; 7]; [2; 4; 7]; [2; 5; 7]]%Q.
Proof.
  by apply (proj2 (allocation_policies_small_grids
                     (MoreExamples.signals [[1; 2]; [4; 5]; [6; 7]]%Q)
                     {| allocation_samples := [1; 2]%Q |}
                     {| allocation_samples := [4; 5]%Q |}
                     {| allocation_samples := [6; 7]%Q |})).
Defined.
End GridOrder.

(** ** controller.py: what a simulation does *)

Module SimulationProps.
Import Controller.

Section simulations.
Context {Internals ReinitializeValues NodeValues : Type}.
Variable C : Collaborators Internals ReinitializeValues NodeValues.

Lemma simulate_trial_shape rv pi cas eid i o d w o' d' w' :
  simulate_trial C rv pi cas eid i (o, d, w) = Ok (o', d', w') ->
  length o' = S (length o) /\ d' = d ++ [the_list_itself] /\
  execution_phase w' = PROCESSING.
Proof.
  unfold simulate_trial. intros E.
  destruct (trial_inputs pi i) as [inputs|]; simpl in E; [|done].
  destruct (composition_run C inputs rv eid _) as [w1|]; simpl in E; [|done].
  destruct cas as [f|]; simpl in E.
  - destruct (f _) as [w2|]; simpl in E; [|done]. simplify_eq.
    rewrite length_app. simpl. split; [lia|done].
  - simplify_eq. rewrite length_app. simpl. split; [lia|done].
Qed.

Lemma for_trials_shape rv pi cas eid trials : forall o d w o' d' w',
  for_trials (simulate_trial C rv pi cas eid) trials (o, d, w) = Ok (o', d', w') ->
  length o' = length o + length trials /\
  d' = d ++ replicate (length trials) the_list_itself /\
  (execution_phase w = PROCESSING \/ trials <> [] ->
   execution_phase w' = PROCESSING).
Proof.
  induction trials as [|i trials IH]; intros o d w o' d' w' E;
    cbn [for_trials] in E.
  - simplify_eq. simpl. rewrite app_nil_r. split; [lia|]. split; [done|].
    by intros [?|?].
  - destruct (simulate_trial C rv pi cas eid i (o, d, w)) as [[[o1 d1] w1]|] eqn:E1;
      [|done]. cbn [mbind result_bind] in E.
    apply simulate_trial_shape in E1 as (Ho & -> & Hp).
    apply IH in E as (Ho' & -> & Hp').
    split; [simpl; lia|]. split; [by rewrite <- app_assoc|].
    intros _. apply Hp'. by left.
Qed.

Lemma assign_value_defaults i x (w : World Internals) :
  (forall v, value w <> value_own v) ->
  i < length (instance_defaults_value w) ->
  assign_value Internals i x w
  = Ok (set_value value_is_defaults (<[i := [x]]> (instance_defaults_value w)) w).
Proof.
  intros Hown Hi. unfold assign_value.
  destruct w as [? v d ? ? ? ? ? ? ?]. simpl in *.
  destruct v as [| |v]; [| |by destruct (Hown v)]; simpl;
    unfold setitem; rewrite decide_True by lia; done.
Qed.

Lemma assign_values_defaults xs : forall i (w : World Internals),
  value w <> value_None \/ xs <> [] ->
  (forall v, value w <> value_own v) ->
  i + length xs <= length (instance_defaults_value w) ->
  assign_values Internals i xs w
  = Ok (set_value value_is_defaults
          (take i (instance_defaults_value w) ++ map (fun x => [x]) xs
           ++ drop (i + length xs) (instance_defaults_value w)) w).
Proof.
  induction xs as [|x xs IH]; intros i w Hv Hown Hlen.
  - destruct Hv as [Hv|?]; [|done]. simpl.
    rewrite Nat.add_0_r, take_drop. destruct w as [? v ? ? ? ? ? ? ? ?].
    simpl in *. destruct v; try done. by destruct (Hown v).
  - cbn [assign_values]. simpl in Hlen.
    rewrite assign_value_defaults by (done || lia).
    cbn [mbind result_bind]. rewrite IH; simpl; [|by left|done|].
    + f_equal. destruct w; simpl in *. unfold set_value; simpl. f_equal.
      rewrite (take_S_r _ _ [x]) by (apply list_lookup_insert_eq; lia).
      rewrite take_insert_ge by lia.
      rewrite drop_insert_lt by lia.
      rewrite <- app_assoc. simpl.
      by replace (S (i + length xs)) with (i + S (length xs)) by lia.
    + rewrite length_insert. lia.
Qed.

Lemma assign_values_IndexError xs : forall i w,
  xs <> [] ->
  length (match value w with
          | value_own v => v
          | _ => instance_defaults_value w
          end) < i + length xs ->
  assign_values Internals i xs w = Raise IndexError.
Proof.
  induction xs as [|x xs IH]; intros i w Hne Hlen; [done|].
  cbn [assign_values]. unfold assign_value at 1.
  destruct w as [? v d ? ? ? ? ? ? ?]. simpl in *.
  destruct v as [| |v]; simpl; unfold setitem.
  - destruct (decide (i < length d)) as [Hi|Hi]; [|done].
    cbn [mbind result_bind]. destruct xs as [|x' xs]; [simpl in *; lia|].
    apply IH; [done|]. simpl in *. rewrite length_insert. lia.
  - destruct (decide (i < length d)) as [Hi|Hi]; [|done].
    cbn [mbind result_bind]. destruct xs as [|x' xs]; [simpl in *; lia|].
    apply IH; [done|]. simpl in *. rewrite length_insert. lia.
  - destruct (decide (i < length v)) as [Hi|Hi]; [|done].
    cbn [mbind result_bind]. destruct xs as [|x' xs]; [simpl in *; lia|].
    apply IH; [done|]. simpl in *. rewrite length_insert. lia.
Qed.
End simulations.

(** X3.  With no ControlSignal, [get_allocation_policies] raises a
    ValueError ([reshape(-1, 0)] cannot infer the free dimension), and so
    does [_execute], before any simulation. *)
Theorem no_control_signals_is_an_error
    {Internals ReinitializeValues NodeValues : Type}
    (C : Collaborators Internals ReinitializeValues NodeValues)
    (w : World Internals) :
  control_signals w = [] ->
  get_allocation_policies w = Raise ValueError /\
  _execute C w = Raise ValueError.
Proof.
  intros E.
  assert (get_allocation_policies w = Raise ValueError) as Hg
    by (unfold get_allocation_policies; by rewrite E).
  split; [done|]. unfold _execute. by rewrite Hg.
Qed.

Lemma no_control_signals_is_an_error_witness :
  _execute (Examples.agent None id) (MoreExamples.signals []) = Raise ValueError.
Proof.
  by apply (no_control_signals_is_an_error (Examples.agent None id)
              (MoreExamples.signals [])).
Defined.

(** X4.  An allocation policy with two or more entries makes
    [run_simulation] raise a ValueError at [if allocation_policy:] (the
    truth value of such an array is ambiguous).  Hence with two or more
    ControlSignals, each with samples, [run_simulations] and [_execute]
    raise it once [before_simulations] has returned. *)
Theorem several_control_signals_fail
    {Internals ReinitializeValues NodeValues : Type}
    (C : Collaborators Internals ReinitializeValues NodeValues)
    (w : World Internals) (space : list (list Q))
    (r : option PredictedInput * nat * ReinitializeValues * NodeValues *
         World Internals) :
  2 <= length (control_signals w) ->
  Forall (fun c => allocation_samples c <> []) (control_signals w) ->
  get_allocation_policies w = Ok space ->
  before_simulations C (set_search_space space w) = Ok r ->
  (forall p n rv pi cas w', 2 <= length p ->
     run_simulation C (Some p) n rv pi cas w' = Raise ValueError) /\
  run_simulations C space None (set_search_space space w) = Raise ValueError /\
  _execute C w = Raise ValueError.
Proof.
  intros Hk Hsamples Hspace Hbefore.
  assert (forall p n rv pi cas w', 2 <= length p ->
            run_simulation C (Some p) n rv pi cas w' = Raise ValueError) as Hrun.
  { intros p n rv pi cas w' Hp. unfold run_simulation.
    destruct p as [|x [|y p]]; simpl in Hp; try lia. done. }
  split; [exact Hrun|].
  assert (control_signals w <> []) as Hne
    by (destruct (control_signals w); simpl in Hk; [lia|done]).
  rewrite (GridOrder.allocation_policies_order w Hne) in Hspace.
  injection Hspace as <-.
  set (xss := reverse (np.swap01 (map allocation_samples (control_signals w)))) in *.
  assert (length xss = length (control_signals w)) as Hlen.
  { subst xss. by rewrite length_reverse, GridProps.length_swap01, length_map. }
  assert (Forall (fun xs => xs <> []) xss) as Hxss.
  { subst xss. apply Forall_reverse.
    assert (Forall (fun xs : list Q => xs <> [])
              (map allocation_samples (control_signals w))) as Hm
      by (by apply Forall_fmap).
    destruct (map allocation_samples (control_signals w)) as [|a [|b l]];
      try done. simpl.
    inversion Hm as [|? ? Ha Hm']; subst. inversion Hm' as [|? ? Hb Hl]; subst.
    by repeat constructor. }
  pose proof (GridOrder.cartesian_nonempty xss Hxss) as Hcart.
  destruct (cartesian xss) as [|t ts] eqn:Ecart; [done|].
  assert (length t = length xss) as Ht.
  { apply GridOrder.length_cartesian_row. rewrite Ecart. by left. }
  cbn [map] in *.
  assert (run_simulations C (np.swap01 (reverse t) :: map (fun t => np.swap01 (reverse t)) ts)
            None
            (set_search_space
               (np.swap01 (reverse t) :: map (fun t => np.swap01 (reverse t)) ts) w)
          = Raise ValueError) as Hsims.
  { unfold run_simulations. rewrite Hbefore.
    destruct r as [[[[pi n] rv] nv] w1]. cbn [mbind result_bind for_policies].
    rewrite Hrun; [done|].
    rewrite GridProps.length_swap01, length_reverse. lia. }
  split; [done|].
  unfold _execute.
  rewrite (GridOrder.allocation_policies_order w Hne). fold xss. rewrite Ecart.
  cbn [map mbind result_bind]. by rewrite Hsims.
Qed.

Lemma several_control_signals_fail_witness :
  _execute (Examples.agent None id) (MoreExamples.signals [[0; 1]; [2]]%Q)
  = Raise ValueError.
Proof.
  eapply (several_control_signals_fail (Examples.agent None id)
            (MoreExamples.signals [[0; 1]; [2]]%Q)).
  - simpl. lia.
  - by repeat constructor.
  - reflexivity.
  - reflexivity.
Defined.

(** X5.  A simulation that returns has one list of monitored outputs per
    trial; its second result holds, per trial, only the list itself,
    whatever [call_after_simulation] returned; and after at least one trial
    the execution phase of the composition is PROCESSING. *)
Theorem run_simulation_shape
    {Internals ReinitializeValues NodeValues : Type}
    (C : Collaborators Internals ReinitializeValues NodeValues)
    (p : option (list Q)) (n : nat) (rv : ReinitializeValues)
    (pi : option PredictedInput)
    (cas : option (World Internals -> result (World Internals)))
    (w w' : World Internals) (o : list Outputs) (d : list other_item) :
  run_simulation C p n rv pi cas w = Ok (o, d, w') ->
  length o = n /\ d = replicate n the_list_itself /\
  (0 < n -> execution_phase w' = PROCESSING).
Proof.
  unfold run_simulation. intros E.
  destruct (np.truth p) as [b|]; simpl in E; [|done].
  destruct (if b then apply_control_signal_values C (default [] p) w else Ok w)
    as [w1|]; [|done]. cbn [mbind result_bind] in E.
  destruct (_get_unique_id C w1) as [eid w2].
  apply for_trials_shape in E as (Ho & -> & Hp). rewrite length_seq in *.
  split; [done|]. split; [done|]. intros Hn. apply Hp. right.
  destruct n; [lia|done].
Qed.

Lemma run_simulation_shape_witness :
  exists o w',
    run_simulation (Examples.agent None id) (Some [1%Q]) 1 tt
      (Some [("origin", [[1%Q]])]) None (Examples.one_signal [0; 1]%Q)
    = Ok (o, [the_list_itself], w') /\
    length o = 1 /\ execution_phase w' = PROCESSING.
Proof.
  eexists _, _. split; [reflexivity|].
  destruct (run_simulation_shape (Examples.agent None id) (Some [1%Q]) 1 tt
              (Some [("origin", [[1%Q]])]) None (Examples.one_signal [0; 1]%Q)
              _ _ _ eq_refl) as (Ho & _ & Hp).
  split; [exact Ho|]. apply Hp. lia.
Defined.

(** X6.  While [self.value] is [None], [apply_control_signal_values]
    writes the policy, through [self.value = self.instance_defaults.value],
    into the instance defaults themselves: their first items become the
    entries of the policy, and that same array is the value handed to
    [_update_output_states]. *)
Theorem apply_control_signal_values_overwrites_defaults
    {Internals ReinitializeValues NodeValues : Type}
    (C : Collaborators Internals ReinitializeValues NodeValues)
    (control_signal_values : list Q) (w : World Internals) :
  value w = value_None ->
  control_signal_values <> [] ->
  length control_signal_values <= length (instance_defaults_value w) ->
  let defaults' :=
    map (fun x => [x]) control_signal_values
    ++ drop (length control_signal_values) (instance_defaults_value w) in
  apply_control_signal_values C control_signal_values w
  = _update_output_states C (Some defaults')
      (set_value value_is_defaults defaults' w).
Proof.
  intros Hv Hne Hlen defaults'. unfold apply_control_signal_values.
  rewrite assign_values_defaults; [|by right|by rewrite Hv|simpl; lia].
  cbn [mbind result_bind]. by destruct w.
Qed.

Lemma apply_control_signal_values_overwrites_defaults_witness :
  exists w',
    apply_control_signal_values (Examples.agent None id) [1%Q]
      (Examples.one_signal [0; 1]%Q) = Ok w' /\
    instance_defaults_value w' = [[1%Q]] /\ value w' = value_is_defaults.
Proof.
  eexists. split.
  - rewrite (apply_control_signal_values_overwrites_defaults
               (Examples.agent None id) [1%Q] (Examples.one_signal [0; 1]%Q));
      [reflexivity|reflexivity|discriminate|simpl; lia].
  - split; reflexivity.
Defined.

(** X7.  A policy with more entries than [self.value] (the instance
    defaults, while [self.value] is [None]) has items makes
    [apply_control_signal_values] raise an IndexError;
    [_update_output_states] is not reached. *)
Theorem apply_control_signal_values_IndexError
    {Internals ReinitializeValues NodeValues : Type}
    (C : Collaborators Internals ReinitializeValues NodeValues)
    (control_signal_values : list Q) (w : World Internals) :
  length (match value w with
          | value_own v => v
          | _ => instance_defaults_value w
          end) < length control_signal_values ->
  apply_control_signal_values C control_signal_values w = Raise IndexError.
Proof.
  intros Hlen. unfold apply_control_signal_values.
  rewrite assign_values_IndexError; [done| |done].
  destruct control_signal_values; [simpl in Hlen; lia|done].
Qed.

Lemma apply_control_signal_values_IndexError_witness :
  apply_control_signal_values (Examples.agent None id) [1; 2]%Q
    (Examples.one_signal [0; 1]%Q) = Raise IndexError.
Proof.
  apply (apply_control_signal_values_IndexError (Examples.agent None id)
           [1; 2]%Q (Examples.one_signal [0; 1]%Q)).
  simpl. lia.
Defined.

(** X8.  Without [predicted_input] (its default is [None]),
    [run_simulation] does not return when there is a trial to run: the
    first trial iterates over [None], a TypeError. *)
Theorem run_simulation_needs_predicted_input
    {Internals ReinitializeValues NodeValues : Type}
    (C : Collaborators Internals ReinitializeValues NodeValues)
    (p : option (list Q)) (n : nat) (rv : ReinitializeValues)
    (cas : option (World Internals -> result (World Internals)))
    (w : World Internals) :
  0 < n ->
  ~ is_Ok (run_simulation C p n rv None cas w) /\
  (run_simulation C None n rv None cas w = Raise TypeError).
Proof.
  intros Hn. destruct n as [|n]; [lia|]. unfold run_simulation. split.
  - destruct (np.truth p) as [b|]; simpl; [|tauto].
    destruct (if b then apply_control_signal_values C (default [] p) w else Ok w)
      as [w1|]; simpl; [|tauto].
    destruct (_get_unique_id C w1) as [eid w2]. simpl. tauto.
  - simpl. by destruct (_get_unique_id C w) as [eid w2].
Qed.

Lemma run_simulation_needs_predicted_input_witness :
  run_simulation (Examples.agent None id) None 1 tt None None
    (Examples.one_signal [0; 1]%Q) = Raise TypeError.
Proof.
  apply (run_simulation_needs_predicted_input (Examples.agent None id) None 1).
  lia.
Defined.
End SimulationProps.

(** ** lvoccontrolmechanism.py: the prediction vector under gradient ascent *)

Module GradientProps.
Import LVOC.
Import LVOCProps.

Lemma lookup_concat_uniform {A} (n : nat) (rows : list (list A)) : forall c j,
  Forall (fun r => length r = n) rows ->
  j < n ->
  concat rows !! (c * n + j) = rows !! c ≫= (.!! j).
Proof.
  induction rows as [|r rows IH]; intros c j Hrows Hj.
  { by destruct c. }
  inversion Hrows as [|? ? Hr Hrows']; subst. simpl.
  destruct c as [|c]; simpl.
  - by rewrite lookup_app_l by lia.
  - rewrite lookup_app_r by lia.
    replace (length r + c * length r + j - length r) with (c * length r + j) by lia.
    by apply IH.
Qed.

Section fields.
Variable fp : FloatingPoint.
Variable self : LVOCControlMechanism.
Variable control_signals : list ControlSignal.
Variable prediction_weights : list Q.
Variables p k : nat.

Hypothesis Hp : num_predictors self = p.
Hypothesis Hk : num_control_signals self = k.
Hypothesis Hcosts : num_costs self = k.
Hypothesis Hpred : pred self = {| start := 0; stop := p |}.
Hypothesis Hintrxn : intrxn self = {| start := p; stop := p + p * k |}.
Hypothesis Hctl : ctl self = {| start := p + p * k; stop := p + p * k + k |}.
Hypothesis Hcst : cst self = {| start := p + p * k + k; stop := p + p * k + k + k |}.

#[local] Abbreviation len := (p + p * k + k + k).
#[local] Abbreviation c0 := (p + p * k).

Lemma update_control_signal_writes cost_weights i g cg pv g' cg' pv' :
  length pv = len ->
  update_control_signal self control_signals cost_weights i (g, cg, pv)
  = Ok (g', cg', pv') ->
  exists x cs cost y,
    i < k /\
    pv !! (c0 + i) = Some x /\ control_signals !! i = Some cs /\
    intensity_cost_function cs x = Ok cost /\
    pv' = <[c0 + k + i := (- cost)%Q]> (<[c0 + i := y]> pv).
Proof.
  intros Hlen. unfold update_control_signal. intros E.
  destruct (getitem (get_slice (ctl self) pv) i) as [x|] eqn:Ex; [|done].
  cbn [mbind result_bind] in E.
  destruct (getitem control_signals i) as [cs|] eqn:Ecs; [|done].
  cbn [mbind result_bind] in E.
  destruct (derivative cs x) as [d|] eqn:Ed; [|done].
  cbn [mbind result_bind] in E.
  destruct (getitem cost_weights i) as [cw|] eqn:Ecw; [|done].
  cbn [mbind result_bind] in E.
  destruct (Controller.setitem i (- (d * cw))%Q cg) as [cg1|] eqn:Ecg; [|done].
  cbn [mbind result_bind] in E.
  destruct (getitem g i) as [gi|] eqn:Eg; [|done].
  cbn [mbind result_bind] in E.
  apply getitem_Ok in Ex, Ecs.
  apply lookup_get_slice_Some in Ex as [Ex Hi].
  rewrite Hctl in Ex, Hi. simpl in Ex, Hi.
  unfold set_view_item in E. rewrite length_get_slice, Hctl in E. simpl in E.
  rewrite decide_True in E by lia. cbn [mbind result_bind] in E.
  destruct (intensity_cost_function cs x) as [cost|] eqn:Ecost; [|done].
  cbn [mbind result_bind] in E.
  rewrite length_get_slice, Hcst, length_insert in E. simpl in E.
  rewrite decide_True in E by lia. cbn [mbind result_bind] in E.
  simplify_eq. exists x, cs, cost. eexists. split; [lia|]. by repeat split.
Qed.

Lemma for_control_signals_costs cost_weights n : forall m g cg pv g' cg' pv',
  m + n <= k ->
  length pv = len ->
  for_control_signals self control_signals cost_weights (seq m n) (g, cg, pv)
  = Ok (g', cg', pv') ->
  length pv' = len /\
  (forall i, m + n <= i -> i < k -> pv' !! (c0 + i) = pv !! (c0 + i)) /\
  (forall i x cs cost,
      m <= i < m + n ->
      pv !! (c0 + i) = Some x -> control_signals !! i = Some cs ->
      intensity_cost_function cs x = Ok cost ->
      pv' !! (c0 + k + i) = Some (- cost)%Q) /\
  (forall i, i < m -> pv' !! (c0 + k + i) = pv !! (c0 + k + i)).
Proof.
  induction n as [|n IH]; intros m g cg pv g' cg' pv' Hmn Hlen E.
  { cbn [seq for_control_signals] in E. simplify_eq.
    repeat split; try done. intros; lia. }
  cbn [seq for_control_signals] in E.
  destruct (update_control_signal self control_signals cost_weights m (g, cg, pv))
    as [[[g1 cg1] pv1]|] eqn:Estep; [|done].
  cbn [mbind result_bind] in E.
  apply update_control_signal_writes in Estep
    as (x & cs & cost & y & Hm & Hx & Hcs & Hcost & ->); [|done].
  apply IH in E as (Hlen' & Hafter & Hin & Hbefore);
    [|lia|by rewrite !length_insert].
  split; [done|]. split; [|split].
  - intros i Hi Hik. rewrite Hafter by lia.
    by rewrite !list_lookup_insert_ne by lia.
  - intros i x' cs' cost' Hi Hx' Hcs' Hcost'.
    destruct (decide (i = m)) as [->|Hne].
    + assert (x' = x) as -> by congruence.
      assert (cs' = cs) as -> by congruence.
      assert (cost' = cost) as -> by congruence.
      rewrite Hbefore by lia.
      by rewrite list_lookup_insert_eq by (rewrite length_insert; lia).
    + apply (Hin i x' cs' cost' ltac:(lia)); try done.
      by rewrite !list_lookup_insert_ne by lia.
  - intros i Hi. rewrite Hbefore by lia.
    by rewrite !list_lookup_insert_ne by lia.
Qed.

(** After a round the cost entries hold minus the intensity cost of the
    values the round started from, and the interaction entries the products
    of the predictors and the values the round ends with. *)
Lemma round_fields gradient_constants cost_weights st st' cur :
  length (prediction_vector st) = len ->
  round fp self control_signals prediction_weights gradient_constants cost_weights st
  = Ok (st', cur) ->
  (forall i x cs cost,
      i < k ->
      prediction_vector st !! (c0 + i) = Some x ->
      control_signals !! i = Some cs ->
      intensity_cost_function cs x = Ok cost ->
      prediction_vector st' !! (c0 + k + i) = Some (- cost)%Q) /\
  (forall c t x y,
      c < k -> t < p ->
      prediction_vector st' !! t = Some x ->
      prediction_vector st' !! (c0 + c) = Some y ->
      prediction_vector st' !! (p + (c * p + t)) = Some (x * y)%Q).
Proof.
  intros Hlen. unfold round. intros E.
  rewrite length_get_slice, Hlen in E.
  replace ((stop (ctl self) - start (ctl self)) `min` (len - start (ctl self)))
    with k in E by (rewrite Hctl; simpl; lia).
  bind_Ok E Eloop. destruct a as [[g1 cg1] pv1].
  apply for_control_signals_costs in Eloop as (Hlen1 & _ & Hin & _);
    [|lia|done].
  bind_Ok E Ecolumn. rename a into column.
  assert (column = map (fun r => take 1 (drop (r * 1) (get_slice (ctl self) pv1)))
                       (seq 0 k)) as Hcolumn.
  { unfold reshape in Ecolumn. rewrite Hk in Ecolumn.
    destruct (decide _) in Ecolumn; [|done]. by injection Ecolumn as <-. }
  clear Ecolumn.
  bind_Ok E E2. rename a into pv2.
  rewrite set_slice_self in E. cbn [mbind result_bind] in E.
  rewrite set_slice_self in E. cbn [mbind result_bind] in E.
  bind_Ok E Elvoc. injection E as <- <-. cbn [prediction_vector].
  assert (length pv2 = len) as Hlen2 by (by rewrite (set_slice_length _ _ _ _ E2)).
  split.
  - intros i x cs cost Hi Hx Hcs Hcost.
    rewrite (set_slice_lookup_after _ _ _ _ (c0 + k + i) E2).
    + apply (Hin i x cs cost); try done. lia.
    + rewrite Hintrxn. simpl. lia.
    + rewrite length_get_slice, Hintrxn, Hlen1. simpl. lia.
  - intros c t x y Hc Ht Hx Hy.
    rewrite (set_slice_lookup_before _ _ _ _ t E2) in Hx
      by (rewrite Hintrxn; simpl; lia).
    rewrite (set_slice_lookup_after _ _ _ _ (c0 + c) E2) in Hy;
      [|rewrite Hintrxn; simpl; lia
       |rewrite length_get_slice, Hintrxn, Hlen1; simpl; lia].
    set (rows := map (fun c0 : list Q =>
                        map (fun q : Q => (q * default 0 (head c0))%Q)
                            (get_slice (pred self) pv1)) column) in *.
    assert (length (get_slice (pred self) pv1) = p) as Hlp
      by (rewrite length_get_slice, Hpred, Hlen1; simpl; lia).
    assert (length column = k) as Hcol
      by (by rewrite Hcolumn, length_map, length_seq).
    assert (Forall (fun r => length r = p) rows) as Hrows.
    { subst rows. apply Forall_fmap, Forall_forall. intros r _. simpl.
      by rewrite length_map. }
    assert (length (concat rows) = p * k) as Hcat.
    { assert (length rows = k) as Hrk by (subst rows; by rewrite length_map).
      clear -Hrows Hrk. revert k Hrk.
      induction Hrows as [|r rs Hr _ IH]; intros k Hrk; simpl in *; [lia|].
      rewrite length_app, (IH (length rs)), Hr by done. lia. }
    unfold set_slice in E2.
    rewrite length_get_slice, Hintrxn, Hlen1 in E2. cbn [start stop] in E2.
    replace ((p + p * k - p) `min` (len - p)) with (p * k) in E2 by lia.
    rewrite decide_True in E2 by done. injection E2 as <-.
    rewrite lookup_app_r by (rewrite length_take; lia).
    rewrite length_take, Hlen1.
    replace (p + (c * p + t) - p `min` len) with (c * p + t) by lia.
    rewrite lookup_app_l by (rewrite Hcat; nia).
    rewrite (lookup_concat_uniform p) by done.
    subst rows. rewrite list_lookup_fmap, Hcolumn.
    rewrite list_lookup_fmap, lookup_seq_lt by done. simpl.
    rewrite list_lookup_fmap.
    rewrite lookup_get_slice by (rewrite Hpred; simpl; lia).
    rewrite Hpred. simpl. rewrite Hx. simpl. do 2 f_equal.
    rewrite Nat.mul_1_r.
    assert (get_slice (ctl self) pv1 !! c = Some y) as Hyc.
    { rewrite lookup_get_slice by (rewrite Hctl; simpl; lia).
      by rewrite Hctl. }
    destruct (drop c (get_slice (ctl self) pv1)) as [|y' rest] eqn:Edrop.
    { apply (f_equal length) in Edrop. rewrite length_drop in Edrop.
      apply lookup_lt_Some in Hyc. simpl in Edrop. lia. }
    simpl.
    assert (drop c (get_slice (ctl self) pv1) !! 0 = Some y) as H0
      by (by rewrite lookup_drop, Nat.add_0_r).
    rewrite Edrop in H0. by injection H0 as ->.
Qed.
End fields.

Section loop_invariant.
Variable fp : FloatingPoint.
Variable self : LVOCControlMechanism.
Variable control_signals : list ControlSignal.
Variable prediction_weights : list Q.
Variables gradient_constants cost_weights : list Q.
Variables I R : loop_state -> Prop.

Hypothesis R_I : forall st, R st -> I st.
Hypothesis R_carry : forall st cur, R st -> R (carry cur st).
Hypothesis R_round : forall st st' cur,
  I st ->
  round fp self control_signals prediction_weights gradient_constants cost_weights st
  = Ok (st', cur) ->
  R st'.

End loop_invariant.

Lemma instantiate_slices name criterion max_iter rate predictor_values
    (control_signals : list ControlSignal) :
  let self := (instantiate name criterion max_iter rate predictor_values
                 control_signals).1 in
  let p := length predictor_values in
  let k := length control_signals in
  num_predictors self = p /\ num_control_signals self = k /\ num_costs self = k /\
  pred self = {| start := 0; stop := p |} /\
  intrxn self = {| start := p; stop := p + p * k |} /\
  ctl self = {| start := p + p * k; stop := p + p * k + k |} /\
  cst self = {| start := p + p * k + k; stop := p + p * k + k + k |}.
Proof. by repeat split. Qed.



(** X10.  In a round of [gradient_ascent] the cost entry of a control
    signal becomes minus its intensity cost at the value the round started
    from, not at the value the round moves it to. *)
Theorem round_records_previous_cost (fp : FloatingPoint)
    (name : string) (convergence_criterion : Q) (max_iterations : Z)
    (udpate_rate : Q) (predictor_values : list Q)
    (control_signals : list ControlSignal)
    (prediction_weights gc cw : list Q) (st st' : loop_state) (cur : Q)
    (i : nat) (cs : ControlSignal) (x cost : Q) :
  let self := (instantiate name convergence_criterion max_iterations udpate_rate
                 predictor_values control_signals).1 in
  let p := length predictor_values in
  let k := length control_signals in
  length (LVOC.prediction_vector st) = p + p * k + k + k ->
  round fp self control_signals prediction_weights gc cw st = Ok (st', cur) ->
  control_signals !! i = Some cs ->
  get_slice (ctl self) (LVOC.prediction_vector st) !! i = Some x ->
  intensity_cost_function cs x = Ok cost ->
  get_slice (cst self) (LVOC.prediction_vector st') !! i = Some (- cost)%Q.
Proof.
  intros self p k Hlen Hround Hcs Hx Hcost.
  assert (i < k) as Hi by (by apply lookup_lt_Some in Hcs).
  destruct (round_fields fp self control_signals prediction_weights p k
              eq_refl eq_refl eq_refl eq_refl eq_refl eq_refl eq_refl
              gc cw _ _ _ Hlen Hround) as (Hc & _).
  rewrite lookup_get_slice by (simpl; lia).
  apply lookup_get_slice_Some in Hx as [Hx _].
  by apply (Hc i x cs cost).
Qed.

Lemma round_records_previous_cost_witness :
  exists st' cur,
    round binary64_arithmetic (Examples.lvoc Examples.quadratic_cost) [Examples.quadratic_cost]
      Examples.weights [3%Q] [1%Q]
      (initial_state binary64_arithmetic Examples.epsilon Examples.huge
         (Examples.lvoc Examples.quadratic_cost) Examples.predictions)
    = Ok (st', cur) /\
    get_slice (cst (Examples.lvoc Examples.quadratic_cost))
      (LVOC.prediction_vector st') !! 0
    = Some (- ((1 # 2) * (1 # 2)))%Q.
Proof.
  eexists _, _. split; [reflexivity|].
  eapply (round_records_previous_cost binary64_arithmetic
           "lvoc" (1 # 100) 5 (1 # 10)
           [2%Q] [Examples.quadratic_cost] Examples.weights [3%Q] [1%Q]
           (initial_state binary64_arithmetic Examples.epsilon Examples.huge
              (Examples.lvoc Examples.quadratic_cost) Examples.predictions)
           _ _ 0 Examples.quadratic_cost (1 # 2));
    reflexivity.
Defined.

(** X11.  The body of the loop of [gradient_ascent] runs a first time
    when the float sum of the criterion and [EPSILON] exceeds the
    criterion: an exception of that round is then the outcome, and with
    [max_iterations <= 0] its values are returned, with the warning.  When
    the sum does not exceed the criterion, no round is run, whatever the
    fuel: the control signal values and the vector are returned as they
    are, without a warning. *)
Theorem gradient_ascent_first_round (fp : FloatingPoint)
    (EPSILON float128_max : Q)
    (self : LVOCControlMechanism) (control_signals : list ControlSignal)
    (prediction_weights prediction_vector gc cw : list Q) (fuel : nat) :
  setup self prediction_weights prediction_vector = Ok (gc, cw) ->
  (float_gt (float_add fp (convergence_criterion self) EPSILON)
            (convergence_criterion self) = true ->
   (forall e,
      round fp self control_signals prediction_weights gc cw
        (initial_state fp EPSILON float128_max self prediction_vector) = Raise e ->
      gradient_ascent fp EPSILON float128_max self control_signals
        prediction_weights (S fuel) prediction_vector = Some (Raise e)) /\
   (forall st' cur,
      (max_iterations self <= 0)%Z ->
      round fp self control_signals prediction_weights gc cw
        (initial_state fp EPSILON float128_max self prediction_vector)
      = Ok (st', cur) ->
      gradient_ascent fp EPSILON float128_max self control_signals
        prediction_weights (S fuel) prediction_vector
      = Some (Ok (get_slice (ctl self) (LVOC.prediction_vector st'),
                  LVOC.prediction_vector st', [warning self])))) /\
  (float_gt (float_add fp (convergence_criterion self) EPSILON)
            (convergence_criterion self) = false ->
   gradient_ascent fp EPSILON float128_max self control_signals
     prediction_weights fuel prediction_vector
   = Some (Ok (get_slice (ctl self) prediction_vector, prediction_vector, []))).
Proof.
  intros Hsetup. unfold gradient_ascent. rewrite Hsetup. split.
  - intros Hgo. cbn [while_loop initial_state LVOC.convergence_metric].
    rewrite Hgo. split.
    + intros e ->. done.
    + intros st' cur Hmax Hround. rewrite Hround.
      apply round_j in Hround. simpl in Hround.
      rewrite decide_True by lia. done.
  - intros Hstop.
    destruct fuel; cbn [while_loop initial_state LVOC.convergence_metric];
      by rewrite Hstop.
Qed.

Lemma gradient_ascent_first_round_witness :
  (exists v pv,
     gradient_ascent binary64_arithmetic Examples.epsilon Examples.huge
       (instantiate "lvoc" (1 # 100) 0 (1 # 10) [2%Q] [Examples.free_intensity]).1
       [Examples.free_intensity] Examples.weights 1 Examples.predictions
     = Some (Ok (v, pv, ["lvoc failed to converge after 0 iterations"]))) /\
  gradient_ascent binary64_arithmetic Examples.epsilon Examples.huge
    (Examples.lvoc_coarse Examples.free_intensity)
    [Examples.free_intensity] Examples.weights 0 Examples.predictions
  = Some (Ok ([1 # 2]%Q, Examples.predictions, [])).
Proof.
  split.
  - eexists _, _.
    refine (proj2 (proj1 (gradient_ascent_first_round binary64_arithmetic
              Examples.epsilon Examples.huge
              (instantiate "lvoc" (1 # 100) 0 (1 # 10) [2%Q]
                 [Examples.free_intensity]).1
              [Examples.free_intensity] Examples.weights Examples.predictions
              [3%Q] [1%Q] 0 _) _) _ _ _ _).
    + reflexivity.
    + by vm_compute.
    + vm_compute. discriminate.
    + vm_compute. reflexivity.
  - refine (proj2 (gradient_ascent_first_round binary64_arithmetic
              Examples.epsilon Examples.huge
              (Examples.lvoc_coarse Examples.free_intensity)
              [Examples.free_intensity] Examples.weights Examples.predictions
              [3%Q] [1%Q] 0 _) _).
    + reflexivity.
    + by vm_compute.
Defined.
End GradientProps.

(** ** lvoccontrolmechanism.py: parsing the variable and the predictors *)

Module LVOCInputsProps.
Import LVOC LVOCInputs LVOCProps.

Lemma get_slice_app (A B rest : list Q) s :
  start s = length A -> stop s = length A + length B ->
  get_slice s (A ++ B ++ rest) = B.
Proof.
  intros Hs He. unfold get_slice. rewrite Hs, He.
  rewrite drop_app_length.
  replace (length A + length B - length A) with (length B) by lia.
  by rewrite take_app_length.
Qed.

Lemma set_slice_app (A B rest xs : list Q) s :
  start s = length A -> stop s = length A + length B ->
  length xs = length B ->
  set_slice s xs (A ++ B ++ rest) = Ok (A ++ xs ++ rest).
Proof.
  intros Hs He Hxs. unfold set_slice.
  rewrite get_slice_app by done. rewrite decide_True by done.
  rewrite Hs, take_app_length.
  by rewrite (app_assoc A B rest), <- length_app, drop_app_length.
Qed.

Lemma reshape_column (xs : list Q) :
  reshape xs (length xs) 1 = Ok (map (fun x => [x]) xs).
Proof.
  unfold reshape. rewrite decide_True by lia. f_equal.
  apply list_eq. intros i. rewrite !list_lookup_fmap.
  destruct (decide (i < length xs)) as [Hi|Hi].
  - rewrite lookup_seq_lt by done. simpl.
    destruct (lookup_lt_is_Some_2 xs i Hi) as [x Hx]. rewrite Hx. simpl.
    f_equal. rewrite Nat.mul_1_r.
    rewrite (drop_S _ x) by done. done.
  - rewrite lookup_seq_ge by lia. by rewrite lookup_ge_None_2 by lia.
Qed.

Lemma concat_singletons (xs : list (list Q)) :
  Forall (fun x => length x = 1) xs -> length (concat xs) = length xs.
Proof.
  induction 1 as [|x xs Hx _ IH]; [done|].
  simpl. rewrite length_app, IH, Hx. done.
Qed.

Lemma length_bind_const {A B} (f : A -> list B) n (l : list A) :
  (forall x, length (f x) = n) -> length (l ≫= f) = length l * n.
Proof.
  intros Hf. induction l as [|x l IH]; [done|].
  csimpl. rewrite length_app, IH, Hf. lia.
Qed.

Lemma concat_map_bind {A B} (f : A -> list B) (l : list A) :
  concat (map f l) = l ≫= f.
Proof. induction l as [|x l IH]; [done|]. csimpl. by rewrite IH. Qed.

(** X12.  Outside instantiation, [_parse_function_variable] fills a
    prediction vector of the instantiated length, given as many predictor
    values as at instantiation and ControlSignals of one value each, with:
    the predictor values; for each ControlSignal in turn, the products of
    all predictors with its value; the values of the ControlSignals; and
    minus their costs (a cost of [None] counts as 0). *)
Theorem parse_function_variable_layout
    (name : string) (convergence_criterion : Q) (max_iterations : Z)
    (udpate_rate : Q) (initial_predictors : list Q)
    (control_signals : list Signal) (prediction_vector : list Q)
    (v0 : list Q) (rows : list (list Q)) (context : ContextFlags) :
  let self := (instantiate name convergence_criterion max_iterations udpate_rate
                 initial_predictors (map functions control_signals)).1 in
  let p := length initial_predictors in
  let k := length control_signals in
  let predictor_values := concat rows in
  let values := concat (map value control_signals) in
  context <> INSTANTIATE ->
  length prediction_vector = p + p * k + k + k ->
  same_lengths rows = true ->
  length predictor_values = p ->
  Forall (fun c => length (value c) = 1) control_signals ->
  _parse_function_variable self prediction_vector control_signals (v0 :: rows)
    context
  = Ok (self, predictor_values,
        predictor_values
        ++ (c ← values; map (fun q => q * c)%Q predictor_values)
        ++ values
        ++ map (fun c => default 0 (cost c) * -1)%Q control_signals,
        [v0]).
Proof.
  intros self p k predictor_values values Hctx Hlen Hrows Hp Hvalues.
  assert (length values = k) as Hk.
  { subst values k. rewrite concat_singletons; [by rewrite length_map|].
    by apply Forall_fmap. }
  assert (same_lengths (map value control_signals) = true) as Hsame.
  { destruct Hvalues as [|c cs Hc Hcs]; [done|]. simpl.
    apply forallb_forall. intros r Hr%list_elem_of_In%list_elem_of_fmap.
    destruct Hr as (c' & -> & Hc'). rewrite Forall_forall in Hcs.
    rewrite (Hcs c' Hc'), Hc. done. }
  unfold _parse_function_variable. cbn [getitem lookup list_lookup mbind result_bind drop].
  rewrite drop_0.
  assert (flatten rows = Ok predictor_values) as ->
    by (unfold flatten; by rewrite Hrows).
  assert (flatten (map value control_signals) = Ok values) as Hflat
    by (unfold flatten; by rewrite Hsame).
  cbn [mbind result_bind].
  assert (exists I0 C0 D0, prediction_vector = take p prediction_vector ++ I0 ++ C0 ++ D0
            /\ length I0 = p * k /\ length C0 = k /\ length D0 = k)
    as (I0 & C0 & D0 & Hpv & HI0 & HC0 & HD0).
  { exists (take (p * k) (drop p prediction_vector)),
           (take k (drop (p * k) (drop p prediction_vector))),
           (drop k (drop (p * k) (drop p prediction_vector))).
    split; [by rewrite !take_drop|].
    rewrite !length_take, !length_drop. lia. }
  set (P0 := take p prediction_vector) in *.
  assert (length P0 = p) as HP0 by (subst P0; rewrite length_take; lia).
  assert (num_control_signals self = k /\
          pred self = {| start := 0; stop := p |} /\
          intrxn self = {| start := p; stop := p + p * k |} /\
          ctl self = {| start := p + p * k; stop := p + p * k + k |} /\
          cst self = {| start := p + p * k + k; stop := p + p * k + k + k |})
    as (Hnum & Hpred & Hintrxn & Hctl & Hcst).
  { subst self p k. simpl. rewrite !length_map. done. }
  clearbody self.
  assert (match context with
          | INSTANTIATE =>
              @Raise (LVOCControlMechanism * list Q * list Q * list (list Q))
                     ValueError
          | _ =>
              pv ← set_slice (pred self) predictor_values prediction_vector;
              values ← flatten (map value control_signals);
              pv ← set_slice (ctl self) values pv;
              terms ← interaction_terms self pv;
              pv ← set_slice (intrxn self) terms pv;
              pv ← set_slice (cst self)
                     (map (fun c => default 0 (cost c) * -1)%Q control_signals) pv;
              Ok (self, predictor_values, pv, [v0])
          end
          = Ok (self, predictor_values,
                predictor_values
                ++ (c ← values; map (fun q => q * c)%Q predictor_values)
                ++ values
                ++ map (fun c => default 0 (cost c) * -1)%Q control_signals,
                [v0])) as H; [|by destruct context].
  set (T := values ≫= (fun c => map (fun q => (q * c)%Q) predictor_values)).
  assert (length T = p * k) as HT.
  { subst T. rewrite (length_bind_const _ p) by (intros; by rewrite length_map).
    lia. }
  assert (set_slice (pred self) predictor_values prediction_vector
          = Ok (predictor_values ++ I0 ++ C0 ++ D0)) as E1.
  { rewrite Hpv.
    apply (set_slice_app [] P0 (I0 ++ C0 ++ D0) predictor_values);
      rewrite ?Hpred; simpl; lia. }
  assert (set_slice (ctl self) values (predictor_values ++ I0 ++ C0 ++ D0)
          = Ok (predictor_values ++ I0 ++ values ++ D0)) as E2.
  { rewrite (app_assoc predictor_values I0 (C0 ++ D0)).
    rewrite (app_assoc predictor_values I0 (values ++ D0)).
    apply (set_slice_app (predictor_values ++ I0) C0 D0 values);
      rewrite ?Hctl; simpl; rewrite ?length_app; lia. }
  assert (interaction_terms self (predictor_values ++ I0 ++ values ++ D0) = Ok T)
    as E3.
  { unfold interaction_terms.
    rewrite (app_assoc predictor_values I0 (values ++ D0)).
    rewrite (get_slice_app (predictor_values ++ I0) values D0 (ctl self))
      by (rewrite ?Hctl; simpl; rewrite ?length_app; lia).
    rewrite Hnum, <- Hk, reshape_column. cbn [mbind result_bind].
    rewrite <- (app_assoc predictor_values I0 (values ++ D0)).
    pose proof (get_slice_app [] predictor_values (I0 ++ values ++ D0) (pred self))
      as Hg. cbn [app] in Hg. rewrite Hg by (rewrite ?Hpred; simpl; lia).
    by rewrite map_map, concat_map_bind. }
  assert (set_slice (intrxn self) T (predictor_values ++ I0 ++ values ++ D0)
          = Ok (predictor_values ++ T ++ values ++ D0)) as E4.
  { apply (set_slice_app predictor_values I0 (values ++ D0) T);
      rewrite ?Hintrxn; simpl; lia. }
  assert (set_slice (cst self)
            (map (fun c => default 0 (cost c) * -1)%Q control_signals)
            (predictor_values ++ T ++ values ++ D0)
          = Ok (predictor_values ++ T ++ values
                ++ map (fun c => default 0 (cost c) * -1)%Q control_signals)) as E5.
  { pose proof (set_slice_app (predictor_values ++ T ++ values) D0 []
                  (map (fun c => default 0 (cost c) * -1)%Q control_signals)
                  (cst self)) as Hs.
    rewrite !app_nil_r, <- !app_assoc in Hs. apply Hs;
      rewrite ?Hcst, ?length_map; simpl; rewrite ?length_app; lia. }
  destruct context; [done| | |].
  all: rewrite E1; cbn [mbind result_bind]; rewrite Hflat; cbn [mbind result_bind].
  all: rewrite E2; cbn [mbind result_bind]; rewrite E3; cbn [mbind result_bind].
  all: rewrite E4; cbn [mbind result_bind]; by rewrite E5.
Qed.

Lemma parse_function_variable_layout_witness :
  _parse_function_variable (Examples.lvoc Examples.quadratic_cost) [0; 0; 0; 0]%Q
    [MoreExamples.half_signal] [[7]; [2]]%Q EXECUTING
  = Ok (Examples.lvoc Examples.quadratic_cost, [2%Q],
        [2; 2 * (1 # 2); 1 # 2; (1 # 4) * -1]%Q, [[7%Q]]).
Proof.
  apply (parse_function_variable_layout "lvoc" (1 # 100) 5 (1 # 10) [2%Q]
           [MoreExamples.half_signal] [0; 0; 0; 0]%Q [7%Q] [[2%Q]] EXECUTING);
    try reflexivity.
  - discriminate.
  - by repeat constructor.
Defined.

Section predictors.
Context {Variable_ Projection Function_ : Type}.
#[local] Abbreviation predictor := (predictor Variable_ Projection Function_).
#[local] Abbreviation shadow_item := (shadow_item Variable_ Projection).
#[local] Abbreviation parsed := (parsed Variable_ Projection Function_).

Lemma not_in_a_character c : is_substring SHADOW_INPUTS (String c EmptyString) = false.
Proof.
  destruct c as [[] [] [] [] [] [] [] []]; reflexivity.
Qed.

Lemma parse_characters (self_composition : option Composition) s :
  forall acc : list parsed,
  parse_predictors self_composition (map Pred_str (characters s)) acc
  = Ok (acc ++ map (fun c => as_is (Pred_str c)) (characters s)).
Proof.
  induction s as [|c s IH]; intros acc; [by rewrite app_nil_r|].
  cbn [characters map parse_predictors]. unfold parse_predictor at 1.
  cbn [contains_SHADOW_INPUTS mbind result_bind].
  rewrite not_in_a_character. cbn [mbind result_bind].
  rewrite IH. by rewrite <- app_assoc.
Qed.

(** X13.  Given [predictors] as a string, [_parse_predictor_specs]
    returns one specification per character, each passed on as it is: no
    single character contains [SHADOW_INPUTS], so the shadow inputs are
    never parsed.  The default, the string [SHADOW_INPUTS] itself, gives 13
    specifications. *)
Theorem string_predictors_are_read_by_character
    (self_composition : option Composition) (composition : Composition)
    (s : string) :
  _parse_predictor_specs self_composition (Some composition) (Predictors_str s)
  = Ok (map (fun c => as_is (Pred_str c) : parsed) (characters s)) /\
  length (characters SHADOW_INPUTS) = 13.
Proof.
  split; [|done]. unfold _parse_predictor_specs. by rewrite parse_characters.
Qed.

Lemma shadow_items_repeat (l1 : list shadow_item) :
  forall x l2 st (acc : list (input_state_spec Variable_ Projection Function_)),
  shadow_items (l1 ++ x :: Item_other :: l2) st acc
  = shadow_items (l1 ++ x :: x :: l2) st acc.
Proof.
  induction l1 as [|y l1 IH]; intros x l2 st acc.
  - cbn [app shadow_items]. destruct x as [iss|i|]; try done.
  - cbn [app shadow_items].
    destruct y as [iss|i|]; try apply IH.
    destruct st; [apply IH|done].
Qed.

(** X14.  In a list of items to shadow, an item that is neither a
    Mechanism nor an InputState is read as a repetition of the item before
    it (the local variable [input_states] keeps its value); as the first
    item it is an UnboundLocalError. *)
Theorem unrecognised_shadow_item_repeats_the_previous
    (self_composition : option Composition) (f : option Function_)
    (l1 l2 : list shadow_item) (x : shadow_item) :
  _parse_shadow_input_spec self_composition
    {| shadow_inputs := Some (Shadow_list (l1 ++ x :: Item_other :: l2));
       function := f |}
  = _parse_shadow_input_spec self_composition
      {| shadow_inputs := Some (Shadow_list (l1 ++ x :: x :: l2));
         function := f |} /\
  _parse_shadow_input_spec self_composition
    {| shadow_inputs := Some (Shadow_list (Item_other :: l2)); function := f |}
  = Raise UnboundLocalError.
Proof.
  unfold _parse_shadow_input_spec. cbn [shadow_inputs mbind result_bind].
  by rewrite shadow_items_repeat.
Qed.

(** X15.  [add_predictors] returns only if a composition is passed, and
    one identical to the mechanism's own if it has one: without the
    argument it raises an AttributeError when the mechanism has a
    composition (the message reads [composition.name]), and the error of the
    decorator of [_parse_predictor_specs] when it has none. *)
Theorem add_predictors_needs_the_composition
    (self_composition composition : option Composition)
    (predictors_ : predictors Variable_ Projection Function_) :
  (is_Ok (add_predictors self_composition predictors_ composition) ->
   exists c, composition = Some c /\
     forall mine, self_composition = Some mine -> comp_id c = comp_id mine) /\
  (forall mine, self_composition = Some mine ->
     add_predictors self_composition predictors_ None = Raise AttributeError) /\
  add_predictors None predictors_ None = Raise InputParameterError.
Proof.
  split; [|split].
  - unfold add_predictors. destruct self_composition as [mine|], composition as [c|];
      simpl; try done.
    + case_decide; [|done]. intros _. exists c. split; [done|]. by intros ? [= <-].
    + intros _. by exists c.
  - by intros mine ->.
  - done.
Qed.
End predictors.

Lemma string_predictors_are_read_by_character_witness :
  _parse_predictor_specs (Variable_ := unit) (Projection := unit)
    (Function_ := unit) None (Some (MoreExamples.composition 1))
    (Predictors_str SHADOW_INPUTS)
  = Ok (map (fun c => as_is (Pred_str c))
          ["S"; "H"; "A"; "D"; "O"; "W"; "_"; "I"; "N"; "P"; "U"; "T"; "S"]).
Proof.
  exact (proj1 (string_predictors_are_read_by_character None
                  (MoreExamples.composition 1) SHADOW_INPUTS)).
Defined.

Lemma unrecognised_shadow_item_repeats_the_previous_witness :
  _parse_shadow_input_spec (Function_ := unit) None
    {| shadow_inputs :=
         Some (Shadow_list [Item_InputState (MoreExamples.input_state "a"); Item_other]);
       function := None |}
  = Ok [shadow_of_input_state (MoreExamples.input_state "a");
        shadow_of_input_state (MoreExamples.input_state "a")].
Proof.
  by rewrite (proj1 (unrecognised_shadow_item_repeats_the_previous None None []
                       [] (Item_InputState (MoreExamples.input_state "a")))).
Defined.

Lemma add_predictors_needs_the_composition_witness :
  add_predictors (Variable_ := unit) (Projection := unit) (Function_ := unit)
    (Some (MoreExamples.composition 1)) (Predictors_list []) None
  = Raise AttributeError.
Proof.
  by apply (proj1 (proj2 (add_predictors_needs_the_composition
                            (Some (MoreExamples.composition 1)) None
                            (Predictors_list []))) (MoreExamples.composition 1)).
Defined.
End LVOCInputsProps.

(** ** controlmechanism.py: numbering, net outcome, monitored states *)

Module ControlMechanismExtras.
Import ControlMechanism.

Section numbering.
Variable EID_SIMULATION : string.

Lemma sim_ids_numbered_from contexts : forall self i context,
  contexts !! i = Some context ->
  sim_ids EID_SIMULATION self contexts !! i
  = Some (sim_id EID_SIMULATION (execution_id context)
            (next_num self (execution_id context)
             + length (filter (fun c => execution_id c = execution_id context)
                              (take i contexts)))).
Proof.
  induction contexts as [|c0 rest IH]; intros self i context Hi; [done|].
  cbn [sim_ids].
  pose proof (SimIdProps.get_next_sim_id_spec EID_SIMULATION self c0) as Hspec.
  cbn zeta in Hspec.
  destruct (get_next_sim_id EID_SIMULATION self c0) as [id0 self'].
  destruct Hspec as (Hid0 & Hnext & Hother).
  destruct i as [|i]; simpl in Hi.
  - injection Hi as <-. simpl. by rewrite Nat.add_0_r, Hid0.
  - simpl. rewrite (IH self' i context Hi). do 2 f_equal.
    rewrite filter_cons. case_decide as E.
    + rewrite E in Hnext. rewrite Hnext. simpl. lia.
    + rewrite Hother by done. done.
Qed.
End numbering.

(** X16.  In any sequence of calls of [get_next_sim_id], a call carries
    the number the counter of its execution id started from plus the number
    of earlier calls for the same execution id: per execution id the ids are
    numbered consecutively, and calls for other ids do not count. *)
Theorem sim_ids_are_numbered_per_execution_id (EID_SIMULATION : string)
    (self : ControlMechanism) (contexts : list Context) (i : nat)
    (context : Context) :
  contexts !! i = Some context ->
  sim_ids EID_SIMULATION self contexts !! i
  = Some (execution_id context +:+ EID_SIMULATION +:+ "-" +:+
          pretty (default 0 (_sim_counts self !! execution_id context)
                  + length (filter (fun c => execution_id c = execution_id context)
                                   (take i contexts)))).
Proof. apply sim_ids_numbered_from. Qed.

Lemma sim_ids_are_numbered_per_execution_id_witness :
  sim_ids "-sim" Examples.fresh_mechanism
    [Examples.ctx; Examples.ctx'; Examples.ctx; Examples.ctx] !! 3
  = Some "trial-sim-2".
Proof.
  by apply (sim_ids_are_numbered_per_execution_id "-sim" Examples.fresh_mechanism
              [Examples.ctx; Examples.ctx'; Examples.ctx; Examples.ctx] 3
              Examples.ctx).
Defined.

Lemma all_nums_PyNum costs : all_nums (map PyNum costs) = Some costs.
Proof.
  unfold all_nums. induction costs as [|c costs IH]; [done|].
  cbn [map mapM]. unfold all_nums in IH. cbn [map mapM] in *. rewrite IH. done.
Qed.

(** X17.  For a mechanism made with the default [combine_costs] and
    [compute_net_outcome], whose [variable] has been set and whose
    ControlSignals all report numbers as costs, [net_outcome] is the first
    item of [variable] minus the sum of the costs, item by item if it is an
    array; if that first item is [None] it is [[0]]. *)
Theorem net_outcome_subtracts_the_total_cost (name : string)
    (control : list ControlSignal) (context : Context)
    (outcome : pyval) (rest : list pyval) (costs : list Q) :
  let c := set_variable context (outcome :: rest) (__init__ name control None None) in
  costs_comprehension control context = Ok (map PyNum costs) ->
  _net_outcome_getter c context =
  match outcome with
  | PyArr xs => Ok (PyArr (map (fun x => x - Qsum costs)%Q xs))
  | PyNum x => Ok (PyNum (x - Qsum costs)%Q)
  | PyNone => Ok (PyArr [0%Q])
  end.
Proof.
  intros c Hcosts. unfold _net_outcome_getter, _outcome_getter,
    _control_mechanism_costs_getter.
  subst c. unfold _get. cbn [variable set_variable control_signals __init__
    combine_costs compute_net_outcome default].
  unfold Param. rewrite lookup_insert_eq. cbn [except_TypeError mbind result_bind].
  rewrite Hcosts. cbn [fmap result_fmap except_TypeError mbind result_bind].
  unfold default_combine_costs, np_sum. rewrite all_nums_PyNum.
  cbn [mbind result_bind]. unfold default_compute_net_outcome.
  by destruct outcome.
Qed.

Lemma net_outcome_subtracts_the_total_cost_witness :
  _net_outcome_getter
    (set_variable Examples.ctx [PyArr [10; 20]%Q]
       (__init__ "ctl" [Examples.cs_cost3; Examples.cs_cost3] None None))
    Examples.ctx
  = Ok (PyArr (map (fun x => x - Qsum [3; 3])%Q [10; 20]%Q)).
Proof.
  by apply (net_outcome_subtracts_the_total_cost "ctl"
              [Examples.cs_cost3; Examples.cs_cost3] Examples.ctx
              (PyArr [10; 20]%Q) [] [3; 3]%Q).
Defined.

Section monitored.
Context {OutputState : Type} `{EqDecision OutputState}.

Lemma add_unmonitored_spec (requested : list OutputState) : forall monitored,
  NoDup monitored ->
  NoDup (add_unmonitored monitored requested) /\
  monitored `prefix_of` add_unmonitored monitored requested /\
  forall s, s ∈ add_unmonitored monitored requested <->
            s ∈ monitored \/ s ∈ requested.
Proof.
  unfold add_unmonitored.
  induction requested as [|item requested IH]; intros monitored Hnd; cbn [foldl].
  { split; [done|]. split; [done|]. intros s. rewrite elem_of_nil. tauto. }
  case_decide as Hin.
  - destruct (IH monitored Hnd) as (H1 & H2 & H3).
    split; [done|]. split; [done|]. intros s. rewrite H3, elem_of_cons.
    split; [tauto|]. intros [?|[->|?]]; tauto.
  - destruct (IH (monitored ++ [item])) as (H1 & H2 & H3).
    { apply NoDup_app. split; [done|]. split; [|apply NoDup_singleton].
      intros x Hx ->%list_elem_of_singleton. done. }
    split; [done|]. split.
    { etrans; [|exact H2]. by apply prefix_app_r. }
    intros s. rewrite H3, elem_of_app, list_elem_of_singleton, elem_of_cons. tauto.
Qed.
End monitored.

(** X18.  The ObjectiveMechanism that [_instantiate_objective_mechanism]
    creates monitors the states the system reports, in their order and
    first, followed by those of [monitor_for_control] and of a list given
    as [objective_mechanism]; each state is monitored once, and no other
    state is monitored. *)
Theorem monitored_states_are_merged_once {OutputState} `{EqDecision OutputState}
    (self_name : string) (from_system monitor_for_control : list OutputState)
    (objective_mechanism : objective_mechanism_spec OutputState) :
  (forall om, objective_mechanism <> OM_instance om) ->
  NoDup from_system ->
  let om := _instantiate_objective_mechanism self_name from_system
              monitor_for_control objective_mechanism in
  let requested :=
    monitor_for_control ++ match objective_mechanism with
                           | OM_list states => states
                           | _ => []
                           end in
  NoDup (monitor om) /\
  from_system `prefix_of` monitor om /\
  forall s, s ∈ monitor om <-> s ∈ from_system \/ s ∈ requested.
Proof.
  intros Hspec Hnd om requested. subst om requested.
  unfold _instantiate_objective_mechanism.
  destruct objective_mechanism as [|states|om']; [| |by destruct (Hspec om')];
    cbn [monitor]; rewrite ?app_nil_r; by apply add_unmonitored_spec.
Qed.

Lemma monitored_states_are_merged_once_witness :
  monitor (_instantiate_objective_mechanism "ctl" [1; 2] [2; 3; 3] (OM_list [1; 4]))
  = [1; 2; 3; 4] /\
  NoDup (monitor (_instantiate_objective_mechanism "ctl" [1; 2] [2; 3; 3]
                    (OM_list [1; 4]))).
Proof.
  split; [reflexivity|].
  apply (monitored_states_are_merged_once "ctl" [1; 2] [2; 3; 3] (OM_list [1; 4])).
  - discriminate.
  - compute_done.
Defined.
End ControlMechanismExtras.

(** ** controlmechanism.py: duplicate ControlSignals *)

Module DuplicatesProps.
Import Duplicates.

Lemma check_app self_name cs pre : forall post,
  _check_for_duplicates self_name cs (pre ++ post)
  = let '(ws, r) := _check_for_duplicates self_name cs pre in
    match r with
    | Ok _ =>
        if forallb (fun e => same_signal cs e ||
                             negb match efferents cs with
                                  | proj :: _ => is_efferent_of proj e
                                  | [] => false
                                  end) pre
        then let '(ws', r') := _check_for_duplicates self_name cs post in
             (ws ++ ws', r')
        else (ws, r)
    | Raise _ => (ws, r)
    end.
Proof.
  induction pre as [|e pre IH]; intros post.
  { cbn. by destruct (_check_for_duplicates self_name cs post). }
  cbn [app _check_for_duplicates forallb].
  destruct (same_signal cs e) eqn:Esame; cbn [orb andb].
  { apply IH. }
  destruct (match efferents cs with
            | [] => false
            | proj :: _ => is_efferent_of proj e
            end) eqn:Eret; cbn [negb andb].
  { done. }
  destruct (PROJECTION_TYPE e) as [pt|]; [|done].
  rewrite IH.
  destruct (_check_for_duplicates self_name cs pre) as [ws [[]|ex]]; [|done].
  destruct (forallb _ pre); [|done].
  destruct (_check_for_duplicates self_name cs post) as [ws' r'].
  by rewrite app_assoc.
Qed.

(** X19.  [_check_for_duplicates] returns at the first existing
    ControlSignal, other than the new one, that has the FIRST projection of
    the new one among its efferents, whatever the other projections of the
    new signal: the ControlSignals after that one are not examined. *)
Theorem first_projection_decides_duplicate (self_name : string)
    (control_signal existing_ctl_sig : ControlSignal)
    (pre post : list ControlSignal) (proj : Projection) (others : list Projection) :
  efferents control_signal = proj :: others ->
  same_signal control_signal existing_ctl_sig = false ->
  is_efferent_of proj existing_ctl_sig = true ->
  _check_for_duplicates self_name control_signal (pre ++ existing_ctl_sig :: post)
  = _check_for_duplicates self_name control_signal pre.
Proof.
  intros Heff Hsame Hin. rewrite check_app.
  destruct (_check_for_duplicates self_name control_signal pre) as [ws [[]|e]];
    [|done].
  destruct (forallb _ pre); [|done].
  cbn [_check_for_duplicates]. rewrite Hsame, Heff, Hin. by rewrite app_nil_r.
Qed.

Lemma first_projection_decides_duplicate_witness :
  _check_for_duplicates "ctl"
    (MoreExamples.signal 3 "new" [MoreExamples.projection 1 10; MoreExamples.projection 9 11])
    [MoreExamples.signal 1 "old" [MoreExamples.projection 1 10];
     MoreExamples.signal 2 "other" [MoreExamples.projection 2 11]]
  = ([], Ok ()).
Proof.
  apply (first_projection_decides_duplicate "ctl"
           (MoreExamples.signal 3 "new"
              [MoreExamples.projection 1 10; MoreExamples.projection 9 11])
           (MoreExamples.signal 1 "old" [MoreExamples.projection 1 10]) []
           [MoreExamples.signal 2 "other" [MoreExamples.projection 2 11]]
           (MoreExamples.projection 1 10) [MoreExamples.projection 9 11]);
    reflexivity.
Defined.

(** X20.  Every warning of [_check_for_duplicates] names an existing
    ControlSignal, other than the new one, that has an efferent with the
    same receiver as an efferent of the new one; a new ControlSignal
    without efferents is never warned about. *)
Theorem duplicate_warnings_name_shared_receivers (self_name : string)
    (control_signal : ControlSignal) (control_signals : list ControlSignal) :
  (forall w, w ∈ (_check_for_duplicates self_name control_signal control_signals).1 ->
     exists existing_ctl_sig projection_type new_p existing_p,
       existing_ctl_sig ∈ control_signals /\
       same_signal control_signal existing_ctl_sig = false /\
       PROJECTION_TYPE existing_ctl_sig = Some projection_type /\
       new_p ∈ efferents control_signal /\
       existing_p ∈ efferents existing_ctl_sig /\
       receiver new_p = receiver existing_p /\
       w = redundancy_warning self_name control_signal existing_ctl_sig
             projection_type) /\
  (efferents control_signal = [] ->
   (_check_for_duplicates self_name control_signal control_signals).1 = []).
Proof.
  split.
  - induction control_signals as [|e rest IH]; intros w Hw;
      cbn [_check_for_duplicates] in Hw.
    { by apply elem_of_nil in Hw. }
    destruct (same_signal control_signal e) eqn:Esame.
    { destruct (IH w Hw) as (x & pt & np & ep & Hx & H).
      exists x, pt, np, ep. split; [by right|done]. }
    destruct (match efferents control_signal with
              | [] => false
              | proj :: _ => is_efferent_of proj e
              end); [by apply elem_of_nil in Hw|].
    destruct (PROJECTION_TYPE e) as [pt|] eqn:Ept; [|by apply elem_of_nil in Hw].
    destruct (_check_for_duplicates self_name control_signal rest) as [ws r] eqn:Erest.
    cbn [fst] in Hw, IH. apply elem_of_app in Hw as [Hw|Hw].
    + destruct (share_a_receiver control_signal e) eqn:Eshare;
        [|by apply elem_of_nil in Hw].
      apply list_elem_of_singleton in Hw as ->.
      unfold share_a_receiver in Eshare.
      apply existsb_exists in Eshare as (np & Hnp & Eshare).
      apply existsb_exists in Eshare as (ep & Hep & Erecv).
      apply Nat.eqb_eq in Erecv.
      exists e, pt, np, ep. rewrite <- !list_elem_of_In in *.
      split; [by left|done].
    + destruct (IH w Hw) as (x & pt' & np & ep & Hx & H).
      exists x, pt', np, ep. split; [by right|done].
  - intros Heff. induction control_signals as [|e rest IH]; [done|].
    cbn [_check_for_duplicates]. rewrite Heff.
    destruct (same_signal control_signal e); [done|].
    destruct (PROJECTION_TYPE e); [|done].
    destruct (_check_for_duplicates self_name control_signal rest) as [ws r].
    unfold share_a_receiver. rewrite Heff. cbn in *. done.
Qed.

Lemma duplicate_warnings_name_shared_receivers_witness :
  (_check_for_duplicates "ctl"
     (MoreExamples.signal 3 "new" [MoreExamples.projection 9 10])
     [MoreExamples.signal 1 "old" [MoreExamples.projection 1 10]]).1
  = ["Specification of new for ctl has one or more ControlProjections redundant with ones already on an existing ControlSignal (old)."] /\
  (_check_for_duplicates "ctl" (MoreExamples.signal 3 "new" [])
     [MoreExamples.signal 1 "old" [MoreExamples.projection 1 10]]).1 = [].
Proof.
  split; [reflexivity|].
  by apply (proj2 (duplicate_warnings_name_shared_receivers "ctl"
                     (MoreExamples.signal 3 "new" [])
                     [MoreExamples.signal 1 "old" [MoreExamples.projection 1 10]])).
Defined.
End DuplicatesProps.

(** ** selectionfunctions.py *)

Module SelectionProps.
Import Selection.

#[local] Instance Qle_transitive : Transitive Qle := Qle_trans.
#[local] Instance Qle_total : Total Qle.
Proof.
  intros x y. destruct (Qlt_le_dec y x) as [H|H]; [right; by apply Qlt_le_weak|by left].
Qed.

(** The sorted list ends with the largest item and, before it, the largest
    of the others. *)
Lemma sorted_ends (x : list Q) :
  2 <= length x ->
  exists m s rest,
    reverse (merge_sort Qle x) = m :: s :: reverse rest /\
    merge_sort Qle x = rest ++ [s; m] /\
    x ≡ₚ m :: s :: rest /\
    Forall (fun y => y <= s)%Q rest /\ (s <= m)%Q.
Proof.
  intros Hlen.
  pose proof (merge_sort_Permutation Qle x) as Hperm.
  pose proof (StronglySorted_merge_sort Qle x) as Hsorted.
  set (l := merge_sort Qle x) in *.
  assert (length l = length x) as Hl by (by rewrite Hperm).
  destruct (reverse l) as [|m [|s R]] eqn:Er.
  { apply (f_equal length) in Er. rewrite length_reverse in Er. simpl in Er. lia. }
  { apply (f_equal length) in Er. rewrite length_reverse in Er. simpl in Er. lia. }
  assert (l = reverse R ++ [s; m]) as El.
  { rewrite <- (reverse_involutive l), Er, !reverse_cons, <- app_assoc. done. }
  exists m, s, (reverse R). rewrite reverse_involutive.
  split; [done|]. split; [done|]. split.
  { rewrite <- Hperm, El. rewrite Permutation_app_comm. simpl.
    apply perm_swap. }
  rewrite El in Hsorted. split.
  - apply Forall_forall. intros y Hy.
    apply (StronglySorted_app_1_elem_of _ _ _ y s Hsorted Hy). by left.
  - apply StronglySorted_app_1_r in Hsorted.
    inversion Hsorted as [|? ? _ Hall]; subst.
    by inversion Hall.
Qed.

Lemma partition_one (x : list Q) :
  length x = 1 -> partition x (-2) = Raise ValueError.
Proof.
  intros H. unfold partition. destruct x as [|y x]; [done|].
  rewrite decide_False by lia. done.
Qed.

Lemma partition_long (x : list Q) :
  2 <= length x -> partition x (-2) = Ok (merge_sort Qle x).
Proof.
  intros H. unfold partition. destruct x as [|y x]; [simpl in H; lia|].
  rewrite decide_True by lia. done.
Qed.

(** X21.  [max_vs_next] raises an IndexError for an empty array (the
    partition of which is empty) and a ValueError for a single item;
    otherwise it returns [m - s], where [m] is a largest item of [x] and
    [s] a largest of the other items: the result is not negative. *)
Theorem max_vs_next_is_lead_of_the_maximum (x : list Q) :
  max_vs_next [] = Raise IndexError /\
  (length x = 1 -> max_vs_next x = Raise ValueError) /\
  (2 <= length x ->
   exists m s rest,
     x ≡ₚ m :: s :: rest /\ Forall (fun y => y <= s)%Q rest /\ (s <= m)%Q /\
     max_vs_next x = Ok (m - s)%Q).
Proof.
  split; [done|]. split; intros Hlen; unfold max_vs_next.
  - by rewrite partition_one.
  - rewrite partition_long by done.
    destruct (sorted_ends x Hlen) as (m & s & rest & Er & _ & Hperm & Hrest & Hsm).
    exists m, s, rest. split; [done|]. split; [done|]. split; [done|].
    cbn [mbind result_bind]. unfold getitem_from_end. rewrite Er. done.
Qed.

Lemma max_vs_next_is_lead_of_the_maximum_witness :
  max_vs_next [3; 1; 2]%Q = Ok (3 - 2)%Q /\
  exists m s rest, [3; 1; 2]%Q ≡ₚ m :: s :: rest /\ (s <= m)%Q.
Proof.
  split; [reflexivity|].
  destruct (proj2 (proj2 (max_vs_next_is_lead_of_the_maximum [3; 1; 2]%Q)))
    as (m & s & rest & Hperm & _ & Hsm & _); [simpl; lia|].
  by exists m, s, rest.
Defined.

(** X22.  [max_vs_avg] raises an IndexError for an empty array and a
    ValueError for a single item; otherwise it returns [m] minus the mean
    of the other items, where [m] is a largest item of [x]. *)
Theorem max_vs_avg_is_lead_over_the_mean (x : list Q) :
  max_vs_avg [] = Raise IndexError /\
  (length x = 1 -> max_vs_avg x = Raise ValueError) /\
  (2 <= length x ->
   exists m others,
     x ≡ₚ m :: others /\ Forall (fun y => y <= m)%Q others /\
     max_vs_avg x
     = Ok (m - Qsum others / inject_Z (Z.of_nat (length x - 1)))%Q).
Proof.
  split; [done|]. split; intros Hlen; unfold max_vs_avg.
  - by rewrite partition_one.
  - rewrite partition_long by done.
    destruct (sorted_ends x Hlen) as (m & s & rest & Er & El & Hperm & Hrest & Hsm).
    exists m, (rest ++ [s]). split; [|split].
    + rewrite Hperm. apply perm_skip. rewrite Permutation_app_comm. done.
    + apply Forall_app. split; [|by repeat constructor].
      eapply Forall_impl; [exact Hrest|]. intros y Hy. by apply (Qle_trans _ s).
    + cbn [mbind result_bind]. unfold getitem_from_end. rewrite Er.
      cbn [lookup list_lookup Nat.sub mbind result_bind].
      unfold mean, but_last. rewrite El.
      assert (take (length (rest ++ [s; m]) - 1) (rest ++ [s; m]) = rest ++ [s]) as ->.
      { replace (rest ++ [s; m]) with ((rest ++ [s]) ++ [m])
          by (by rewrite <- app_assoc).
        rewrite length_app. simpl. rewrite Nat.add_sub.
        by rewrite take_app_length. }
      do 4 f_equal. apply Permutation_length in Hperm.
      rewrite length_app. simpl in *. lia.
Qed.

Lemma max_vs_avg_is_lead_over_the_mean_witness :
  max_vs_avg [3; 1; 2]%Q = Ok (3 - (1 + (2 + 0)) / inject_Z 2)%Q /\
  exists m others, [3; 1; 2]%Q ≡ₚ m :: others /\ Forall (fun y => y <= m)%Q others.
Proof.
  split; [reflexivity|].
  destruct (proj2 (proj2 (max_vs_avg_is_lead_over_the_mean [3; 1; 2]%Q)))
    as (m & others & Hperm & Hall & _); [simpl; lia|].
  by exists m, others.
Defined.

Lemma Qmax_cases x y :
  (Qmax x y = x \/ Qmax x y = y) /\ (x <= Qmax x y)%Q /\ (y <= Qmax x y)%Q.
Proof.
  unfold Qmax. destruct (Qlt_le_dec x y) as [H|H].
  - split; [by right|]. split; [by apply Qlt_le_weak|apply Qle_refl].
  - split; [by left|]. split; [apply Qle_refl|done].
Qed.

Lemma foldl_Qmax xs : forall x,
  foldl Qmax x xs ∈ x :: xs /\
  Forall (fun y => y <= foldl Qmax x xs)%Q (x :: xs).
Proof.
  induction xs as [|y ys IH]; intros x; cbn [foldl].
  { split; [by left|]. repeat constructor. apply Qle_refl. }
  destruct (IH (Qmax x y)) as [Hin Hall].
  destruct (Qmax_cases x y) as (Hcase & Hx & Hy).
  inversion Hall as [|? ? Hm Hys]; subst. split.
  - apply elem_of_cons in Hin as [Hin|Hin].
    + rewrite Hin. destruct Hcase as [->| ->]; [by left|right; by left].
    + right. by right.
  - constructor; [by apply (Qle_trans _ (Qmax x y))|].
    constructor; [by apply (Qle_trans _ (Qmax x y))|done].
Qed.

(** X23.  On a 1-d array that is not empty, [OneHot] with MAX_VAL keeps
    every item equal to the largest one [m] and zeroes the others, and with
    MAX_INDICATOR puts 1 at each of these places: with ties several items
    are kept. *)
Theorem one_hot_keeps_every_maximum (random_value : Q) (xs : list Q) :
  xs <> [] ->
  exists m,
    m ∈ xs /\ Forall (fun x => x <= m)%Q xs /\
    function MAX_VAL random_value (Arr1 xs)
    = Ok (Arr1 (map (fun x => if Qeq_bool x m then m else 0%Q) xs)) /\
    function MAX_INDICATOR random_value (Arr1 xs)
    = Ok (Arr1 (map (fun x => if Qeq_bool x m then 1%Q else 0%Q) xs)).
Proof.
  intros Hne. destruct xs as [|x xs]; [done|].
  exists (foldl Qmax x xs). destruct (foldl_Qmax xs x) as [Hin Hall].
  by repeat split.
Qed.

Lemma one_hot_keeps_every_maximum_witness :
  function MAX_INDICATOR 0 (Arr1 [1; 3; 2; 3]%Q) = Ok (Arr1 [0; 1; 0; 1]%Q) /\
  exists m,
    function MAX_VAL 0 (Arr1 [1; 3; 2; 3]%Q)
    = Ok (Arr1 (map (fun x => if Qeq_bool x m then m else 0%Q) [1; 3; 2; 3]%Q)).
Proof.
  split; [reflexivity|].
  destruct (one_hot_keeps_every_maximum 0 [1; 3; 2; 3]%Q) as (m & _ & _ & H & _);
    [discriminate|].
  by exists m.
Defined.

(** X24.  When a negative item exceeds every item in magnitude, [OneHot]
    with MAX_ABS_VAL or MAX_ABS_INDICATOR returns zeros only: the items are
    compared, with their signs, to the largest magnitude. *)
Theorem max_abs_val_misses_a_negative_maximum (random_value : Q) (xs : list Q)
    (y : Q) :
  y ∈ xs -> (y < 0)%Q -> Forall (fun x => x < - y)%Q xs ->
  function MAX_ABS_VAL random_value (Arr1 xs) = Ok (Arr1 (map (fun _ => 0%Q) xs)) /\
  function MAX_ABS_INDICATOR random_value (Arr1 xs)
  = Ok (Arr1 (map (fun _ => 0%Q) xs)).
Proof.
  intros Hy Hneg Hall. unfold function, np_max. cbn [map_array items].
  destruct xs as [|x xs]; [by apply elem_of_nil in Hy|].
  cbn [map mbind result_bind].
  destruct (foldl_Qmax (map Qabs xs) (Qabs x)) as [_ Hmax].
  set (M := foldl Qmax (Qabs x) (map Qabs xs)) in *.
  assert (- y <= M)%Q as HyM.
  { change (Qabs x :: map Qabs xs) with (map Qabs (x :: xs)) in Hmax.
    rewrite Forall_forall in Hmax.
    assert (Qabs y <= M)%Q as H.
    { apply Hmax. apply list_elem_of_fmap. by exists y. }
    rewrite Qabs_neg in H by (by apply Qlt_le_weak). done. }
  assert (forall z, z ∈ x :: xs -> Qeq_bool z M = false) as Hnot.
  { intros z Hz. rewrite Forall_forall in Hall.
    destruct (Qeq_bool z M) eqn:E; [|done].
    apply Qeq_bool_eq in E. specialize (Hall z Hz).
    exfalso. apply (Qlt_not_le _ _ Hall). by rewrite E. }
  unfold where_equal. cbn [map_array].
  change (0%Q :: map (fun _ : Q => 0%Q) xs) with (map (fun _ : Q => 0%Q) (x :: xs)).
  split; do 2 f_equal; apply map_ext_in; intros z Hz%list_elem_of_In;
    by rewrite Hnot.
Qed.

Lemma max_abs_val_misses_a_negative_maximum_witness :
  function MAX_ABS_VAL 0 (Arr1 [- 5; 2]%Q) = Ok (Arr1 [0; 0]%Q).
Proof.
  apply (max_abs_val_misses_a_negative_maximum 0 [- 5; 2]%Q (- 5)%Q).
  - by left.
  - reflexivity.
  - by repeat constructor.
Defined.

Lemma running_sum_step l : forall acc i c q,
  running_sum acc l !! i = Some c -> l !! S i = Some q ->
  running_sum acc l !! S i = Some (c + q)%Q.
Proof.
  induction l as [|x l IH]; intros acc i c q Hc Hq; [done|].
  destruct i as [|i]; simpl in *.
  - injection Hc as <-. destruct l as [|x' l]; [done|]. simpl in *. by injection Hq as ->.
  - by apply IH.
Qed.

Lemma length_running_sum l : forall acc, length (running_sum acc l) = length l.
Proof. induction l as [|x l IH]; intros acc; simpl; [done|]. by rewrite IH. Qed.

(** X25.  With PROB_INDICATOR, an item of probability zero is selected
    whenever the item before it is: both have the cumulative probability
    the draw is compared with. *)
Theorem prob_indicator_selects_zero_probability_items (random_value : Q)
    (v prob_dist ys : list Q) (i : nat) (q : Q) :
  length v = length prob_dist ->
  forallb (fun p => Qeq_bool p 0) prob_dist = false ->
  function PROB_INDICATOR random_value (Arr2 [v; prob_dist]) = Ok (Arr1 ys) ->
  prob_dist !! S i = Some q -> (q == 0)%Q ->
  ys !! i = Some 1%Q ->
  ys !! S i = Some 1%Q.
Proof.
  intros Hlen Hany E Hq Hq0 Hi. unfold function in E.
  cbn [row lookup list_lookup mbind result_bind items] in E.
  rewrite Hany in E. unfold cumsum in E. cbn [items] in E.
  set (cum_sum := running_sum 0 prob_dist) in *.
  destruct (List.find _ cum_sum) as [chosen|]; [|done].
  cbn [map_array times] in E.
  rewrite LVOCProps.broadcast1_same_length in E
    by (subst cum_sum; by rewrite !length_map, length_running_sum).
  cbn [fmap result_fmap] in E. injection E as <-.
  rewrite lookup_zip_with in Hi |- *. rewrite !list_lookup_fmap in Hi |- *.
  destruct (v !! i) as [a|] eqn:Ea; [|done].
  destruct (cum_sum !! i) as [c|] eqn:Ec; [|done]. cbn in Hi.
  assert (cum_sum !! S i = Some (c + q)%Q) as ->
    by (by apply running_sum_step).
  assert (is_Some (v !! S i)) as [b ->].
  { apply lookup_lt_is_Some. rewrite Hlen. by apply lookup_lt_Some in Hq. }
  cbn.
  assert (Qeq_bool (c + q) chosen = Qeq_bool c chosen) as ->.
  { apply Qeqb_comp; [|done]. rewrite Hq0. apply Qplus_0_r. }
  by destruct (Qeq_bool c chosen).
Qed.

Lemma prob_indicator_selects_zero_probability_items_witness :
  function PROB_INDICATOR (3 # 10) (Arr2 [[7; 8; 9]; [1 # 2; 0; 1 # 2]]%Q)
  = Ok (Arr1 [1 * 1; 1 * 1; 1 * 0]%Q) /\
  [1 * 1; 1 * 1; 1 * 0]%Q !! 1 = Some 1%Q.
Proof.
  split; [reflexivity|].
  apply (prob_indicator_selects_zero_probability_items (3 # 10) [7; 8; 9]%Q
           [1 # 2; 0; 1 # 2]%Q [1 * 1; 1 * 1; 1 * 0]%Q 0 0%Q); reflexivity.
Defined.

(** X26.  With PROB or PROB_INDICATOR and probabilities that are not all
    zero, a draw that no cumulative probability exceeds makes [OneHot]
    raise StopIteration. *)
Theorem prob_raises_when_the_draw_is_not_covered (mode : Mode) (random_value : Q)
    (v prob_dist : list Q) :
  mode = PROB \/ mode = PROB_INDICATOR ->
  forallb (fun p => Qeq_bool p 0) prob_dist = false ->
  Forall (fun c => c <= random_value)%Q (cumsum (Arr1 prob_dist)) ->
  function mode random_value (Arr2 [v; prob_dist]) = Raise StopIteration.
Proof.
  intros Hmode Hany Hall.
  assert (List.find (fun element => negb (Qle_bool element random_value))
            (cumsum (Arr1 prob_dist)) = None) as Hfind.
  { induction Hall as [|c cs Hc _ IH]; [done|]. simpl.
    apply Qle_bool_iff in Hc. by rewrite Hc. }
  destruct Hmode as [-> | ->]; unfold function;
    cbn [row lookup list_lookup mbind result_bind items];
    rewrite Hany; by rewrite Hfind.
Qed.

Lemma prob_raises_when_the_draw_is_not_covered_witness :
  function PROB (7 # 10) (Arr2 [[7; 8]; [3 # 10; 3 # 10]]%Q) = Raise StopIteration.
Proof.
  apply (prob_raises_when_the_draw_is_not_covered PROB (7 # 10) [7; 8]%Q
           [3 # 10; 3 # 10]%Q).
  - by left.
  - reflexivity.
  - repeat constructor; by vm_compute.
Defined.
End SelectionProps.
